(** * Fluentflow: the two API routes, embedded and verified

    [src/app/api/gemini/route.ts] (the caching text-generation proxy) and
    [src/app/api/did/talk/route.ts] (the avatar-video proxy: submission
    cascade and poll loop) are embedded as state-passing functions over an
    explicit world (clock, cache, trace of effects) and an environment
    (process.env, the upstream services, timer lateness).  The handlers of
    the chat page that call the text route, fill the input box from speech
    and choose the default voice are embedded as functions on the state of
    the component. *)

From Stdlib Require Import ZArith NArith QArith.QArith_base List Bool Ascii String DecimalString Lia.
From stdpp Require Import base option list strings gmap.

Set Warnings "-register-all".

Local Open Scope Z_scope.
Local Open Scope string_scope.

(** ** JavaScript values as the routes see them *)

Module Js.

(** Strings are sequences of code units; a code unit is kept in an [ascii],
    so the model covers the strings whose code units are below 256. *)

(** WhiteSpace and LineTerminator code units below 256 (ECMAScript
    StrWhiteSpaceChar): TAB, LF, VT, FF, CR, SP, NBSP. *)
Definition is_white (c : ascii) : bool :=
  let n := N_of_ascii c in
  ((9 <=? n) && (n <=? 13) || (n =? 32) || (n =? 160))%N.

Fixpoint trimStart (s : string) : string :=
  match s with
  | String c s' => if is_white c then trimStart s' else s
  | EmptyString => EmptyString
  end.

(** [trimEnd] drops the trailing white space: a character stays when it is
    not white or when something after it stays. *)
Fixpoint trimEnd (s : string) : string :=
  match s with
  | String c s' =>
      match trimEnd s' with
      | EmptyString => if is_white c then EmptyString else String c EmptyString
      | t => String c t
      end
  | EmptyString => EmptyString
  end.

(** String.prototype.trim *)
Definition trim (s : string) : string := trimEnd (trimStart s).

(** A string all of whose code units are white space (the empty string
    included): what trim reduces to the empty string. *)
Fixpoint whitespace_only (s : string) : bool :=
  match s with
  | String c s' => is_white c && whitespace_only s'
  | EmptyString => true
  end.

(** String.prototype.toLowerCase on code units below 256: A-Z and the
    Latin-1 capitals U+00C0-U+00DE (U+00D7, the multiplication sign, apart)
    move up by 32. *)
Definition lower (c : ascii) : ascii :=
  let n := N_of_ascii c in
  if ((65 <=? n) && (n <=? 90) || (192 <=? n) && (n <=? 222) && negb (n =? 215))%N
  then ascii_of_N (n + 32) else c.

Fixpoint toLowerCase (s : string) : string :=
  match s with
  | String c s' => String (lower c) (toLowerCase s')
  | EmptyString => EmptyString
  end.

(** String.prototype.startsWith *)
Fixpoint startsWith (s p : string) {struct p} : bool :=
  match p with
  | EmptyString => true
  | String a p' =>
      match s with
      | String b s' => Ascii.eqb a b && startsWith s' p'
      | EmptyString => false
      end
  end.

(** String.prototype.substring(0, n) *)
Definition substring0 (n : nat) (s : string) : string := String.substring 0 n s.

(** Truthiness of a string: every string but the empty one. *)
Definition nonempty (s : string) : bool :=
  match s with EmptyString => false | String _ _ => true end.

(** A parsed JSON document.  A number is kept as the rational its literal
    denotes: the routes never compute with one, they test it for zero and
    pass it on.  An object is its members in source order; a later member
    shadows an earlier one of the same name, as in JSON.parse. *)
Inductive Json : Type :=
| JNull
| JBool (b : bool)
| JNum (q : Q)
| JStr (s : string)
| JArr (items : list Json)
| JObj (members : list (string * Json)).

(** A JavaScript value: [None] is undefined. *)
Definition Value : Type := option Json.

Definition undefined : Value := None.
Definition str (s : string) : Value := Some (JStr s).

Fixpoint assoc_last {A} (k : string) (l : list (string * A)) : option A :=
  match l with
  | [] => None
  | (k', v) :: rest =>
      match assoc_last k rest with
      | Some v' => Some v'
      | None => if String.eqb k k' then Some v else None
      end
  end.

(** [v.name] for the member names the routes use (candidates, content,
    parts, text, id, status, result_url, error, source_url, voice_id):
    none of them is a property of a primitive, an array or a prototype, so
    only an object can have one. *)
Definition member (name : string) (j : Json) : Value :=
  match j with
  | JObj ms => assoc_last name ms
  | _ => undefined
  end.

(** [v[0]]: first element of an array, first code unit of a string, the
    member named 0 of an object. *)
Definition first (j : Json) : Value :=
  match j with
  | JArr (x :: _) => Some x
  | JStr (String c _) => Some (JStr (String c EmptyString))
  | JObj ms => assoc_last "0" ms
  | _ => undefined
  end.

(** Optional chaining [v?.m]: undefined when [v] is null or undefined. *)
Definition chain (get : Json -> Value) (v : Value) : Value :=
  match v with
  | None | Some JNull => undefined
  | Some j => get j
  end.

(** Nullish coalescing [v ?? d]. *)
Definition coalesce (v : Value) (d : Json) : Json :=
  match v with
  | None | Some JNull => d
  | Some j => j
  end.

(** null or undefined *)
Definition nullish (v : Value) : bool :=
  match v with
  | None | Some JNull => true
  | Some _ => false
  end.

Definition is_array (v : Value) : bool :=
  match v with
  | Some (JArr _) => true
  | _ => false
  end.

Definition is_text (v : Value) : bool :=
  match v with
  | Some (JStr _) => true
  | _ => false
  end.

(** ToBoolean *)
Definition truthy (v : Value) : bool :=
  match v with
  | None | Some JNull => false
  | Some (JBool b) => b
  | Some (JNum q) => negb (Qnum q =? 0)%Z
  | Some (JStr s) => nonempty s
  | Some (JArr _) | Some (JObj _) => true
  end.

(** [v === "lit"] *)
Definition is_string (lit : string) (v : Value) : bool :=
  match v with
  | Some (JStr s) => String.eqb s lit
  | _ => false
  end.

(** What can be thrown inside a handler, and [String(error)]. *)
Inductive Exn : Type :=
| Error (message : string)          (* new Error(message) *)
| TypeError (message : string)      (* raised by the engine or by fetch *)
| SyntaxError (message : string).   (* raised by a JSON parse *)

Definition String_ (e : Exn) : string :=
  match e with
  | Error m => "Error: " +:+ m
  | TypeError m => "TypeError: " +:+ m
  | SyntaxError m => "SyntaxError: " +:+ m
  end.

(** The result of parsing a body as JSON. *)
Inductive Parsed : Type :=
| Malformed (message : string)
| Document (j : Json).

End Js.

Import Js.

(** ** The runtime: clock, network, timers, console, cache *)

Module Runtime.

(** A request URL: a literal, or a template literal ending in an
    interpolated value. *)
Inductive Url : Type :=
| Literal (u : string)
| Template (prefix : string) (v : Value).

Record Request : Type := mkRequest {
  url : Url;
  method : string;
  headers : list (string * string);
  body : option Json          (* the value handed to JSON.stringify *)
}.

(** A fetch Response, with its body already read both ways: reading the
    body takes no time beyond that of the fetch. *)
Record Response : Type := mkResponse {
  status : Z;
  res_text : string;          (* await res.text() *)
  res_json : Parsed           (* await res.json() *)
}.

(** Response.ok *)
Definition ok (r : Response) : bool := ((200 <=? status r) && (status r <=? 299))%Z.

(** A fetch settles after [took] milliseconds: it rejects (a network
    failure) or resolves with a response. *)
Inductive Outcome : Type :=
| Rejected (took : N) (message : string)
| Resolved (took : N) (r : Response).

Inductive Level : Type := Log | Warn | Err.

Inductive Event : Type :=
| EFetch (r : Request)
| ESleep (ms : Z)
| EConsole (l : Level) (args : list Value).

Record CacheEntry : Type := mkEntry {
  response : Json;
  timestamp : Z
}.

(** What a handler can observe and change.  The clock moves only while a
    handler awaits; it never runs backwards, durations being naturals. *)
Record World : Type := mkWorld {
  now : Z;                                   (* Date.now() *)
  responseCache : gmap string CacheEntry;    (* module-level Map *)
  trace : list Event                         (* effects so far, oldest first *)
}.

(** What a handler is given: process.env, the upstream services (the n-th
    fetch of the process gets [upstream n]), and how late the n-th timer
    fires. *)
Record Env : Type := mkEnv {
  GOOGLE_GENERATIVE_API_KEY : option string;
  DID_API_KEY : option string;
  NEXT_PUBLIC_DID_API_KEY : option string;
  DID_BASIC_AUTH : option string;
  upstream : nat -> Request -> Outcome;
  lateness : nat -> N
}.

(** The requests sent, and the delays awaited, along a trace. *)
Definition requests (t : list Event) : list Request :=
  flat_map (fun e => match e with EFetch r => [r] | _ => [] end) t.

Definition naps (t : list Event) : list Z :=
  flat_map (fun e => match e with ESleep ms => [ms] | _ => [] end) t.

(** An HTTP handler's answer: NextResponse.json(payload, { status }). *)
Record HttpResponse : Type := mkHttp {
  code : Z;
  payload : list (string * Value)
}.

(** Computations of a handler: state passing with exceptions. *)
Inductive Res (A : Type) : Type :=
| Val (a : A)
| Exc (e : Exn).
Arguments Val {A} a.
Arguments Exc {A} e.

Definition M (A : Type) : Type := World -> Res A * World.

Definition ret {A} (a : A) : M A := fun w => (Val a, w).
Definition throw {A} (e : Exn) : M A := fun w => (Exc e, w).
Definition bind {A B} (m : M A) (k : A -> M B) : M B :=
  fun w => match m w with
           | (Val a, w') => k a w'
           | (Exc e, w') => (Exc e, w')
           end.

(** try { m } catch (error) { return h(error) } *)
Definition try_catch {A} (m : M A) (h : Exn -> A) : World -> A * World :=
  fun w => match m w with
           | (Val a, w') => (a, w')
           | (Exc e, w') => (h e, w')
           end.

Definition emit (e : Event) : M unit :=
  fun w => (Val tt, mkWorld (now w) (responseCache w) (trace w ++ [e])).

Definition Date_now : M Z := fun w => (Val (now w), w).

Definition console (l : Level) (args : list Value) : M unit :=
  emit (EConsole l args).

(** await fetch(url, init) *)
Definition fetch (env : Env) (r : Request) : M Response :=
  fun w =>
    let n := length (requests (trace w)) in
    let w1 := mkWorld (now w) (responseCache w) (trace w ++ [EFetch r]) in
    match upstream env n r with
    | Rejected took m =>
        (Exc (TypeError m), mkWorld (now w + Z.of_N took) (responseCache w) (trace w1))
    | Resolved took res =>
        (Val res, mkWorld (now w + Z.of_N took) (responseCache w) (trace w1))
    end.

(** Awaiting a body parsed as JSON: request.json(), res.json(). *)
Definition parsed (p : Parsed) : M Json :=
  match p with
  | Document j => ret j
  | Malformed m => throw (SyntaxError m)
  end.

(** What [await res.json()] gives for a response. *)
Definition body_of (res : Response) : Res Json :=
  match res_json res with
  | Document j => Val j
  | Malformed m => Exc (SyntaxError m)
  end.

(** await new Promise((r) => setTimeout(r, ms)) *)
Definition sleep (env : Env) (ms : Z) : M unit :=
  fun w =>
    let n := length (naps (trace w)) in
    (Val tt, mkWorld (now w + ms + Z.of_N (lateness env n)) (responseCache w)
                     (trace w ++ [ESleep ms])).

(** Time passing between two invocations. *)
Definition later (d : N) (w : World) : World :=
  mkWorld (now w + Z.of_N d) (responseCache w) (trace w).

(** The world with one cache entry taken out. *)
Definition forget (k : string) (w : World) : World :=
  mkWorld (now w) (delete k (responseCache w)) (trace w).

Definition cache_get (k : string) : M (option CacheEntry) :=
  fun w => (Val (responseCache w !! k), w).

Definition cache_set (k : string) (e : CacheEntry) : M unit :=
  fun w => (Val tt, mkWorld (now w) (<[k := e]> (responseCache w)) (trace w)).

(** [v?.trim()] on a value read from a JSON body: undefined on null and
    undefined, the trimmed string on a string, a TypeError on anything
    else (it has no callable trim). *)
Definition chain_trim (what : string) (v : Value) : M (option string) :=
  match v with
  | None | Some JNull => ret None
  | Some (JStr s) => ret (Some (trim s))
  | Some _ => throw (TypeError (what +:+ "?.trim is not a function"))
  end.

(** [j.name], which throws on null. *)
Definition prop (name : string) (j : Json) : M Value :=
  match j with
  | JNull => throw (TypeError ("Cannot read properties of null (reading '" +:+ name +:+ "')"))
  | _ => ret (member name j)
  end.

(** [const { name } = j], which throws on null. *)
Definition destructure (name : string) (j : Json) : M Value :=
  match j with
  | JNull => throw (TypeError ("Cannot destructure property '" +:+ name
                               +:+ "' of '(intermediate value)' as it is null."))
  | _ => ret (member name j)
  end.

(** Truthiness of a [string | undefined]. *)
Definition present (o : option string) : bool :=
  match o with Some s => nonempty s | None => false end.

(** A [string | undefined] read as a string, where the code has excluded
    undefined. *)
Definition narrowed (o : option string) : string :=
  match o with Some s => s | None => "" end.

(** [a || b] on [string | undefined | null]. *)
Definition or_else (a b : option string) : option string :=
  if present a then a else b.

End Runtime.

Import Runtime.

Declare Scope js_scope.
Delimit Scope js_scope with js.
Notation "'let!' x ':=' c 'in' k" := (bind c (fun x => k))
  (at level 10, x name, c at level 100, k at level 200) : js_scope.
Notation "'run' c 'in' k" := (bind c (fun _ => k))
  (at level 10, c at level 100, k at level 200) : js_scope.
Local Open Scope js_scope.

(** ** src/app/api/gemini/route.ts *)

Module Gemini.

Definition CACHE_DURATION : Z := 5 * 60 * 1000.

Definition buildTutorPrompt (userInput : string) : string :=
  "You are a helpful AI assistant. Respond in a friendly, clear, and concise way. Keep responses natural and conversational. Do not include any promotional text, download instructions, or phone-related content. Just answer the user's question directly. User said: '"
  +:+ userInput +:+ "'".

Definition model : string := "gemini-2.0-flash-001".

Definition endpoint (apiKey : string) : string :=
  "https://generativelanguage.googleapis.com/v1beta/models/" +:+ model
  +:+ ":generateContent?key=" +:+ apiKey.

Definition generateRequest (apiKey promptPayload : string) : Request :=
  mkRequest (Literal (endpoint apiKey)) "POST"
    [("Content-Type", "application/json")]
    (Some (JObj
      [("contents",
        JArr [JObj [("role", JStr "user");
                    ("parts", JArr [JObj [("text", JStr promptPayload)]])]]);
       ("generationConfig",
        JObj [("temperature", JNum (7 # 10));
              ("topK", JNum (40 # 1));
              ("topP", JNum (95 # 100));
              ("maxOutputTokens", JNum (1024 # 1))])])).

(** data?.candidates?.[0]?.content?.parts?.[0]?.text ?? "" *)
Definition candidateText (data : Json) : Json :=
  coalesce
    (chain (member "text")
      (chain first
        (chain (member "parts")
          (chain (member "content")
            (chain first
              (chain (member "candidates") (Some data)))))))
    (JStr "").

(** The accesses of [candidateText] one after the other, and the value
    reached after some of them. *)
Definition path : list (Json -> Value) :=
  [member "candidates"; first; member "content"; member "parts"; first; member "text"].

Definition descend (steps : list (Json -> Value)) (v : Value) : Value :=
  fold_left (fun v get => chain get v) steps v.

(** The API key once the handler has checked that it is there. *)
Definition configuredKey (env : Env) : string :=
  narrowed (GOOGLE_GENERATIVE_API_KEY env).

(** NextResponse.json({ reply }) *)
Definition replying (reply : Json) : HttpResponse :=
  mkHttp 200 [("reply", Some reply)].

(** POST is embedded in two consecutive parts of its try block. *)

(** Lines 38-96: the upstream call on a cache miss. *)
Definition POST_generate (env : Env) (apiKey userText cacheKey : string) : M HttpResponse :=
  let promptPayload := buildTutorPrompt userText in
  let! upstream := fetch env (generateRequest apiKey promptPayload) in
  if negb (ok upstream) then
    let errText := res_text upstream in
    run console Err [str "Gemini API error:";
                     Some (JNum (status upstream # 1)); str errText] in
    ret (mkHttp 502 [("error", str "Gemini API error");
                     ("detail", str errText);
                     ("status", Some (JNum (status upstream # 1)))])
  else
    let! data := parsed (res_json upstream) in
    let candidateText := candidateText data in
    let! t := Date_now in
    run cache_set cacheKey (mkEntry candidateText t) in
    ret (replying candidateText).

(** Lines 17-36, then [POST_generate]; [request_json] is what
    [await request.json()] yields. *)
Definition POST_try (env : Env) (request_json : Parsed) : M HttpResponse :=
  let apiKey := GOOGLE_GENERATIVE_API_KEY env in
  if negb (present apiKey) then
    ret (mkHttp 500 [("error", str "Missing GOOGLE_GENERATIVE_API_KEY")])
  else
    let! body := parsed request_json in
    let! userText := chain_trim "body?.text" (chain (member "text") (Some body)) in
    if negb (present userText) then
      ret (mkHttp 400 [("error", str "Missing 'text'")])
    else
      let userText := narrowed userText in
      let cacheKey := toLowerCase userText in
      let! cached := cache_get cacheKey in
      let! t := Date_now in
      match cached with
      | Some c =>
          if (t - timestamp c <? CACHE_DURATION)%Z
          then ret (replying (response c))
          else POST_generate env (narrowed apiKey) userText cacheKey
      | None => POST_generate env (narrowed apiKey) userText cacheKey
      end.

(** The catch block of POST. *)
Definition failed (error : Exn) : HttpResponse :=
  mkHttp 500 [("error", str "Request failed"); ("detail", str (String_ error))].

Definition POST (env : Env) (request_json : Parsed) : World -> HttpResponse * World :=
  try_catch (POST_try env request_json) failed.

(** *** Words for the statements about the route *)

(** An invariant of the cache under one environment: an entry is there
    only if the API key is configured, and no key is the empty string. *)
Definition cache_inv (env : Env) (w : World) : Prop :=
  forall k c, responseCache w !! k = Some c ->
    present (GOOGLE_GENERATIVE_API_KEY env) = true /\ nonempty k = true.

(** Two worlds that differ in the cache at most. *)
Definition same_but_cache (w w' : World) : Prop :=
  now w = now w' /\ trace w = trace w'.

(** The upstream request for a text. *)
Definition asked (env : Env) (s : string) : Request :=
  generateRequest (configuredKey env) (buildTutorPrompt (trim s)).

End Gemini.

(** ** src/app/api/did/talk/route.ts *)

Module DidTalk.

Definition DEFAULT_SOURCE_URL : string :=
  "https://create-images-results.d-id.com/DefaultImages/actor.jpg".
Definition DEFAULT_VOICE_ID : string := "en-US-JennyNeural".

Definition AuthHeaders : Type := list (string * string).

(** The [opts]/[auth] object: each member a string, null or undefined
    ([None] stands for both). *)
Record Auth : Type := mkAuth {
  studioApiKey : option string;
  basicAuth : option string
}.

(** [o && o.trim()] as a condition *)
Definition nonblank (o : option string) : bool :=
  match o with
  | Some s => nonempty s && nonempty (trim s)
  | None => false
  end.

Definition buildAuthHeaders (opts : Auth) : AuthHeaders :=
  let headers := [("Content-Type", "application/json")] in
  if nonblank (basicAuth opts) then
    let v := trim (narrowed (basicAuth opts)) in
    (headers ++ [("Authorization", if startsWith v "Basic " then v else "Basic " +:+ v)])%list
  else if nonblank (studioApiKey opts) then
    (headers ++ [("x-api-key", trim (narrowed (studioApiKey opts)))])%list
  else headers.

Definition primaryBody (text sourceUrl : string) : Json :=
  JObj [("script", JObj [("type", JStr "text"); ("input", JStr text)]);
        ("source_url", JStr sourceUrl)].

Definition secondaryBody (text sourceUrl voiceId : string) : Json :=
  JObj [("script", JObj [("type", JStr "text"); ("input", JStr text);
                         ("provider", JObj [("type", JStr "microsoft");
                                            ("voice_id", JStr voiceId)])]);
        ("source_url", JStr sourceUrl)].

Definition reqV1 (baseHeaders : AuthHeaders) (body : Json) : Request :=
  mkRequest (Literal "https://api.d-id.com/v1/talks") "POST" baseHeaders (Some body).

Definition reqLegacy (baseHeaders : AuthHeaders) (body : Json) : Request :=
  mkRequest (Literal "https://api.d-id.com/talks") "POST" baseHeaders (Some body).

Definition createTalk (env : Env) (auth : Auth) (text sourceUrl voiceId : string) : M Json :=
  let baseHeaders := buildAuthHeaders auth in
  let primaryBody := primaryBody text sourceUrl in
  let secondaryBody := secondaryBody text sourceUrl voiceId in
  let makeReqV1 body := fetch env (reqV1 baseHeaders body) in
  let makeReqLegacy body := fetch env (reqLegacy baseHeaders body) in
  let! res := makeReqV1 primaryBody in
  let! res :=
    if negb (ok res) then
      let firstErr := res_text res in
      run console Warn [str "D-ID v1 primary payload failed:"; str firstErr] in
      let! res := makeReqV1 secondaryBody in
      if negb (ok res) then
        let secondErr := res_text res in
        run console Warn [str "D-ID v1 secondary payload failed:"; str secondErr] in
        let! res := makeReqLegacy primaryBody in
        if negb (ok res) then
          let legacyErr1 := res_text res in
          run console Warn [str "D-ID legacy primary failed:"; str legacyErr1] in
          let! res := makeReqLegacy secondaryBody in
          if negb (ok res) then
            let legacyErr2 := res_text res in
            throw (Error ("D-ID create error: " +:+ legacyErr2))
          else ret res
        else ret res
      else ret res
    else ret res in
  if negb (ok res) then
    let detail := res_text res in
    throw (Error ("D-ID create error: " +:+ detail))
  else
    parsed (res_json res).

(** The submission as the spec words it (sections 4.2 and 9): an ordered
    list of attempts tried by one loop with early return.  Each fallback
    comes with the label under which the failure before it is logged; the
    failure of the last attempt is thrown. *)
Fixpoint cascade (env : Env) (tier : Request) (fallbacks : list (string * Request))
    : M Json :=
  let! res := fetch env tier in
  if ok res then parsed (res_json res)
  else
    match fallbacks with
    | [] => throw (Error ("D-ID create error: " +:+ res_text res))
    | (label, next) :: rest =>
        run console Warn [str label; str (res_text res)] in
        cascade env next rest
    end.

(** Tier 1, and tiers 2 to 4 in the order of the spec. *)
Definition tier1 (auth : Auth) (text sourceUrl : string) : Request :=
  reqV1 (buildAuthHeaders auth) (primaryBody text sourceUrl).

Definition fallbacks (auth : Auth) (text sourceUrl voiceId : string)
    : list (string * Request) :=
  let h := buildAuthHeaders auth in
  [("D-ID v1 primary payload failed:", reqV1 h (secondaryBody text sourceUrl voiceId));
   ("D-ID v1 secondary payload failed:", reqLegacy h (primaryBody text sourceUrl));
   ("D-ID legacy primary failed:", reqLegacy h (secondaryBody text sourceUrl voiceId))].

Definition tiers (auth : Auth) (text sourceUrl voiceId : string) : list Request :=
  tier1 auth text sourceUrl :: map snd (fallbacks auth text sourceUrl voiceId).

Definition statusReq (prefix : string) (auth : Auth) (id : Value) : Request :=
  mkRequest (Template prefix id) "GET" (buildAuthHeaders auth) None.

Definition fetchTalkStatus (env : Env) (auth : Auth) (id : Value) : M Json :=
  let! res := fetch env (statusReq "https://api.d-id.com/v1/talks/" auth id) in
  let! res :=
    if negb (ok res) then
      let err := res_text res in
      run console Warn [str "D-ID v1 status failed:"; str err] in
      fetch env (statusReq "https://api.d-id.com/talks/" auth id)
    else ret res in
  if negb (ok res) then
    let detail := res_text res in
    throw (Error ("D-ID status error: " +:+ detail))
  else
    parsed (res_json res).

Definition timeoutMs : Z := 30000.
Definition intervalMs : Z := 1200.

(** The two answers of POST that come from polling. *)
Definition processing_error (detail id : Value) : HttpResponse :=
  mkHttp 502 [("error", str "D-ID processing error"); ("detail", detail); ("id", id)].

Definition timed_out (id lastStatus : Value) : HttpResponse :=
  mkHttp 504 [("error", str "Timeout waiting for video"); ("id", id);
              ("status", lastStatus)].

(** How the while loop of POST is left: it falls through to the code after
    it (by break or by its condition), or the handler returns from inside. *)
Inductive LoopExit : Type :=
| Fell (resultUrl lastStatus : Value)
| Returned (r : HttpResponse).

(** The while loop, [fuel] bounding the number of times its condition is
    evaluated; [None] when the bound is hit. *)
Fixpoint poll (fuel : nat) (env : Env) (auth : Auth) (id : Value)
    (startedAt : Z) (lastStatus : Value) : M (option LoopExit) :=
  match fuel with
  | O => ret None
  | S fuel' =>
      let! t := Date_now in
      if (t - startedAt <? timeoutMs)%Z then
        let! s := fetchTalkStatus env auth id in
        let! s_status := prop "status" s in
        let lastStatus := s_status in
        let s_result_url := member "result_url" s in
        if is_string "done" s_status && truthy s_result_url then
          ret (Some (Fell s_result_url lastStatus))
        else if is_string "error" s_status then
          ret (Some (Returned (processing_error (member "error" s) id)))
        else
          run sleep env intervalMs in
          poll fuel' env auth id startedAt lastStatus
      else
        ret (Some (Fell undefined lastStatus))
  end.

(** Every pass of the loop that does not leave it sleeps [intervalMs], so
    the condition is evaluated at most timeoutMs / intervalMs + 1 times. *)
Definition poll_bound : nat := Z.to_nat (timeoutMs / intervalMs) + 1.

(** POST is embedded in three consecutive parts of its try block. *)

(** Lines 132-153: credentials, body, text and defaults.  Either the
    handler answers at once, or the inputs of the submission are known. *)
Definition POST_inputs (env : Env) (request_json : Parsed)
    : M (HttpResponse + Auth * string * string * string) :=
  let studioApiKey := or_else (or_else (DID_API_KEY env) (NEXT_PUBLIC_DID_API_KEY env)) None in
  let basicAuth := or_else (DID_BASIC_AUTH env) None in
  run console Log [str "DID auth present:";
                   Some (JBool (present studioApiKey || present basicAuth))] in
  if negb (present studioApiKey) && negb (present basicAuth) then
    run console Err [str "Missing DID credentials: set DID_API_KEY (Studio) or DID_BASIC_AUTH (Basic)"] in
    ret (inl (mkHttp 500 [("error", str "Missing D-ID credentials");
                          ("detail", str "Set DID_API_KEY or DID_BASIC_AUTH")]))
  else
    let! body := parsed request_json in
    let! text := chain_trim "body?.text" (chain (member "text") (Some body)) in
    if negb (present text) then
      ret (inl (mkHttp 400 [("error", str "Missing 'text'")]))
    else
      let text := narrowed text in
      let! source_url := chain_trim "body?.source_url" (chain (member "source_url") (Some body)) in
      let sourceUrl := narrowed (or_else source_url (Some DEFAULT_SOURCE_URL)) in
      let! voice_id := chain_trim "body?.voice_id" (chain (member "voice_id") (Some body)) in
      let voiceId := narrowed (or_else voice_id (Some DEFAULT_VOICE_ID)) in
      ret (inr (mkAuth studioApiKey basicAuth, text, sourceUrl, voiceId)).

(** Lines 155-157: the submission, giving the job id. *)
Definition POST_create (env : Env) (auth : Auth) (text sourceUrl voiceId : string)
    : M Value :=
  run console Log [str "Creating D-ID talk with text:";
                   str (substring0 50 text +:+ "...")] in
  let! created := createTalk env auth text sourceUrl voiceId in
  let! id := destructure "id" created in
  run console Log [str "D-ID talk created with ID:"; id] in
  ret id.

(** Lines 159-188: the poll loop and the answer after it. *)
Definition POST_poll (env : Env) (auth : Auth) (id : Value) : M (option HttpResponse) :=
  let! startedAt := Date_now in
  let! exit := poll poll_bound env auth id startedAt (str "") in
  match exit with
  | None => ret None
  | Some (Returned r) => ret (Some r)
  | Some (Fell resultUrl lastStatus) =>
      if negb (truthy resultUrl) then
        ret (Some (timed_out id lastStatus))
      else
        ret (Some (mkHttp 200 [("id", id); ("videoUrl", resultUrl)]))
  end.

Definition POST_try (env : Env) (request_json : Parsed) : M (option HttpResponse) :=
  let! inputs := POST_inputs env request_json in
  match inputs with
  | inl answer => ret (Some answer)
  | inr (auth, text, sourceUrl, voiceId) =>
      let! id := POST_create env auth text sourceUrl voiceId in
      POST_poll env auth id
  end.

(** The catch block of POST. *)
Definition failed (error : Exn) : option HttpResponse :=
  Some (mkHttp 500 [("error", str "Request failed"); ("detail", str (String_ error))]).

(** The answer is [None] only if the loop bound were hit. *)
Definition POST (env : Env) (request_json : Parsed) : World -> option HttpResponse * World :=
  try_catch (POST_try env request_json) failed.

(** *** Words for the statements about the route *)

(** The poll request of the loop, on the primary path. *)
Definition pollReq (auth : Auth) (id : Value) : Request :=
  statusReq "https://api.d-id.com/v1/talks/" auth id.

(** A status document on which the loop goes on: not done with a result
    URL, not error (pending, or any status the loop does not know). *)
Definition keeps_polling (s : Json) : bool :=
  match s with
  | JNull => false
  | _ =>
      negb (is_string "done" (member "status" s) && truthy (member "result_url" s))
      && negb (is_string "error" (member "status" s))
  end.

(** What a status check makes of the upstream answer it ends on. *)
Definition verdict (o : Outcome) : Res Json :=
  match o with
  | Rejected _ m => Exc (TypeError m)
  | Resolved _ r =>
      if ok r then body_of r else Exc (Error ("D-ID status error: " +:+ res_text r))
  end.

(** A poll event: a GET request. *)
Definition is_poll (e : Event) : bool :=
  match e with
  | EFetch r => String.eqb (method r) "GET"
  | _ => false
  end.

(** What the status check that starts as the n-th fetch of the process
    comes to: the answer on the primary path or, after a failed one, the
    answer on the legacy path. *)
Definition status_check (env : Env) (auth : Auth) (id : Value) (n : nat) : Res Json :=
  match upstream env n (pollReq auth id) with
  | Rejected _ m => Exc (TypeError m)
  | Resolved _ r =>
      if ok r then body_of r
      else verdict (upstream env (S n) (statusReq "https://api.d-id.com/talks/" auth id))
  end.

(** The number of requests of the status check that starts as the n-th
    fetch: one, or two when the primary path answers with a failure
    status and the legacy path is asked. *)
Definition check_size (env : Env) (auth : Auth) (id : Value) (n : nat) : nat :=
  match upstream env n (pollReq auth id) with
  | Rejected _ _ => 1
  | Resolved _ r => if ok r then 1 else 2
  end.

(** The fetch as which the k-th status check starts (k = 0 for the first)
    in a loop whose first check starts as the n-th fetch. *)
Fixpoint check_start (env : Env) (auth : Auth) (id : Value) (n k : nat) : nat :=
  match k with
  | O => n
  | S k' => check_start env auth id (n + check_size env auth id n) k'
  end.

(** What the k-th status check of such a loop comes to. *)
Definition nth_check (env : Env) (auth : Auth) (id : Value) (n k : nat) : Res Json :=
  status_check env auth id (check_start env auth id n k).

(** A status check on which the loop goes on, and the status it shows. *)
Definition goes_on (r : Res Json) : bool :=
  match r with
  | Val s => keeps_polling s
  | Exc _ => false
  end.

Definition shown (r : Res Json) : Value :=
  match r with
  | Val s => member "status" s
  | Exc _ => undefined
  end.

(** How the loop is left on a status check that does not let it go on. *)
Definition leaves (id : Value) (r : Res Json) : Res (option LoopExit) :=
  match r with
  | Exc e => Exc e
  | Val JNull => Exc (TypeError "Cannot read properties of null (reading 'status')")
  | Val s =>
      if is_string "done" (member "status" s) && truthy (member "result_url" s)
      then Val (Some (Fell (member "result_url" s) (member "status" s)))
      else Val (Some (Returned (processing_error (member "error" s) id)))
  end.

(** The answer of POST for each way its polling part can end. *)
Definition answer_of (id : Value) (r : Res (option LoopExit)) : option HttpResponse :=
  match r with
  | Exc e => failed e
  | Val None => None
  | Val (Some (Returned a)) => Some a
  | Val (Some (Fell resultUrl lastStatus)) =>
      Some (if negb (truthy resultUrl) then timed_out id lastStatus
            else mkHttp 200 [("id", id); ("videoUrl", resultUrl)])
  end.

(** The world after the delay that follows a status check. *)
Definition slept (env : Env) (w : World) : World :=
  mkWorld (now w + intervalMs + Z.of_N (lateness env (length (naps (trace w)))))
          (responseCache w) (trace w ++ [ESleep intervalMs]).

(** An optional field of the request body that counts as not given:
    absent, null, or a string that is empty once trimmed. *)
Definition not_given (v : Value) : bool :=
  match v with
  | None | Some JNull => true
  | Some (JStr u) => negb (nonempty (trim u))
  | Some _ => false
  end.

(** The API key the route goes by: DID_API_KEY unless it is unset or empty. *)
Definition chosen_key (env : Env) : option string :=
  if present (DID_API_KEY env) then DID_API_KEY env else NEXT_PUBLIC_DID_API_KEY env.

End DidTalk.

(** ** The states of the process *)

Module Process.

(** The worlds one process can be in under a given environment: it starts
    with an empty cache, and then the two routes are called and time
    passes, in any order. *)
Inductive reached (env : Env) : World -> Prop :=
| reached_start t events : reached env (mkWorld t ∅ events)
| reached_text request_json w :
    reached env w -> reached env (snd (Gemini.POST env request_json w))
| reached_video request_json w :
    reached env w -> reached env (snd (DidTalk.POST env request_json w))
| reached_later d w : reached env w -> reached env (later d w).

(** [evolves env w w']: the process gets from [w] to [w'] by calls of the
    two routes and by time passing. *)
Inductive evolves (env : Env) (w : World) : World -> Prop :=
| evolves_refl : evolves env w w
| evolves_text request_json w' :
    evolves env w w' -> evolves env w (snd (Gemini.POST env request_json w'))
| evolves_video request_json w' :
    evolves env w w' -> evolves env w (snd (DidTalk.POST env request_json w'))
| evolves_later d w' : evolves env w w' -> evolves env w (later d w').

End Process.

(** ** The chat page: the client component Home (src/app/api/did/talk/route.ts, from line 198) *)

Module Home.

(** String.prototype.includes *)
Fixpoint includes (s sub : string) : bool :=
  startsWith s sub ||
  match s with
  | String _ s' => includes s' sub
  | EmptyString => false
  end.

(** Number.prototype.toString of an integer (a time value). *)
Definition toString (n : Z) : string := NilZero.string_of_int (Z.to_int n).

(** The message of [new Error(v)]: the string itself when [v] is one, and
    String(v), left unevaluated, when it is not. *)
Inductive Text : Type :=
| Plain (s : string)
| Stringified (j : Json).

Definition message_of (j : Json) : Text :=
  match j with
  | JStr s => Plain s
  | _ => Stringified j
  end.

(** The message of [new Error(v || d)]. *)
Definition or_message (v : Value) (d : string) : Text :=
  match v with
  | Some j => if truthy v then message_of j else Plain d
  | None => Plain d
  end.

(** A SpeechSynthesisVoice, by the members the page reads. *)
Record SpeechSynthesisVoice : Type := mkVoice {
  name : string;
  lang : string
}.

Inductive Sender : Type := user | ai.

(** A chat message; [text] is a string for the user's messages and
    whatever [data.reply] is for the others; [timestamp] is the time value
    of [new Date()]. *)
Record Message : Type := mkMessage {
  id : string;
  type : Sender;
  text : Value;
  timestamp : Z
}.

(** The state of the component that the handlers below read or set. *)
Record State : Type := mkState {
  inputText : string;
  loading : bool;
  error : Text;
  isListening : bool;
  messages : list Message;
  selectedVoice : string;
  availableVoices : list SpeechSynthesisVoice;
  typingIndicator : bool;
  messageCount : Z
}.

Definition setInputText (v : string) (st : State) : State :=
  mkState v (loading st) (error st) (isListening st) (messages st) (selectedVoice st)
          (availableVoices st) (typingIndicator st) (messageCount st).
Definition setLoading (v : bool) (st : State) : State :=
  mkState (inputText st) v (error st) (isListening st) (messages st) (selectedVoice st)
          (availableVoices st) (typingIndicator st) (messageCount st).
Definition setError (v : Text) (st : State) : State :=
  mkState (inputText st) (loading st) v (isListening st) (messages st) (selectedVoice st)
          (availableVoices st) (typingIndicator st) (messageCount st).
Definition setIsListening (v : bool) (st : State) : State :=
  mkState (inputText st) (loading st) (error st) v (messages st) (selectedVoice st)
          (availableVoices st) (typingIndicator st) (messageCount st).
Definition setMessages (f : list Message -> list Message) (st : State) : State :=
  mkState (inputText st) (loading st) (error st) (isListening st) (f (messages st))
          (selectedVoice st) (availableVoices st) (typingIndicator st) (messageCount st).
Definition setSelectedVoice (v : string) (st : State) : State :=
  mkState (inputText st) (loading st) (error st) (isListening st) (messages st) v
          (availableVoices st) (typingIndicator st) (messageCount st).
Definition setAvailableVoices (v : list SpeechSynthesisVoice) (st : State) : State :=
  mkState (inputText st) (loading st) (error st) (isListening st) (messages st)
          (selectedVoice st) v (typingIndicator st) (messageCount st).
Definition setTypingIndicator (v : bool) (st : State) : State :=
  mkState (inputText st) (loading st) (error st) (isListening st) (messages st)
          (selectedVoice st) (availableVoices st) v (messageCount st).
Definition setMessageCount (f : Z -> Z) (st : State) : State :=
  mkState (inputText st) (loading st) (error st) (isListening st) (messages st)
          (selectedVoice st) (availableVoices st) (typingIndicator st) (f (messageCount st)).

(** *** loadVoices (lines 305-319) *)

(** The test of [voices.find]. *)
Definition femaleVoice_test (voice : SpeechSynthesisVoice) : bool :=
  includes (name voice) "Female"
  || includes (name voice) "Samantha"
  || includes (name voice) "Karen"
  || includes (name voice) "Zira"
  || includes (name voice) "Google".

(** [voices] is what speechSynthesis.getVoices() returns. *)
Definition loadVoices (voices : list SpeechSynthesisVoice) (st : State) : State :=
  let selected := selectedVoice st in
  let st := setAvailableVoices voices st in
  match voices with
  | first :: _ =>
      if negb (nonempty selected) then
        let femaleVoice := List.find femaleVoice_test voices in
        setSelectedVoice (match femaleVoice with
                          | Some voice => name voice
                          | None => name first
                          end) st
      else st
  | [] => st
  end.

(** *** The handlers of startListening (lines 454-492) *)

(** A SpeechRecognitionResult, by what the handlers read: the transcript of
    its first alternative (there is one, maxAlternatives being 1) and
    isFinal. *)
Record SpeechRecognitionResult : Type := mkResult {
  transcript : string;
  isFinal : bool
}.

Record SpeechRecognitionEvent : Type := mkEvent {
  resultIndex : nat;
  results : list SpeechRecognitionResult
}.

(** rec.onresult (lines 465-473); [finalTranscript] is the variable of the
    closure, which the handler updates. *)
Definition onresult (event : SpeechRecognitionEvent) (finalTranscript : string) (st : State)
    : string * State :=
  let '(finalTranscript, interim) :=
    fold_left
      (fun '(finalTranscript, interim) result =>
         if isFinal result then (finalTranscript +:+ transcript result, interim)
         else (finalTranscript, interim +:+ transcript result))
      (drop (resultIndex event) (results event))
      (finalTranscript, "") in
  (finalTranscript,
   setInputText (if nonempty finalTranscript then finalTranscript else interim) st).

(** rec.onerror (lines 475-478); [e_error] is [e?.error]. *)
Definition onerror (e_error : option string) (st : State) : State :=
  let st := setIsListening false st in
  setError (Plain ("Speech Recognition error: "
                   +:+ narrowed (or_else e_error (Some "unknown")))) st.

(** rec.onend (lines 480-487). *)
Definition onend (finalTranscript : string) (st : State) : State :=
  let st := setIsListening false st in
  if nonempty (trim (narrowed (or_else (Some finalTranscript) (Some "")))) then
    setInputText finalTranscript st
  else st.

(** *** processUserInput (lines 365-452) and handleSubmit (lines 280-286) *)

(** A callback handed to setTimeout, by its delay and the reply it is to
    speak; what the callback does when it runs is not part of this
    embedding. *)
Record Timer : Type := mkTimer {
  delay : Z;
  reply : Value
}.

(** What a handler has done when it ends: the state after its updates, the
    requests it sent, the callbacks it scheduled. *)
Record Effects : Type := mkEffects {
  page : State;
  sent : list Request;
  timers : list Timer
}.

(** The request of processUserInput. *)
Definition askRequest (text : string) : Request :=
  mkRequest (Literal "/api/gemini") "POST"
            [("Content-Type", "application/json")]
            (Some (JObj [("text", JStr (trim text))])).

(** The try block from the moment the fetch settles (lines 389-393): the
    message of what is thrown, or [data.reply]. *)
Definition settle (settled : Outcome) : Text + Value :=
  match settled with
  | Rejected _ m => inl (Plain m)
  | Resolved _ res =>
      match res_json res with
      | Malformed m => inl (Plain m)
      | Document data =>
          if negb (ok res) then
            match data with
            | JNull => inl (Plain "Cannot read properties of null (reading 'error')")
            | _ => inl (or_message (member "error" data) "Request failed")
            end
          else
            match data with
            | JNull => inl (Plain "Cannot read properties of null (reading 'reply')")
            | _ => inr (member "reply" data)
            end
      end
  end.

(** How long the fetch took. *)
Definition elapsed (settled : Outcome) : Z :=
  match settled with
  | Rejected took _ | Resolved took _ => Z.of_N took
  end.

(** processUserInput, called at time [t0] with [server] telling how a
    request is answered; the state is the one the component has when the
    call ends, no other event being handled meanwhile.  The clock moves
    only while the handler awaits. *)
Definition processUserInput (text : string) (autoSpeak : bool)
    (t0 : Z) (server : Request -> Outcome) (st : State) : Effects :=
  let st := setInputText "" st in
  let userMessage := mkMessage (toString t0) user (str (trim text)) t0 in
  let st := setMessages (fun prev => (prev ++ [userMessage])%list) st in
  let st := setMessageCount (fun prev => prev + 1) st in
  let st := setLoading true st in
  let st := setTypingIndicator true st in
  let st := setError (Plain "") st in
  let settled := server (askRequest text) in
  let t1 := t0 + elapsed settled in
  let '(st, scheduled) :=
    match settle settled with
    | inr data_reply =>
        let aiMessage := mkMessage (toString (t1 + 1)) ai data_reply t1 in
        let st := setMessages (fun prev => (prev ++ [aiMessage])%list) st in
        (st, if autoSpeak then [mkTimer 200 data_reply] else [])
    | inl message => (setError message st, [])
    end in
  let st := setLoading false st in
  let st := setTypingIndicator false st in
  mkEffects st [askRequest text] scheduled.

Definition handleSubmit (t0 : Z) (server : Request -> Outcome) (st : State) : Effects :=
  if negb (nonempty (trim (inputText st))) then mkEffects st [] []
  else processUserInput (inputText st) false t0 server st.

(** *** The handlers of startInteractiveListening (lines 549-580) *)

(** rec.onresult (lines 549-554): interim results are passed over. *)
Definition onresult_interactive (event : SpeechRecognitionEvent) (finalTranscript : string)
    : string :=
  fold_left
    (fun finalTranscript result =>
       if isFinal result then finalTranscript +:+ transcript result else finalTranscript)
    (drop (resultIndex event) (results event))
    finalTranscript.

(** rec.onend (lines 573-581), at time [t0]. *)
Definition onend_interactive (finalTranscript : string)
    (t0 : Z) (server : Request -> Outcome) (st : State) : Effects :=
  let st := setIsListening false st in
  if nonempty (trim (narrowed (or_else (Some finalTranscript) (Some "")))) then
    processUserInput finalTranscript true t0 server st
  else mkEffects st [] [].

(** *** Words for the statements about the page *)

(** A listening session as the recognizer runs it: result events, then the
    end event. *)
Definition session (events : list SpeechRecognitionEvent) (st : State) : State :=
  let '(finalTranscript, st) :=
    fold_left (fun '(finalTranscript, st) event => onresult event finalTranscript st)
              events ("", st) in
  onend finalTranscript st.

(** A session of the interactive mode: result events, then the end event at
    time [t0]. *)
Definition interactive_session (events : list SpeechRecognitionEvent)
    (t0 : Z) (server : Request -> Outcome) (st : State) : Effects :=
  onend_interactive
    (fold_left (fun finalTranscript event => onresult_interactive event finalTranscript)
               events "")
    t0 server st.

(** The transcripts of the final results that an event delivers. *)
Definition finals (event : SpeechRecognitionEvent) : list string :=
  map transcript (filter (fun r => isFinal r) (drop (resultIndex event) (results event))).

(** The transcripts of the other results that it delivers. *)
Definition interims (event : SpeechRecognitionEvent) : list string :=
  map transcript (filter (fun r => negb (isFinal r)) (drop (resultIndex event) (results event))).

(** Strings put end to end. *)
Definition joined (l : list string) : string := fold_right String.append "" l.

(** The response a client gets for an answer of a route: the status, and as
    JSON the members of the payload that are not undefined.  [raw] is the
    body as text. *)
Definition over_http (raw : string) (a : HttpResponse) : Response :=
  mkResponse (code a) raw
    (Document (JObj (omap (fun m => match snd m with
                                    | Some j => Some (fst m, j)
                                    | None => None
                                    end) (payload a)))).

(** The page's server when the text route answers in world [w]: the JSON
    body of a request reaches the route as it was sent. *)
Definition served (env : Env) (w : World) (raw : string) (took : N) (rq : Request) : Outcome :=
  Resolved took
    (over_http raw
       (fst (Gemini.POST env
               match body rq with
               | Some j => Document j
               | None => Malformed "Unexpected end of JSON input"
               end w))).

End Home.

(** ** Concrete environments the statements are run on *)

Module Fixtures.

(** { candidates: [{ content: { parts: [{ text: reply }] } }] } *)
Definition generated (reply : Json) : Json :=
  JObj [("candidates",
         JArr [JObj [("content", JObj [("parts", JArr [JObj [("text", reply)]])])]])].

Definition answering (status : Z) (body : Json) : nat -> Request -> Outcome :=
  fun _ _ => Resolved 10 (mkResponse status "" (Document body)).

(** Both services configured, the upstream always answering "Hi there!". *)
Definition chatty : Env :=
  mkEnv (Some "k") (Some "key") None None
        (answering 200 (generated (JStr "Hi there!"))) (fun _ => 0%N).

(** No credential at all. *)
Definition bare : Env :=
  mkEnv None None None None
        (answering 200 (generated (JStr "Hi there!"))) (fun _ => 0%N).

Definition boot : World := mkWorld 1000 ∅ [].

(** A success whose candidates are an object keyed by index, not an array. *)
Definition keyed : Json :=
  JObj [("candidates",
         JObj [("0", JObj [("content",
                            JObj [("parts", JArr [JObj [("text", JStr "hi")]])])])])].

(** A configured text service whose upstream answers 200 with [body]. *)
Definition sending (body : Json) : Env :=
  mkEnv (Some "k") None None None (answering 200 body) (fun _ => 0%N).

(** A configured text service whose upstream answers 200 with a body that
    is not JSON. *)
Definition garbling : Env :=
  mkEnv (Some "k") None None None
        (fun _ _ => Resolved 10 (mkResponse 200 "<html>" (Malformed "Unexpected token <")))
        (fun _ => 0%N).

(** The request body { text: s }. *)
Definition saying (s : string) : Json := JObj [("text", JStr s)].

(** The process after a first call saying "Hello": a moment later, and when
    the entry written by the call is exactly five minutes old. *)
Definition warm : World :=
  later 90 (snd (Gemini.POST chatty (Document (saying "Hello")) boot)).

Definition stale : World :=
  later 300000 (snd (Gemini.POST chatty (Document (saying "Hello")) boot)).

(** An upstream that answers the n-th fetch with the n-th outcome of a
    script, and with [rest] once the script is over. *)
Definition scripted (script : list Outcome) (rest : Outcome) : nat -> Request -> Outcome :=
  fun n _ => nth n script rest.

Definition refusal (body : string) : Outcome :=
  Resolved 5 (mkResponse 500 body (Malformed "Unexpected token")).

Definition accepted (body : Json) : Outcome :=
  Resolved 5 (mkResponse 200 "" (Document body)).

Definition job (id : string) : Json := JObj [("id", JStr id)].

Definition pending : Json := JObj [("status", JStr "pending")].

(** A video service with an API key, by its upstream. *)
Definition studio (up : nat -> Request -> Outcome) : Env :=
  mkEnv None (Some "key") None None up (fun _ => 0%N).

(** Tiers 1 to 3 refuse, tier 4 accepts, the first poll is done. *)
Definition flaky : Env :=
  studio (scripted [refusal "e1"; refusal "e2"; refusal "e3"; accepted (job "job4")]
                   (accepted (JObj [("status", JStr "done");
                                    ("result_url", JStr "https://x/y.mp4")]))).

(** All four tiers refuse. *)
Definition refusing : Env :=
  studio (scripted [refusal "e1"; refusal "e2"; refusal "e3"; refusal "e4"]
                   (Rejected 0 "fetch failed")).

(** The job is accepted, pending once, then in error. *)
Definition erring : Env :=
  studio (scripted [accepted (job "job123"); accepted pending;
                    accepted (JObj [("status", JStr "error"); ("error", JStr "boom")])]
                   (Rejected 0 "fetch failed")).

(** The job is accepted and pending ever after. *)
Definition stalling : Env :=
  studio (scripted [accepted (job "job123")] (accepted pending)).

(** The job is accepted; the first status check fails on the primary path
    and shows "created" on the legacy path, every later one shows
    "started". *)
Definition progressing : Env :=
  studio (scripted [accepted (job "job123"); refusal "not yet";
                    accepted (JObj [("status", JStr "created")])]
                   (accepted (JObj [("status", JStr "started")]))).

Definition key_auth : DidTalk.Auth := DidTalk.mkAuth (Some "key") None.

Definition both_auth : DidTalk.Auth := DidTalk.mkAuth (Some "key") (Some " abc ").

(** The worlds a video request for "Hello" goes through when the job is
    accepted at once: after the inputs are read, after the submission. *)
Definition hello_read (env : Env) : World :=
  snd (DidTalk.POST_inputs env (Document (saying "Hello")) boot).

Definition hello_submitted (env : Env) : World :=
  snd (DidTalk.POST_create env key_auth "Hello"
         DidTalk.DEFAULT_SOURCE_URL DidTalk.DEFAULT_VOICE_ID (hello_read env)).

(** What the invocation on [erring] did before its last poll. *)
Definition erring_before : list Event :=
  removelast (trace (snd (DidTalk.POST erring (Document (saying "Hello")) boot))).

(** A configured text service whose upstream answers with an error status
    and a plain-text body. *)
Definition throttled : Env :=
  mkEnv (Some "k") None None None
        (fun _ _ => Resolved 10 (mkResponse 429 "quota exceeded" (Malformed "Unexpected token q")))
        (fun _ => 0%N).

(** A configured text service that cannot reach its upstream. *)
Definition offline : Env :=
  mkEnv (Some "k") None None None (fun _ _ => Rejected 7 "fetch failed") (fun _ => 0%N).

(** The job is accepted; its status then fails on both paths. *)
Definition vanishing : Env :=
  studio (scripted [accepted (job "job123"); refusal "gone"; refusal "gone too"]
                   (Rejected 0 "fetch failed")).

(** Tier 1 is refused, and the connection drops on tier 2. *)
Definition dropping : Env :=
  studio (scripted [refusal "e1"] (Rejected 3 "socket hang up")).

(** DID_API_KEY holds white space only, NEXT_PUBLIC_DID_API_KEY a key. *)
Definition blank_keyed : Env :=
  mkEnv None (Some "   ") (Some "real-key") None
        (answering 200 (job "job123")) (fun _ => 0%N).

Definition blank_auth : DidTalk.Auth := DidTalk.mkAuth (Some "   ") None.

(** A video request with a blank source URL and a voice of its own. *)
Definition voiced : Json :=
  JObj [("text", JStr " Hi "); ("source_url", JStr "  "); ("voice_id", JStr " en-GB-SoniaNeural ")].

(** What an invocation for "Hello" did before its last effect. *)
Definition before_last (env : Env) : list Event :=
  removelast (trace (snd (DidTalk.POST env (Document (saying "Hello")) boot))).

(** The process just after a first call saying "Hello". *)
Definition greeted : World := snd (Gemini.POST chatty (Document (saying "Hello")) boot).

End Fixtures.

(** ** Facts about the runtime *)

Module RuntimeFacts.

Lemma trimStart_blank s : whitespace_only s = true -> trimStart s = "".
Proof.
  induction s as [|c s IH]; simpl; [done|].
  intros [Hc Hs]%andb_true_iff. rewrite Hc. auto.
Qed.

Lemma trim_blank s : whitespace_only s = true -> trim s = "".
Proof. intros H. unfold trim. now rewrite trimStart_blank. Qed.

Example trim_both_ends :
  trim (String "009" (String "010" "  a b  ")) = "a b" /\ trim "   " = "" /\ trim "a" = "a".
Proof. repeat split. Qed.

Example toLowerCase_letters : toLowerCase "Hello, WORLD [42]" = "hello, world [42]".
Proof. reflexivity. Qed.

Lemma toLowerCase_nonempty s : nonempty (toLowerCase s) = nonempty s.
Proof. now destruct s. Qed.

Lemma requests_app t u : requests (t ++ u) = (requests t ++ requests u)%list.
Proof. unfold requests. apply flat_map_app. Qed.

Lemma requests_snoc t r : requests (t ++ [EFetch r]) = (requests t ++ [r])%list.
Proof. now rewrite requests_app. Qed.

Lemma requests_console t l a : requests (t ++ [EConsole l a]) = requests t.
Proof. rewrite requests_app. apply app_nil_r. Qed.

Lemma requests_sleep t ms : requests (t ++ [ESleep ms]) = requests t.
Proof. rewrite requests_app. apply app_nil_r. Qed.

Lemma naps_sleep t ms : naps (t ++ [ESleep ms]) = (naps t ++ [ms])%list.
Proof. unfold naps. now rewrite flat_map_app. Qed.

Lemma text_of_body body s :
  member "text" body = Some (JStr s) ->
  chain (member "text") (Some body) = Some (JStr s).
Proof. destruct body; try discriminate. auto. Qed.

(** A fetch, by the way the upstream settles it. *)
Lemma fetch_resolved env rq w took res :
  upstream env (length (requests (trace w))) rq = Resolved took res ->
  fetch env rq w =
  (Val res, mkWorld (now w + Z.of_N took) (responseCache w) (trace w ++ [EFetch rq])).
Proof. intros H. unfold fetch. now rewrite H. Qed.

Lemma fetch_rejected env rq w took m :
  upstream env (length (requests (trace w))) rq = Rejected took m ->
  fetch env rq w =
  (Exc (TypeError m),
   mkWorld (now w + Z.of_N took) (responseCache w) (trace w ++ [EFetch rq])).
Proof. intros H. unfold fetch. now rewrite H. Qed.

Lemma cons_split {A} (a x : A) l pre post :
  a :: l = (pre ++ x :: post)%list ->
  (pre = [] /\ a = x /\ l = post) \/
  (exists pre', pre = a :: pre' /\ l = (pre' ++ x :: post)%list).
Proof.
  destruct pre as [|b pre']; cbn; intros H; injection H as -> ->; eauto.
Qed.

Lemma is_string_exclusive v : is_string "done" v = true -> is_string "error" v = false.
Proof.
  destruct v as [[]|]; cbn; try discriminate.
  intros ->%String.eqb_eq. reflexivity.
Qed.

(** An event that stands out from a list of others lies after them. *)
Lemma split_after {A} (P : A -> bool) (l1 : list A) : forall l2 pre x post,
  (l1 ++ l2 = pre ++ x :: post)%list ->
  Forall (fun e => P e = false) l1 ->
  P x = true ->
  exists pre', pre = (l1 ++ pre')%list /\ l2 = (pre' ++ x :: post)%list.
Proof.
  induction l1 as [|a l1 IH]; intros l2 pre x post Hsplit Hall Hx.
  - exists pre. auto.
  - apply Forall_cons in Hall as [Ha Hall]. cbn [app] in Hsplit.
    destruct (cons_split _ _ _ _ _ Hsplit) as [(_ & -> & _)|(pre' & -> & Hrest)];
      [congruence|].
    destruct (IH _ _ _ _ Hrest Hall Hx) as (pre'' & -> & ->). eauto.
Qed.

End RuntimeFacts.

(** ** Properties of the text-generation route *)

Module GeminiSpec.
Import Gemini Fixtures RuntimeFacts.

Section Configured.

Variable env : Env.
Hypothesis Hkey : present (GOOGLE_GENERATIVE_API_KEY env) = true.

(** A valid text gets as far as the cache lookup. *)
Lemma POST_lookup body s w :
  member "text" body = Some (JStr s) ->
  nonempty (trim s) = true ->
  POST env (Document body) w =
  match responseCache w !! toLowerCase (trim s) with
  | Some c =>
      if (now w - timestamp c <? CACHE_DURATION)%Z
      then (replying (response c), w)
      else try_catch (POST_generate env (configuredKey env) (trim s) (toLowerCase (trim s))) failed w
  | None => try_catch (POST_generate env (configuredKey env) (trim s) (toLowerCase (trim s))) failed w
  end.
Proof.
  intros Htext Hs.
  unfold POST, POST_try, try_catch. rewrite Hkey.
  cbn [negb bind parsed ret]. rewrite (text_of_body _ _ Htext).
  cbn [bind chain_trim ret present]. rewrite Hs.
  cbn [negb narrowed bind cache_get Date_now].
  destruct (responseCache w !! toLowerCase (trim s)) as [c|]; [|reflexivity].
  destruct (now w - timestamp c <? CACHE_DURATION)%Z; reflexivity.
Qed.

(** What the upstream call does, by the way the upstream answers. *)
Lemma POST_generate_ok userText cacheKey w took res data :
  upstream env (length (requests (trace w)))
           (generateRequest (configuredKey env) (buildTutorPrompt userText)) = Resolved took res ->
  ok res = true ->
  res_json res = Document data ->
  POST_generate env (configuredKey env) userText cacheKey w =
  (Val (replying (candidateText data)),
   mkWorld (now w + Z.of_N took)
           (<[cacheKey := mkEntry (candidateText data) (now w + Z.of_N took)]> (responseCache w))
           (trace w ++ [EFetch (generateRequest (configuredKey env) (buildTutorPrompt userText))])).
Proof.
  intros Hup Hok Hdata. unfold POST_generate, bind, fetch.
  rewrite Hup, Hok, Hdata. reflexivity.
Qed.

Lemma POST_generate_sends userText cacheKey w :
  requests (trace (snd (POST_generate env (configuredKey env) userText cacheKey w))) =
  (requests (trace w) ++ [generateRequest (configuredKey env) (buildTutorPrompt userText)])%list.
Proof.
  unfold POST_generate, bind, fetch.
  destruct (upstream env _ _) as [took m|took res]; cbn [snd trace]; [apply requests_snoc|].
  destruct (ok res); cbn [negb].
  - destruct (res_json res); cbn; apply requests_snoc.
  - cbn. rewrite requests_console. apply requests_snoc.
Qed.

Lemma POST_miss body s w :
  member "text" body = Some (JStr s) ->
  nonempty (trim s) = true ->
  (forall c, responseCache w !! toLowerCase (trim s) = Some c ->
             CACHE_DURATION <= now w - timestamp c) ->
  POST env (Document body) w =
  try_catch (POST_generate env (configuredKey env) (trim s) (toLowerCase (trim s))) failed w.
Proof.
  intros Htext Hs Hstale. rewrite (POST_lookup _ _ _ Htext Hs).
  destruct (responseCache w !! toLowerCase (trim s)) as [c|]; [|reflexivity].
  specialize (Hstale c eq_refl).
  destruct (Z.ltb_spec (now w - timestamp c) CACHE_DURATION); [lia|reflexivity].
Qed.

End Configured.

(** The cache only matters to the upstream call through what is written. *)
Lemma POST_generate_same env apiKey userText cacheKey w w' :
  same_but_cache w w' ->
  fst (POST_generate env apiKey userText cacheKey w) =
  fst (POST_generate env apiKey userText cacheKey w') /\
  same_but_cache (snd (POST_generate env apiKey userText cacheKey w))
                 (snd (POST_generate env apiKey userText cacheKey w')).
Proof.
  intros [Hnow Htrace]. unfold POST_generate, bind, fetch. rewrite Htrace, Hnow.
  destruct (upstream env _ _) as [took m|took res]; [now cbn|].
  destruct (ok res); cbn [negb]; [|now cbn].
  destruct (res_json res); now cbn.
Qed.

(** [cache_inv] holds of an empty cache and is kept by every call and by
    the passing of time. *)
Lemma cache_inv_empty env t events : cache_inv env (mkWorld t ∅ events).
Proof. intros k c. cbn. now rewrite lookup_empty. Qed.

Lemma cache_inv_later env d w : cache_inv env w -> cache_inv env (later d w).
Proof. intros H. exact H. Qed.

Lemma cache_inv_POST env request_json w :
  cache_inv env w -> cache_inv env (snd (POST env request_json w)).
Proof.
  intros Hw. unfold POST, POST_try, try_catch.
  destruct (present (GOOGLE_GENERATIVE_API_KEY env)) eqn:Hkey; cbn [negb]; [|exact Hw].
  destruct request_json as [m|body]; cbn [bind parsed throw ret snd]; [exact Hw|].
  destruct (chain (member "text") (Some body)) as [[| | |s| |]|];
    cbn [bind chain_trim throw ret snd present negb]; try exact Hw.
  destruct (nonempty (trim s)) eqn:Hs; cbn [negb]; [|exact Hw].
  cbn [narrowed bind cache_get Date_now].
  assert (Hgen : cache_inv env
            (snd (let (r, w') := POST_generate env (configuredKey env) (trim s)
                                   (toLowerCase (trim s)) w in
                  match r with Val a => (a, w') | Exc e => (failed e, w') end))).
  { unfold POST_generate, bind, fetch.
    destruct (upstream env _ _) as [took m|took res]; [exact Hw|].
    destruct (ok res); cbn [negb]; [|exact Hw].
    destruct (res_json res); cbn; [exact Hw|].
    intros k c. cbn. rewrite lookup_insert. case_decide; [|apply Hw].
    intros _. subst k. now rewrite toLowerCase_nonempty. }
  destruct (responseCache w !! toLowerCase (trim s)) as [c|]; [|exact Hgen].
  destruct (now w - timestamp c <? CACHE_DURATION)%Z; [exact Hw|exact Hgen].
Qed.

(** A call that answers with a reply after one more upstream request has
    written that reply in the cache, under the key of its text. *)
Lemma POST_replied_after_fetch env body s w reply w1 :
  member "text" body = Some (JStr s) ->
  POST env (Document body) w = (replying reply, w1) ->
  length (requests (trace w1)) = S (length (requests (trace w))) ->
  present (GOOGLE_GENERATIVE_API_KEY env) = true /\
  nonempty (trim s) = true /\
  responseCache w1 !! toLowerCase (trim s) = Some (mkEntry reply (now w1)).
Proof.
  intros Htext Hpost Hsent.
  destruct (present (GOOGLE_GENERATIVE_API_KEY env)) eqn:Hkey.
  2:{ unfold POST, POST_try, try_catch in Hpost. rewrite Hkey in Hpost. discriminate. }
  destruct (nonempty (trim s)) eqn:Hs.
  2:{ unfold POST, POST_try, try_catch in Hpost. rewrite Hkey in Hpost.
      cbn [negb bind parsed ret] in Hpost. rewrite (text_of_body _ _ Htext) in Hpost.
      cbn [bind chain_trim ret present] in Hpost. rewrite Hs in Hpost. discriminate. }
  split; [reflexivity|]. split; [reflexivity|].
  rewrite (POST_lookup env Hkey _ _ _ Htext Hs) in Hpost.
  assert (Hgen : try_catch (POST_generate env (configuredKey env) (trim s)
                              (toLowerCase (trim s))) failed w = (replying reply, w1) ->
                 responseCache w1 !! toLowerCase (trim s) = Some (mkEntry reply (now w1))).
  { unfold try_catch, POST_generate, bind, fetch.
    destruct (upstream env _ _) as [took m|took res]; [discriminate|].
    destruct (ok res); cbn [negb]; [|discriminate].
    destruct (res_json res); cbn; [discriminate|].
    intros [= <- <-]. cbn. now rewrite lookup_insert_eq. }
  destruct (responseCache w !! toLowerCase (trim s)) as [c|]; [|auto].
  destruct (now w - timestamp c <? CACHE_DURATION)%Z; [|auto].
  injection Hpost as _ <-. lia.
Qed.

(** An entry that has reached CACHE_DURATION changes nothing to any call:
    the answer, the effects and the clock are those of the world without
    it. *)
Lemma stale_entry_ignored env request_json w k c :
  responseCache w !! k = Some c ->
  timestamp c + CACHE_DURATION <= now w ->
  fst (POST env request_json w) = fst (POST env request_json (forget k w)) /\
  same_but_cache (snd (POST env request_json w)) (snd (POST env request_json (forget k w))).
Proof.
  intros Hc Hold. unfold POST, POST_try, try_catch.
  destruct (present (GOOGLE_GENERATIVE_API_KEY env)); cbn [negb]; [|now cbn].
  destruct request_json as [m|body]; cbn [bind parsed throw ret]; [now cbn|].
  destruct (chain (member "text") (Some body)) as [[| | |s| |]|];
    cbn [bind chain_trim throw ret present negb]; try (now cbn).
  destruct (nonempty (trim s)); cbn [negb]; [|now cbn].
  cbn [narrowed bind cache_get Date_now].
  change (responseCache (forget k w)) with (delete k (responseCache w)).
  change (now (forget k w)) with (now w).
  assert (Hgen := POST_generate_same env (narrowed (GOOGLE_GENERATIVE_API_KEY env))
                    (trim s) (toLowerCase (trim s)) w (forget k w) (conj eq_refl eq_refl)).
  destruct Hgen as [Hfst Hsnd].
  assert (Hmiss :
    fst (let (r, w') := POST_generate env (narrowed (GOOGLE_GENERATIVE_API_KEY env))
                          (trim s) (toLowerCase (trim s)) w in
         match r with Val a => (a, w') | Exc e => (failed e, w') end) =
    fst (let (r, w') := POST_generate env (narrowed (GOOGLE_GENERATIVE_API_KEY env))
                          (trim s) (toLowerCase (trim s)) (forget k w) in
         match r with Val a => (a, w') | Exc e => (failed e, w') end) /\
    same_but_cache
      (snd (let (r, w') := POST_generate env (narrowed (GOOGLE_GENERATIVE_API_KEY env))
                             (trim s) (toLowerCase (trim s)) w in
            match r with Val a => (a, w') | Exc e => (failed e, w') end))
      (snd (let (r, w') := POST_generate env (narrowed (GOOGLE_GENERATIVE_API_KEY env))
                             (trim s) (toLowerCase (trim s)) (forget k w) in
            match r with Val a => (a, w') | Exc e => (failed e, w') end))).
  { destruct (POST_generate _ _ _ _ w) as [[a|e] w1],
             (POST_generate _ _ _ _ (forget k w)) as [[a'|e'] w1'];
      cbn [fst snd] in *; try discriminate; split; congruence. }
  destruct (decide (toLowerCase (trim s) = k)) as [Heq|Hne].
  - subst k. rewrite Hc, lookup_delete_eq.
    destruct (Z.ltb_spec (now w - timestamp c) CACHE_DURATION); [lia|exact Hmiss].
  - rewrite lookup_delete_ne by congruence.
    destruct (responseCache w !! toLowerCase (trim s)) as [c'|]; [|exact Hmiss].
    destruct (now w - timestamp c' <? CACHE_DURATION)%Z; [now cbn|exact Hmiss].
Qed.

(** C8, as the code has it.  For a call that reaches the upstream (the key
    is configured, the text is not blank, the cache has no fresh entry) and
    gets a success whose body is JSON: the extraction cannot
    throw: whatever document the upstream sent, POST answers 200 with the
    extracted value, after storing it in the cache under the key with the
    time of the write.  The value is the text of the first part of the
    first candidate when the shape is there, and the empty string as soon
    as the value reached at any step of the path is missing (undefined or
    null).  A value of another kind is read like any other: what is found
    at the end of the path is returned as it is. *)
Theorem reply_extraction env body s w took res data :
  present (GOOGLE_GENERATIVE_API_KEY env) = true ->
  member "text" body = Some (JStr s) ->
  nonempty (trim s) = true ->
  (forall c, responseCache w !! toLowerCase (trim s) = Some c ->
             CACHE_DURATION <= now w - timestamp c) ->
  upstream env (length (requests (trace w)))
           (generateRequest (configuredKey env) (buildTutorPrompt (trim s))) = Resolved took res ->
  ok res = true ->
  res_json res = Document data ->
  POST env (Document body) w =
    (mkHttp 200 [("reply", Some (candidateText data))],
     mkWorld (now w + Z.of_N took)
             (<[toLowerCase (trim s) :=
                  mkEntry (candidateText data) (now w + Z.of_N took)]> (responseCache w))
             (trace w ++ [EFetch (generateRequest (configuredKey env) (buildTutorPrompt (trim s)))])) /\
  candidateText data = coalesce (descend path (Some data)) (JStr "") /\
  (forall c cs content p ps t,
      member "candidates" data = Some (JArr (c :: cs)) ->
      member "content" c = Some content ->
      member "parts" content = Some (JArr (p :: ps)) ->
      member "text" p = Some t ->
      t <> JNull ->
      candidateText data = t) /\
  (forall k, nullish (descend (take k path) (Some data)) = true ->
             candidateText data = JStr "").
Proof.
  intros Hkey Htext Hs Hstale Hup Hok Hdata. split; [|split; [reflexivity|split]].
  - rewrite (POST_miss env Hkey _ _ _ Htext Hs Hstale). unfold try_catch.
    now rewrite (POST_generate_ok env _ _ _ _ _ _ Hup Hok Hdata).
  - intros c cs content p ps t Hc Hcontent Hparts Ht Hnull.
    unfold candidateText. destruct data; try discriminate. cbn [chain]. rewrite Hc.
    cbn [chain first]. destruct c; try discriminate. rewrite Hcontent. cbn [chain].
    destruct content; try discriminate. rewrite Hparts. cbn [chain first].
    destruct p; try discriminate. rewrite Ht. now destruct t.
  - intros k Hk.
    assert (Hgone : forall steps v, nullish v = true -> nullish (descend steps v) = true).
    { induction steps as [|g steps IH]; intros v Hv; [exact Hv|].
      cbn. apply IH. now destruct v as [[]|]. }
    change (candidateText data) with (coalesce (descend path (Some data)) (JStr "")).
    rewrite <- (take_drop k path). unfold descend at 1. rewrite fold_left_app.
    specialize (Hgone (drop k path) _ Hk). unfold descend in Hgone at 1.
    now destruct (fold_left _ (drop k path) _) as [[]|].
Qed.

(** C8 as stated fails.  With candidates an object keyed by index in place
    of an array the shape is malformed and the reply is not the empty
    string; with a number for text the reply is that number; and a success
    whose body is not JSON gives no reply at all but the generic failure,
    with nothing stored. *)
Lemma malformed_shape_read_through :
  is_array (member "candidates" keyed) = false /\
  candidateText keyed <> JStr "" /\
  fst (POST (sending keyed) (Document (saying "Hello")) boot) =
    mkHttp 200 [("reply", Some (JStr "hi"))] /\
  is_text (member "text" (JObj [("text", JNum (42 # 1))])) = false /\
  fst (POST (sending (generated (JNum (42 # 1)))) (Document (saying "Hello")) boot) =
    mkHttp 200 [("reply", Some (JNum (42 # 1)))] /\
  fst (POST garbling (Document (saying "Hello")) boot) =
    mkHttp 500 [("error", str "Request failed");
                ("detail", str "SyntaxError: Unexpected token <")] /\
  responseCache (snd (POST garbling (Document (saying "Hello")) boot)) = ∅.
Proof. repeat split. discriminate. Qed.

Lemma reply_extraction_witness :
  POST chatty (Document (saying "Hello")) boot =
    (mkHttp 200 [("reply", Some (JStr "Hi there!"))],
     mkWorld 1010 {[ "hello" := mkEntry (JStr "Hi there!") 1010 ]}
       [EFetch (generateRequest "k" (buildTutorPrompt "Hello"))]) /\
  candidateText (JObj [("candidates", JArr [])]) = JStr "".
Proof.
  split.
  - refine (proj1 (reply_extraction chatty (saying "Hello") "Hello" boot 10%N
                     (mkResponse 200 "" (Document (generated (JStr "Hi there!"))))
                     (generated (JStr "Hi there!")) eq_refl eq_refl eq_refl _
                     eq_refl eq_refl eq_refl)).
    intros c Hc. discriminate.
  - refine (proj2 (proj2 (proj2
              (reply_extraction (sending (JObj [("candidates", JArr [])]))
                 (saying "Hello") "Hello" boot 10%N
                 (mkResponse 200 "" (Document (JObj [("candidates", JArr [])])))
                 (JObj [("candidates", JArr [])]) eq_refl eq_refl eq_refl _
                 eq_refl eq_refl eq_refl))) 2%nat eq_refl).
    intros c Hc. discriminate.
Defined.

End GeminiSpec.

(** ** Properties of the avatar-video route *)

Module DidTalkSpec.
Import DidTalk Fixtures RuntimeFacts.

Section Submission.

Variable env : Env.

(** [createTalk], with its nested retries, is the cascade over the tiers. *)
Lemma createTalk_cascade auth text sourceUrl voiceId w :
  createTalk env auth text sourceUrl voiceId w =
  cascade env (tier1 auth text sourceUrl) (fallbacks auth text sourceUrl voiceId) w.
Proof.
  unfold createTalk, tier1, fallbacks. cbn [cascade]. unfold bind.
  destruct (fetch env _ w) as [[r1|e1] w1]; [|reflexivity].
  destruct (ok r1) eqn:H1; cbn [negb ret]; [now rewrite H1|].
  destruct (console _ _ w1) as [[[]|?] w1']; [|reflexivity].
  destruct (fetch env _ w1') as [[r2|e2] w2]; [|reflexivity].
  destruct (ok r2) eqn:H2; cbn [negb ret]; [now rewrite H2|].
  destruct (console _ _ w2) as [[[]|?] w2']; [|reflexivity].
  destruct (fetch env _ w2') as [[r3|e3] w3]; [|reflexivity].
  destruct (ok r3) eqn:H3; cbn [negb ret]; [now rewrite H3|].
  destruct (console _ _ w3) as [[[]|?] w3']; [|reflexivity].
  destruct (fetch env _ w3') as [[r4|e4] w4]; [|reflexivity].
  destruct (ok r4) eqn:H4; cbn [negb ret throw]; now rewrite ?H4.
Qed.

(** The cascade stops at the first attempt that succeeds: the attempts
    before it were sent in order, none after it is. *)
Lemma cascade_stops fallbacks : forall tier w (k : nat) took res,
  (k <= length fallbacks)%nat ->
  (forall i rq, (i < k)%nat -> (tier :: map snd fallbacks) !! i = Some rq ->
     exists t r, upstream env (length (requests (trace w)) + i) rq = Resolved t r /\
                 ok r = false) ->
  (forall rq, (tier :: map snd fallbacks) !! k = Some rq ->
     upstream env (length (requests (trace w)) + k) rq = Resolved took res) ->
  ok res = true ->
  fst (cascade env tier fallbacks w) = body_of res /\
  requests (trace (snd (cascade env tier fallbacks w))) =
  (requests (trace w) ++ take (S k) (tier :: map snd fallbacks))%list.
Proof.
  induction fallbacks as [|[label next] rest IH]; intros tier w k took res Hk Hfail Hwin Hok.
  - assert (k = 0)%nat as -> by (cbn in Hk; lia).
    specialize (Hwin tier eq_refl). rewrite Nat.add_0_r in Hwin.
    cbn [cascade]. unfold bind. rewrite (fetch_resolved _ _ _ _ _ Hwin), Hok.
    unfold parsed, body_of. destruct (res_json res); cbn; now rewrite requests_snoc.
  - destruct k as [|k].
    + specialize (Hwin tier eq_refl). rewrite Nat.add_0_r in Hwin.
      cbn [cascade]. unfold bind. rewrite (fetch_resolved _ _ _ _ _ Hwin), Hok.
      unfold parsed, body_of. destruct (res_json res); cbn; now rewrite requests_snoc.
    + destruct (Hfail 0%nat tier ltac:(lia) eq_refl) as (t & r & Hup & Hno).
      rewrite Nat.add_0_r in Hup.
      set (w1 := mkWorld (now w + Z.of_N t) (responseCache w)
                         ((trace w ++ [EFetch tier]) ++
                          [EConsole Warn [str label; str (res_text r)]])).
      assert (Hstep : cascade env tier ((label, next) :: rest) w = cascade env next rest w1).
      { cbn [cascade]. unfold bind at 1. rewrite (fetch_resolved _ _ _ _ _ Hup), Hno.
        reflexivity. }
      rewrite Hstep.
      assert (Hn : length (requests (trace w1)) = S (length (requests (trace w)))).
      { subst w1. cbn [trace]. rewrite requests_console, requests_snoc, length_app.
        cbn. lia. }
      destruct (IH next w1 k took res) as [Hres Hsent].
      * cbn in Hk. lia.
      * intros i rq Hi Hrq. rewrite Hn.
        destruct (Hfail (S i) rq ltac:(lia) Hrq) as (t' & r' & Hup' & Hno').
        exists t', r'. split; [|exact Hno'].
        now replace (S (length (requests (trace w))) + i)%nat
          with (length (requests (trace w)) + S i)%nat by lia.
      * intros rq Hrq. rewrite Hn.
        replace (S (length (requests (trace w))) + k)%nat
          with (length (requests (trace w)) + S k)%nat by lia.
        now apply Hwin.
      * exact Hok.
      * split; [exact Hres|]. rewrite Hsent. subst w1. cbn [trace].
        rewrite requests_console, requests_snoc, <- app_assoc. reflexivity.
Qed.

Lemma cascade_fail_step tier label next rest w t r :
  upstream env (length (requests (trace w))) tier = Resolved t r ->
  ok r = false ->
  cascade env tier ((label, next) :: rest) w =
  cascade env next rest
    (mkWorld (now w + Z.of_N t) (responseCache w)
             (trace w ++ [EFetch tier; EConsole Warn [str label; str (res_text r)]])).
Proof.
  intros Hup Hno. cbn [cascade]. unfold bind at 1.
  rewrite (fetch_resolved _ _ _ _ _ Hup), Hno.
  unfold bind, console, emit. cbn [trace now responseCache].
  now rewrite <- app_assoc.
Qed.

Lemma cascade_last_fail tier w t r :
  upstream env (length (requests (trace w))) tier = Resolved t r ->
  ok r = false ->
  cascade env tier [] w =
  (Exc (Error ("D-ID create error: " +:+ res_text r)),
   mkWorld (now w + Z.of_N t) (responseCache w) (trace w ++ [EFetch tier])).
Proof.
  intros Hup Hno. cbn [cascade]. unfold bind.
  now rewrite (fetch_resolved _ _ _ _ _ Hup), Hno.
Qed.

(** Whatever the upstream does, the requests of a cascade are a non-empty
    prefix of its attempts. *)
Lemma cascade_sends fallbacks : forall tier w,
  exists m, (1 <= m)%nat /\
    requests (trace (snd (cascade env tier fallbacks w))) =
    (requests (trace w) ++ take m (tier :: map snd fallbacks))%list.
Proof.
  induction fallbacks as [|[label next] rest IH]; intros tier w.
  - exists 1%nat. split; [lia|]. cbn [cascade]. unfold bind, fetch.
    destruct (upstream env _ tier) as [t m|t r]; cbn [snd trace]; [apply requests_snoc|].
    destruct (ok r); [|now cbn; rewrite requests_snoc].
    unfold parsed. destruct (res_json r); cbn; apply requests_snoc.
  - destruct (upstream env (length (requests (trace w))) tier) as [t m|t r] eqn:Hup.
    + exists 1%nat. split; [lia|]. cbn [cascade]. unfold bind.
      rewrite (fetch_rejected _ _ _ _ _ Hup). cbn. apply requests_snoc.
    + destruct (ok r) eqn:Hok.
      * exists 1%nat. split; [lia|]. cbn [cascade]. unfold bind.
        rewrite (fetch_resolved _ _ _ _ _ Hup), Hok.
        unfold parsed. destruct (res_json r); cbn; apply requests_snoc.
      * rewrite (cascade_fail_step _ _ _ _ _ _ _ Hup Hok).
        destruct (IH next (mkWorld (now w + Z.of_N t) (responseCache w)
          (trace w ++ [EFetch tier; EConsole Warn [str label; str (res_text r)]])))
          as (m & Hm & Hsent).
        exists (S m). split; [lia|]. rewrite Hsent. cbn [trace].
        rewrite requests_app, <- app_assoc. reflexivity.
Qed.

Lemma tiers_headers auth text sourceUrl voiceId :
  Forall (fun rq => headers rq = buildAuthHeaders auth) (tiers auth text sourceUrl voiceId).
Proof. repeat constructor. Qed.

(** C2. The submission tries the four tiers in the order v1/minimal,
    v1/voice provider, legacy/minimal, legacy/voice provider, all with the
    headers resolved once from the credentials.  When the first k tiers
    answer with a non-success status and tier k+1 succeeds, exactly the
    first k+1 tiers have been sent, in order, and the result is the body of
    tier k+1's response, whose id is the job id of the invocation; for k = 3
    all four were sent and the id is that of tier 4.  Whatever the upstream
    does, what is sent is a prefix of the four tiers, the first at least. *)
Theorem submission_cascade auth text sourceUrl voiceId w (k : nat) took res :
  let n := length (requests (trace w)) in
  let h := buildAuthHeaders auth in
  let ts := tiers auth text sourceUrl voiceId in
  let out := createTalk env auth text sourceUrl voiceId w in
  (k < 4)%nat ->
  (forall i rq, (i < k)%nat -> ts !! i = Some rq ->
     exists t r, upstream env (n + i) rq = Resolved t r /\ ok r = false) ->
  (forall rq, ts !! k = Some rq -> upstream env (n + k) rq = Resolved took res) ->
  ok res = true ->
  ts = [mkRequest (Literal "https://api.d-id.com/v1/talks") "POST" h
          (Some (JObj [("script", JObj [("type", JStr "text"); ("input", JStr text)]);
                       ("source_url", JStr sourceUrl)]));
        mkRequest (Literal "https://api.d-id.com/v1/talks") "POST" h
          (Some (JObj [("script", JObj [("type", JStr "text"); ("input", JStr text);
                                        ("provider", JObj [("type", JStr "microsoft");
                                                           ("voice_id", JStr voiceId)])]);
                       ("source_url", JStr sourceUrl)]));
        mkRequest (Literal "https://api.d-id.com/talks") "POST" h
          (Some (JObj [("script", JObj [("type", JStr "text"); ("input", JStr text)]);
                       ("source_url", JStr sourceUrl)]));
        mkRequest (Literal "https://api.d-id.com/talks") "POST" h
          (Some (JObj [("script", JObj [("type", JStr "text"); ("input", JStr text);
                                        ("provider", JObj [("type", JStr "microsoft");
                                                           ("voice_id", JStr voiceId)])]);
                       ("source_url", JStr sourceUrl)]))] /\
  fst out = body_of res /\
  requests (trace (snd out)) = (requests (trace w) ++ take (S k) ts)%list /\
  (forall j, res_json res = Document j -> j <> JNull ->
     fst (POST_create env auth text sourceUrl voiceId w) = Val (member "id" j)) /\
  (forall w', exists m, (1 <= m)%nat /\
     requests (trace (snd (createTalk env auth text sourceUrl voiceId w'))) =
     (requests (trace w') ++ take m ts)%list).
Proof.
  intros n h ts out Hk Hfail Hwin Hok. split; [reflexivity|].
  assert (Hany : forall w', exists m, (1 <= m)%nat /\
     requests (trace (snd (createTalk env auth text sourceUrl voiceId w'))) =
     (requests (trace w') ++ take m ts)%list).
  { intros w'. rewrite createTalk_cascade. apply cascade_sends. }
  assert (Hcascade : fst out = body_of res /\
            requests (trace (snd out)) = (requests (trace w) ++ take (S k) ts)%list).
  { subst out. rewrite createTalk_cascade.
    apply cascade_stops with (took := took); [cbn; lia|exact Hfail|exact Hwin|exact Hok]. }
  destruct Hcascade as [Hres Hsent]. split; [exact Hres|]. split; [exact Hsent|].
  split; [|exact Hany].
  intros j Hj Hnull. unfold POST_create, bind at 1, console, emit.
  set (w0 := mkWorld _ _ _).
  assert (H0 : fst (createTalk env auth text sourceUrl voiceId w0) = Val j).
  { rewrite createTalk_cascade.
    destruct (cascade_stops (fallbacks auth text sourceUrl voiceId)
                (tier1 auth text sourceUrl) w0 k took res) as [H _].
    - cbn; lia.
    - subst w0. cbn [trace]. rewrite requests_console. exact Hfail.
    - subst w0. cbn [trace]. rewrite requests_console. exact Hwin.
    - exact Hok.
    - rewrite H. unfold body_of. now rewrite Hj. }
  unfold bind. destruct (createTalk env auth text sourceUrl voiceId w0) as [[j'|e] w'];
    cbn [fst] in H0; [|discriminate].
  injection H0 as ->. destruct j; try reflexivity. contradiction.
Qed.

(** C9. When both a Basic-auth credential and an API key are configured
    (each non-blank once trimmed), the headers are the fixed Content-Type
    header and the Authorization header alone: its value is the trimmed
    credential, with the prefix Basic put before it when it does not start
    with it, and there is no x-api-key header.  Every request of a
    submission carries these same headers. *)
Theorem basic_auth_precedence auth :
  nonblank (basicAuth auth) = true ->
  nonblank (studioApiKey auth) = true ->
  let v := trim (narrowed (basicAuth auth)) in
  let authorization := if startsWith v "Basic " then v else "Basic " +:+ v in
  buildAuthHeaders auth =
    [("Content-Type", "application/json"); ("Authorization", authorization)] /\
  startsWith authorization "Basic " = true /\
  assoc_last "x-api-key" (buildAuthHeaders auth) = None /\
  (forall text sourceUrl voiceId w,
      exists sent,
        requests (trace (snd (createTalk env auth text sourceUrl voiceId w))) =
        (requests (trace w) ++ sent)%list /\
        sent <> [] /\
        Forall (fun rq => headers rq = buildAuthHeaders auth) sent).
Proof.
  intros Hbasic Hkey v authorization.
  assert (Hheaders : buildAuthHeaders auth =
    [("Content-Type", "application/json"); ("Authorization", authorization)]).
  { unfold buildAuthHeaders. now rewrite Hbasic. }
  split; [exact Hheaders|]. split; [|split].
  - subst authorization. clearbody v.
    destruct (startsWith v "Basic ") eqn:Hv; [exact Hv|]. reflexivity.
  - rewrite Hheaders. reflexivity.
  - intros text sourceUrl voiceId w. rewrite createTalk_cascade.
    destruct (cascade_sends (fallbacks auth text sourceUrl voiceId)
                (tier1 auth text sourceUrl) w) as (m & Hm & Hsent).
    exists (take m (tiers auth text sourceUrl voiceId)). split; [exact Hsent|]. split.
    + destruct m; [lia|]. discriminate.
    + apply Forall_take, tiers_headers.
Qed.

(** C3, as the code has it.  When the four tiers all answer with a
    non-success status, createTalk throws an Error whose message wraps the
    body of the fourth answer alone; the three earlier bodies go to
    console.warn only.  The throw is caught by the catch block of POST, so
    the caller gets the generic failure: status 500, error "Request
    failed", the fourth body inside the detail. *)
Theorem exhausted_cascade_is_request_failed
    request_json w auth text sourceUrl voiceId w1 k1 r1 k2 r2 k3 r3 k4 r4 :
  POST_inputs env request_json w = (Val (inr (auth, text, sourceUrl, voiceId)), w1) ->
  let n := length (requests (trace w1)) in
  let h := buildAuthHeaders auth in
  let t1 := reqV1 h (primaryBody text sourceUrl) in
  let t2 := reqV1 h (secondaryBody text sourceUrl voiceId) in
  let t3 := reqLegacy h (primaryBody text sourceUrl) in
  let t4 := reqLegacy h (secondaryBody text sourceUrl voiceId) in
  upstream env n t1 = Resolved k1 r1 -> ok r1 = false ->
  upstream env (n + 1) t2 = Resolved k2 r2 -> ok r2 = false ->
  upstream env (n + 2) t3 = Resolved k3 r3 -> ok r3 = false ->
  upstream env (n + 3) t4 = Resolved k4 r4 -> ok r4 = false ->
  POST env request_json w =
  (Some (mkHttp 500 [("error", str "Request failed");
                     ("detail", str ("Error: D-ID create error: " +:+ res_text r4))]),
   mkWorld (now w1 + Z.of_N k1 + Z.of_N k2 + Z.of_N k3 + Z.of_N k4) (responseCache w1)
     (trace w1 ++
      [EConsole Log [str "Creating D-ID talk with text:"; str (substring0 50 text +:+ "...")];
       EFetch t1;
       EConsole Warn [str "D-ID v1 primary payload failed:"; str (res_text r1)];
       EFetch t2;
       EConsole Warn [str "D-ID v1 secondary payload failed:"; str (res_text r2)];
       EFetch t3;
       EConsole Warn [str "D-ID legacy primary failed:"; str (res_text r3)];
       EFetch t4])).
Proof.
  intros Hin n h t1 t2 t3 t4 H1 N1 H2 N2 H3 N3 H4 N4.
  unfold POST, POST_try, try_catch, bind at 1. rewrite Hin.
  unfold bind at 1, POST_create, bind at 1, console, emit.
  unfold bind at 1. rewrite createTalk_cascade. unfold fallbacks, tier1.
  fold h t1 t2 t3 t4.
  rewrite (cascade_fail_step t1 _ t2 _ _ k1 r1);
    [|cbn [trace]; rewrite requests_console; exact H1|exact N1].
  rewrite (cascade_fail_step t2 _ t3 _ _ k2 r2);
    [|cbn [trace]; rewrite !requests_app, !length_app; cbn; rewrite Nat.add_0_r; exact H2
     |exact N2].
  rewrite (cascade_fail_step t3 _ t4 _ _ k3 r3);
    [|cbn [trace]; rewrite !requests_app, !length_app; cbn; rewrite Nat.add_0_r;
      replace (length (requests (trace w1)) + 1 + 1)%nat with (n + 2)%nat by (subst n; lia);
      exact H3
     |exact N3].
  rewrite (cascade_last_fail t4 _ k4 r4);
    [|cbn [trace]; rewrite !requests_app, !length_app; cbn; rewrite Nat.add_0_r;
      replace (length (requests (trace w1)) + 1 + 1 + 1)%nat with (n + 3)%nat
        by (subst n; lia);
      exact H4
     |exact N4].
  cbn [now responseCache trace]. unfold failed. cbn [String_].
  rewrite <- !app_assoc. reflexivity.
Qed.

End Submission.

Section Polling.

Variable env : Env.
Variable auth : Auth.
Variable id : Value.
Variable startedAt : Z.

Lemma fetchTalkStatus_ok w took r s :
  upstream env (length (requests (trace w))) (pollReq auth id) = Resolved took r ->
  ok r = true ->
  res_json r = Document s ->
  fetchTalkStatus env auth id w =
  (Val s, mkWorld (now w + Z.of_N took) (responseCache w)
                  (trace w ++ [EFetch (pollReq auth id)])).
Proof.
  intros Hup Hok Hs. unfold fetchTalkStatus, bind. fold (pollReq auth id).
  rewrite (fetch_resolved _ _ _ _ _ Hup), Hok. cbn [negb ret]. rewrite Hok.
  cbn [negb parsed]. now rewrite Hs.
Qed.

(** The clock after a status check is not before the clock at its start. *)
Lemma fetchTalkStatus_clock w : now w <= now (snd (fetchTalkStatus env auth id w)).
Proof.
  unfold fetchTalkStatus, bind, fetch.
  destruct (upstream env _ _) as [t1 m1|t1 r1]; cbn [snd now]; [lia|].
  destruct (ok r1) eqn:H1; cbn [negb ret].
  - rewrite H1. cbn [negb]. unfold parsed. destruct (res_json r1); cbn; lia.
  - unfold console, emit. cbn [trace now responseCache].
    destruct (upstream env _ _) as [t2 m2|t2 r2]; cbn [snd now]; [lia|].
    destruct (ok r2); cbn [negb]; [|cbn; lia].
    unfold parsed. destruct (res_json r2); cbn; lia.
Qed.

(** A status check, case by case on the upstream answers. *)
Lemma fetchTalkStatus_cases w :
  let n := length (requests (trace w)) in
  let legacy := statusReq "https://api.d-id.com/talks/" auth id in
  let after d evs := mkWorld (now w + d) (responseCache w) (trace w ++ evs) in
  fetchTalkStatus env auth id w =
  match upstream env n (pollReq auth id) with
  | Rejected t m => (Exc (TypeError m), after (Z.of_N t) [EFetch (pollReq auth id)])
  | Resolved t r =>
      if ok r then (body_of r, after (Z.of_N t) [EFetch (pollReq auth id)])
      else
        let evs := [EFetch (pollReq auth id);
                    EConsole Warn [str "D-ID v1 status failed:"; str (res_text r)];
                    EFetch legacy] in
        (verdict (upstream env (S n) legacy),
         after (Z.of_N t + Z.of_N match upstream env (S n) legacy with
                                  | Rejected t' _ | Resolved t' _ => t'
                                  end) evs)
  end.
Proof.
  cbv zeta. unfold fetchTalkStatus, bind at 1. fold (pollReq auth id).
  destruct (upstream env (length (requests (trace w))) (pollReq auth id))
    as [t1 m1|t1 r1] eqn:Hup.
  - now rewrite (fetch_rejected _ _ _ _ _ Hup).
  - rewrite (fetch_resolved _ _ _ _ _ Hup). destruct (ok r1) eqn:Hok; cbn [negb].
    + unfold bind, ret. rewrite Hok. cbn [negb]. unfold parsed, body_of.
      now destruct (res_json r1).
    + unfold bind at 1, bind at 1, console, emit. cbn [now trace responseCache].
      unfold fetch. cbn [now trace responseCache].
      rewrite requests_console, requests_snoc, length_app, Nat.add_1_r. cbn [length].
      clear Hup.
      destruct (upstream env (S (length (requests (trace w)))) _) as [t2 m2|t2 r2];
        cbn [verdict].
      * rewrite <- !app_assoc, Z.add_assoc. reflexivity.
      * destruct (ok r2); cbn [negb]; unfold parsed, body_of, throw;
          [destruct (res_json r2)|]; cbn; rewrite <- !app_assoc, Z.add_assoc; reflexivity.
Qed.

(** A status check ends on one request, the primary one or, after a failed
    primary one, the legacy one; its result is the verdict on the answer to
    that request. *)
Lemma fetchTalkStatus_verdict w :
  let out := fetchTalkStatus env auth id w in
  let n := length (requests (trace w)) in
  exists before last,
    trace (snd out) = (trace w ++ before ++ [EFetch last])%list /\
    responseCache (snd out) = responseCache w /\
    (before = [] \/
     exists t r warned, before = [EFetch (pollReq auth id); EConsole Warn warned] /\
                        upstream env n (pollReq auth id) = Resolved t r /\ ok r = false) /\
    (exists prefix, last = statusReq prefix auth id) /\
    fst out = verdict (upstream env (length (requests (trace w ++ before))) last).
Proof.
  cbv zeta. rewrite fetchTalkStatus_cases. cbv zeta.
  destruct (upstream env (length (requests (trace w))) (pollReq auth id))
    as [t1 m1|t1 r1] eqn:Hup.
  - exists [], (pollReq auth id). rewrite app_nil_r, Hup. cbn. repeat split; eauto.
  - destruct (ok r1) eqn:Hok.
    + exists [], (pollReq auth id). rewrite app_nil_r, Hup. cbn. rewrite Hok.
      repeat split; eauto.
    + exists [EFetch (pollReq auth id);
              EConsole Warn [str "D-ID v1 status failed:"; str (res_text r1)]],
             (statusReq "https://api.d-id.com/talks/" auth id).
      cbn [fst snd trace responseCache].
      rewrite requests_app, length_app, Nat.add_1_r. cbn [requests flat_map app length].
      repeat split; eauto 10.
Qed.

(** Where a successfully answered request can sit in the events of a status
    check followed by [tail]: it is the request the check ends on, or it
    lies in [tail]. *)
Lemma locate_answered w before last tail pre sent post took r :
  (before = [] \/
   exists t r' warned, before = [EFetch (pollReq auth id); EConsole Warn warned] /\
     upstream env (length (requests (trace w))) (pollReq auth id) = Resolved t r' /\
     ok r' = false) ->
  (before ++ EFetch last :: tail = pre ++ EFetch sent :: post)%list ->
  upstream env (length (requests (trace w ++ pre))) sent = Resolved took r ->
  ok r = true ->
  (pre = before /\ sent = last /\ post = tail) \/
  (exists pre', pre = (before ++ EFetch last :: pre')%list /\
                tail = (pre' ++ EFetch sent :: post)%list).
Proof.
  intros [->|(t & r' & warned & -> & Hup & Hno)] Hsplit Hsent Hok.
  - cbn [app] in Hsplit.
    destruct (cons_split _ _ _ _ _ Hsplit) as [(-> & [= ->] & ->)|(pre' & -> & ->)]; eauto.
  - cbn [app] in Hsplit.
    destruct (cons_split _ _ _ _ _ Hsplit) as [(-> & [= <-] & _)|(p1 & -> & Hsplit1)].
    { rewrite app_nil_r, Hup in Hsent. injection Hsent as _ <-. congruence. }
    destruct (cons_split _ _ _ _ _ Hsplit1) as [(_ & [=] & _)|(p2 & -> & Hsplit2)].
    destruct (cons_split _ _ _ _ _ Hsplit2) as [(-> & [= ->] & ->)|(p3 & -> & ->)]; eauto.
Qed.

(** A poll answered with status error is the last event of the loop, and
    the loop returns the processing error made from that answer. *)
Lemma poll_error_stops f : forall lastStatus w,
  exists events,
    trace (snd (poll f env auth id startedAt lastStatus w)) = (trace w ++ events)%list /\
    forall pre sent post took r s,
      events = (pre ++ EFetch sent :: post)%list ->
      upstream env (length (requests (trace w ++ pre))) sent = Resolved took r ->
      ok r = true ->
      res_json r = Document s ->
      is_string "error" (member "status" s) = true ->
      post = [] /\
      fst (poll f env auth id startedAt lastStatus w) =
        Val (Some (Returned (processing_error (member "error" s) id))) /\
      exists prefix, sent = statusReq prefix auth id.
Proof.
  induction f as [|f IH]; intros lastStatus w.
  { exists []. cbn. split; [now rewrite app_nil_r|].
    intros [|] ? ? ? ? ? [=]. }
  remember (poll (S f) env auth id startedAt lastStatus w) as out eqn:Hout.
  cbn [poll] in Hout. unfold bind at 1, Date_now in Hout.
  destruct (now w - startedAt <? timeoutMs)%Z.
  2:{ exists []. subst out. cbn. split; [now rewrite app_nil_r|].
      intros [|] ? ? ? ? ? [=]. }
  destruct (fetchTalkStatus_verdict w) as (before & last & Htrace & _ & Hbefore & Hlast & Hres).
  cbv zeta in Htrace, Hres. unfold bind at 1 in Hout.
  destruct (fetchTalkStatus env auth id w) as [[s1|e] w1]; cbn [fst snd] in Htrace, Hres.
  2:{ exists (before ++ [EFetch last])%list. subst out. cbn [fst snd].
      split; [exact Htrace|].
      intros pre sent post took r s Hsplit Hsent Hok Hjson _.
      destruct (locate_answered w before last [] pre sent post took r Hbefore Hsplit Hsent Hok)
        as [(-> & -> & ->)|(pre' & _ & Hnil)]; [|now destruct pre'].
      rewrite Hsent in Hres. cbn in Hres. rewrite Hok in Hres. unfold body_of in Hres.
      rewrite Hjson in Hres. discriminate. }
  assert (Hanswer : forall pre sent took r s,
    upstream env (length (requests (trace w ++ pre))) sent = Resolved took r ->
    ok r = true -> res_json r = Document s -> pre = before -> sent = last -> s1 = s).
  { intros pre sent took r s Hsent Hok Hjson -> ->.
    rewrite Hsent in Hres. cbn in Hres. rewrite Hok in Hres. unfold body_of in Hres.
    rewrite Hjson in Hres. congruence. }
  unfold bind at 1 in Hout.
  destruct (prop "status" s1 w1) as [[st|e] w1'] eqn:Hprop.
  2:{ assert (s1 = JNull /\ w1' = w1) as [-> ->].
      { unfold prop, throw, ret in Hprop. destruct s1; split; congruence. }
      exists (before ++ [EFetch last])%list. subst out. cbn [fst snd].
      split; [exact Htrace|].
      intros pre sent post took r s Hsplit Hsent Hok Hjson Herr.
      destruct (locate_answered w before last [] pre sent post took r Hbefore Hsplit Hsent Hok)
        as [(Hp & Hl & ->)|(pre' & _ & Hnil)]; [|now destruct pre'].
      rewrite <- (Hanswer _ _ _ _ _ Hsent Hok Hjson Hp Hl) in Herr. discriminate. }
  assert (st = member "status" s1 /\ w1' = w1) as [-> ->].
  { unfold prop, throw, ret in Hprop. destruct s1; split; congruence. }
  clear Hprop.
  destruct (is_string "done" (member "status" s1) && truthy (member "result_url" s1))
    eqn:Hdone.
  { exists (before ++ [EFetch last])%list. subst out. cbn [ret fst snd].
    split; [exact Htrace|].
    intros pre sent post took r s Hsplit Hsent Hok Hjson Herr.
    destruct (locate_answered w before last [] pre sent post took r Hbefore Hsplit Hsent Hok)
      as [(Hp & Hl & ->)|(pre' & _ & Hnil)]; [|now destruct pre'].
    rewrite <- (Hanswer _ _ _ _ _ Hsent Hok Hjson Hp Hl) in Herr.
    apply andb_true_iff in Hdone as [Hdone _].
    rewrite (is_string_exclusive _ Hdone) in Herr. discriminate. }
  destruct (is_string "error" (member "status" s1)) eqn:Herror.
  { exists (before ++ [EFetch last])%list. subst out. cbn [ret fst snd].
    split; [exact Htrace|].
    intros pre sent post took r s Hsplit Hsent Hok Hjson Herr.
    destruct (locate_answered w before last [] pre sent post took r Hbefore Hsplit Hsent Hok)
      as [(Hp & Hl & ->)|(pre' & _ & Hnil)]; [|now destruct pre'].
    rewrite <- (Hanswer _ _ _ _ _ Hsent Hok Hjson Hp Hl).
    subst sent. split; [reflexivity|split; [reflexivity|exact Hlast]]. }
  unfold bind, sleep in Hout. cbn [now trace responseCache] in Hout.
  set (w2 := mkWorld _ _ _) in Hout.
  destruct (IH (member "status" s1) w2) as (events & Hevents & Hinv).
  exists (before ++ EFetch last :: ESleep intervalMs :: events)%list. subst out.
  split.
  { rewrite Hevents. subst w2. cbn [trace]. rewrite Htrace, <- !app_assoc. reflexivity. }
  intros pre sent post took r s Hsplit Hsent Hok Hjson Herr.
  destruct (locate_answered w before last _ pre sent post took r Hbefore Hsplit Hsent Hok)
    as [(Hp & Hl & _)|(pre' & -> & Htail)].
  { rewrite <- (Hanswer _ _ _ _ _ Hsent Hok Hjson Hp Hl) in Herr. congruence. }
  destruct (cons_split _ _ _ _ _ Htail) as [(_ & [=] & _)|(pre'' & -> & ->)].
  apply (Hinv pre'' sent post took r s eq_refl); try assumption.
  subst w2. cbn [trace]. rewrite Htrace.
  rewrite <- !app_assoc in *. cbn [app] in *. exact Hsent.
Qed.

Lemma fetchTalkStatus_check w :
  fst (fetchTalkStatus env auth id w) =
  status_check env auth id (length (requests (trace w))).
Proof.
  rewrite fetchTalkStatus_cases. cbv zeta. unfold status_check.
  destruct (upstream env _ (pollReq auth id)) as [t m|t r]; [reflexivity|].
  now destruct (ok r).
Qed.

(** A status check sends one request or two and awaits no delay. *)
Lemma fetchTalkStatus_sends w :
  (length (requests (trace w)) < length (requests (trace (snd (fetchTalkStatus env auth id w)))))%nat /\
  naps (trace (snd (fetchTalkStatus env auth id w))) = naps (trace w).
Proof.
  destruct (fetchTalkStatus_verdict w) as (before & last & Htrace & _ & Hbefore & _).
  cbv zeta in Htrace. rewrite Htrace. unfold naps. rewrite requests_app, !flat_map_app, length_app.
  destruct Hbefore as [->|(t & r & warned & -> & _)]; cbn; rewrite ?app_nil_r; split; (lia || reflexivity).
Qed.

(** One evaluation of the loop condition and, when it holds, one pass. *)
Lemma poll_unfold f lastStatus w :
  poll (S f) env auth id startedAt lastStatus w =
  if (now w - startedAt <? timeoutMs)%Z then
    match fetchTalkStatus env auth id w with
    | (Exc e, w1) => (Exc e, w1)
    | (Val s, w1) =>
        if goes_on (Val s)
        then poll f env auth id startedAt (member "status" s) (slept env w1)
        else (leaves id (Val s), w1)
    end
  else (Val (Some (Fell undefined lastStatus)), w).
Proof.
  cbn [poll]. unfold bind at 1, Date_now.
  destruct (now w - startedAt <? timeoutMs)%Z; [|reflexivity].
  unfold bind at 1. destruct (fetchTalkStatus env auth id w) as [[s|e] w1]; [|reflexivity].
  unfold bind at 1, prop. cbn [goes_on leaves]. unfold keeps_polling.
  destruct s; cbn [throw ret]; try reflexivity.
  all: destruct (is_string "done" _ && truthy _); cbn [negb andb]; [reflexivity|].
  all: destruct (is_string "error" _); cbn [negb]; reflexivity.
Qed.

(** A status check sends as many requests as [check_size] says, so the
    next one starts where [check_start] says. *)
Lemma fetchTalkStatus_size w :
  length (requests (trace (snd (fetchTalkStatus env auth id w)))) =
  check_start env auth id (length (requests (trace w))) 1.
Proof.
  rewrite fetchTalkStatus_cases. cbv zeta. cbn [check_start]. unfold check_size.
  destruct (upstream env _ (pollReq auth id)) as [t m|t r]; cbn [snd trace].
  - rewrite requests_snoc, length_app. reflexivity.
  - destruct (ok r); cbn [snd trace]; rewrite requests_app, length_app; reflexivity.
Qed.

Lemma check_start_ge k : forall n, (n + k <= check_start env auth id n k)%nat.
Proof.
  induction k as [|k IH]; intros n; cbn [check_start]; [lia|].
  specialize (IH (n + check_size env auth id n)%nat).
  assert (1 <= check_size env auth id n)%nat; [|lia].
  unfold check_size. destruct (upstream env n _) as [t m|t r]; [lia|]. destruct (ok r); lia.
Qed.

(** The run of the loop, check by check.  With at most [f] intervals to the
    deadline the loop makes its checks one after the other, sleeping one
    interval after each check that lets it go on, and it ends in one of two
    ways: at the deadline, after [k] checks that all let it go on, with no
    result URL and the status shown by the last of them; or on check [k],
    the first that does not let it go on, as that check has it. *)
Lemma poll_run f : forall lastStatus w,
  startedAt + timeoutMs - now w <= intervalMs * Z.of_nat f ->
  exists (k : nat) r w',
    poll (S f) env auth id startedAt lastStatus w = (r, w') /\
    (k <= f)%nat /\
    (forall i, (i < k)%nat ->
       goes_on (nth_check env auth id (length (requests (trace w))) i) = true) /\
    naps (trace w') = (naps (trace w) ++ replicate k intervalMs)%list /\
    ((r = Val (Some (Fell undefined
            match k with
            | O => lastStatus
            | S k' => shown (nth_check env auth id (length (requests (trace w))) k')
            end)) /\
      (now w - startedAt < timeoutMs -> (1 <= k)%nat) /\
      length (requests (trace w')) =
        check_start env auth id (length (requests (trace w))) k /\
      startedAt + timeoutMs <= now w') \/
     (goes_on (nth_check env auth id (length (requests (trace w))) k) = false /\
      r = leaves id (nth_check env auth id (length (requests (trace w))) k) /\
      length (requests (trace w')) =
        check_start env auth id (length (requests (trace w))) (S k))).
Proof.
  induction f as [|f IH]; intros lastStatus w Hleft; rewrite poll_unfold.
  - destruct (Z.ltb_spec (now w - startedAt) timeoutMs) as [Hlt|Hge];
      [unfold intervalMs in Hleft; lia|].
    exists 0%nat; do 2 eexists; split; [reflexivity|]. split; [lia|]. split; [lia|].
    split; [now rewrite app_nil_r|]. left. repeat split; (reflexivity || lia).
  - destruct (Z.ltb_spec (now w - startedAt) timeoutMs) as [Hlt|Hge].
    2:{ exists 0%nat; do 2 eexists; split; [reflexivity|]. split; [lia|]. split; [lia|].
        split; [now rewrite app_nil_r|]. left. repeat split; (reflexivity || lia). }
    pose proof (fetchTalkStatus_check w) as Hcheck.
    pose proof (fetchTalkStatus_size w) as Hsize.
    pose proof (fetchTalkStatus_clock w) as Hclock.
    destruct (fetchTalkStatus_sends w) as [_ Hnaps].
    set (n := length (requests (trace w))) in *.
    destruct (fetchTalkStatus env auth id w) as [r1 w1]; cbn [fst snd] in *.
    destruct r1 as [s|e].
    2:{ exists 0%nat; do 2 eexists; split; [reflexivity|]. split; [lia|]. split; [lia|].
        split; [now rewrite Hnaps, app_nil_r|]. right. unfold nth_check. cbn [check_start].
        rewrite <- Hcheck. repeat split. exact Hsize. }
    destruct (goes_on (Val s)) eqn:Hgo.
    2:{ exists 0%nat; do 2 eexists; split; [reflexivity|]. split; [lia|]. split; [lia|].
        split; [now rewrite Hnaps, app_nil_r|]. right. unfold nth_check. cbn [check_start].
        rewrite <- Hcheck. repeat split; [exact Hgo|exact Hsize]. }
    destruct (IH (member "status" s) (slept env w1)) as (k & r & w' & Hrun & Hk & Hprev & Hnap & Hend).
    { cbn [slept now]. unfold intervalMs in *. lia. }
    assert (Hn : length (requests (trace (slept env w1))) = check_start env auth id n 1).
    { cbn [slept trace]. now rewrite requests_sleep. }
    rewrite Hn in Hprev, Hend.
    assert (Hnth : forall i, nth_check env auth id (check_start env auth id n 1) i =
                             nth_check env auth id n (S i)) by reflexivity.
    assert (H0 : nth_check env auth id n 0 = Val s) by (symmetry; exact Hcheck).
    exists (S k), r, w'. split; [exact Hrun|]. split; [lia|].
    split.
    { intros [|i] Hi; [now rewrite H0|]. rewrite <- Hnth. apply Hprev. lia. }
    split.
    { rewrite Hnap. cbn [slept trace]. rewrite naps_sleep, Hnaps, <- app_assoc. reflexivity. }
    destruct Hend as [(-> & _ & Hlen & Hlate)|(Hlast & -> & Hlen)].
    + left. split.
      { destruct k as [|k']; [now rewrite H0|]. now rewrite <- Hnth. }
      split; [lia|]. split; [exact Hlen|exact Hlate].
    + right. rewrite <- Hnth. repeat split; [exact Hlast|exact Hlen].
Qed.

(** The bound on the loop is never hit: with [f] delays left before the
    deadline, [S f] evaluations of the condition are enough. *)
Lemma poll_bounded f : forall lastStatus w,
  startedAt + timeoutMs - now w <= intervalMs * Z.of_nat f ->
  fst (poll (S f) env auth id startedAt lastStatus w) <> Val None.
Proof.
  unfold intervalMs.
  induction f as [|f IH]; intros lastStatus w Hleft.
  - cbn [poll]. unfold bind, Date_now.
    destruct (Z.ltb_spec (now w - startedAt) timeoutMs) as [Hlt|Hge]; [lia|]. discriminate.
  - change (poll (S (S f)) env auth id startedAt lastStatus w)
      with ((let! t := Date_now in
             if (t - startedAt <? timeoutMs)%Z then
               let! s := fetchTalkStatus env auth id in
               let! s_status := prop "status" s in
               if is_string "done" s_status && truthy (member "result_url" s) then
                 ret (Some (Fell (member "result_url" s) s_status))
               else if is_string "error" s_status then
                 ret (Some (Returned (processing_error (member "error" s) id)))
               else
                 run sleep env intervalMs in
                 poll (S f) env auth id startedAt s_status
             else ret (Some (Fell undefined lastStatus))) w).
    unfold bind at 1, Date_now.
    destruct (Z.ltb_spec (now w - startedAt) timeoutMs) as [Hlt|Hge]; [|discriminate].
    unfold bind at 1. pose proof (fetchTalkStatus_clock w) as Hclock.
    destruct (fetchTalkStatus env auth id w) as [[s|e] w1]; [|discriminate].
    cbn [snd] in Hclock. unfold bind at 1.
    destruct (prop "status" s w1) as [[st|e] w2] eqn:Hprop; [|discriminate].
    assert (w2 = w1) as ->.
    { unfold prop, throw, ret in Hprop. destruct s; congruence. }
    destruct (is_string "done" st && truthy (member "result_url" s)); [discriminate|].
    destruct (is_string "error" st); [discriminate|].
    unfold bind, sleep. apply IH. cbn [now]. unfold intervalMs. lia.
Qed.

End Polling.

Section Invocation.

Variable env : Env.

(** Before the submission the handler only writes to the console. *)
Lemma POST_inputs_events request_json w :
  exists events,
    snd (POST_inputs env request_json w) =
      mkWorld (now w) (responseCache w) (trace w ++ events) /\
    Forall (fun e => is_poll e = false) events /\
    requests events = [].
Proof.
  unfold POST_inputs, bind at 1, console, emit. cbn [now trace responseCache].
  destruct (negb _ && negb _).
  { unfold bind, ret. cbn [snd now trace responseCache]. eexists [_; _].
    rewrite <- app_assoc. repeat split. repeat constructor. }
  unfold bind at 1.
  destruct request_json as [m|body]; cbn [parsed throw ret].
  { eexists [_]. repeat split. repeat constructor. }
  unfold bind at 1.
  destruct (chain (member "text") (Some body)) as [[]|]; cbn [chain_trim throw ret].
  all: try (eexists [_]; repeat split; repeat constructor; fail).
  all: destruct (negb _); [eexists [_]; repeat split; repeat constructor; fail|].
  all: unfold bind at 1.
  all: destruct (chain (member "source_url") (Some body)) as [[]|]; cbn [chain_trim throw ret].
  all: try (eexists [_]; repeat split; repeat constructor; fail).
  all: unfold bind at 1.
  all: destruct (chain (member "voice_id") (Some body)) as [[]|]; cbn [chain_trim throw ret].
  all: eexists [_]; repeat split; repeat constructor.
Qed.

Lemma cascade_events fallbacks : forall tier w,
  method tier = "POST" ->
  Forall (fun next => method (snd next) = "POST") fallbacks ->
  exists events,
    trace (snd (cascade env tier fallbacks w)) = (trace w ++ events)%list /\
    Forall (fun e => is_poll e = false) events.
Proof.
  induction fallbacks as [|[label next] rest IH]; intros tier w Htier Hrest.
  - exists [EFetch tier]. split; [|repeat constructor; cbn; now rewrite Htier].
    cbn [cascade]. unfold bind, fetch.
    destruct (upstream env _ tier) as [t m|t r]; cbn [snd trace]; [reflexivity|].
    destruct (ok r); [|reflexivity]. unfold parsed. now destruct (res_json r).
  - apply Forall_cons in Hrest as [Hnext Hrest]. cbn [snd] in Hnext.
    destruct (upstream env (length (requests (trace w))) tier) as [t m|t r] eqn:Hup.
    + exists [EFetch tier]. split; [|repeat constructor; cbn; now rewrite Htier].
      cbn [cascade]. unfold bind. now rewrite (fetch_rejected _ _ _ _ _ Hup).
    + destruct (ok r) eqn:Hok.
      * exists [EFetch tier]. split; [|repeat constructor; cbn; now rewrite Htier].
        cbn [cascade]. unfold bind. rewrite (fetch_resolved _ _ _ _ _ Hup), Hok.
        unfold parsed. now destruct (res_json r).
      * rewrite (cascade_fail_step _ _ _ _ _ _ _ _ Hup Hok).
        destruct (IH next (mkWorld (now w + Z.of_N t) (responseCache w)
          (trace w ++ [EFetch tier; EConsole Warn [str label; str (res_text r)]]))
          Hnext Hrest) as (events & Htrace & Hquiet).
        exists (EFetch tier :: EConsole Warn [str label; str (res_text r)] :: events).
        split; [rewrite Htrace; cbn [trace]; now rewrite <- app_assoc|].
        repeat constructor; [cbn; now rewrite Htier|exact Hquiet].
Qed.

(** The submission sends POST requests only. *)
Lemma POST_create_events auth text sourceUrl voiceId w :
  exists events,
    trace (snd (POST_create env auth text sourceUrl voiceId w)) = (trace w ++ events)%list /\
    Forall (fun e => is_poll e = false) events.
Proof.
  unfold POST_create, bind at 1, console, emit. cbn [now trace responseCache].
  set (w0 := mkWorld _ _ _). unfold bind at 1. rewrite createTalk_cascade.
  destruct (cascade_events (fallbacks auth text sourceUrl voiceId)
              (tier1 auth text sourceUrl) w0 eq_refl) as (events & Htrace & Hquiet).
  { repeat constructor. }
  destruct (cascade env _ _ w0) as [[created|e] w1]; cbn [snd] in Htrace.
  - unfold bind at 1, destructure. destruct created; cbn [throw ret].
    1: exists (EConsole Log [str "Creating D-ID talk with text:";
                             str (substring0 50 text +:+ "...")] :: events).
    2-6: eexists (EConsole Log [str "Creating D-ID talk with text:";
                                str (substring0 50 text +:+ "...")] :: events ++ [_])%list.
    all: unfold bind, ret; cbn [snd trace]; rewrite ?Htrace; subst w0; cbn [trace];
      rewrite <- ?app_assoc; (split; [reflexivity|]).
    all: repeat constructor; try exact Hquiet.
    all: apply Forall_app; split; [exact Hquiet|repeat constructor].
  - exists (EConsole Log [str "Creating D-ID talk with text:";
                          str (substring0 50 text +:+ "...")] :: events).
    cbn [snd]. rewrite Htrace. subst w0. cbn [trace]. rewrite <- app_assoc.
    split; [reflexivity|]. repeat constructor. exact Hquiet.
Qed.

(** The video route never touches the cache of the text route. *)
Lemma cascade_cache fallbacks : forall tier w,
  responseCache (snd (cascade env tier fallbacks w)) = responseCache w.
Proof.
  induction fallbacks as [|[label next] rest IH]; intros tier w;
    cbn [cascade]; unfold bind at 1, fetch;
    destruct (upstream env _ tier) as [t m|t r]; try reflexivity;
    destruct (ok r); try (unfold parsed; destruct (res_json r); reflexivity).
  unfold bind, console, emit. cbn [now trace responseCache]. now rewrite IH.
Qed.

Lemma poll_cache auth id startedAt f : forall lastStatus w,
  responseCache (snd (poll f env auth id startedAt lastStatus w)) = responseCache w.
Proof.
  induction f as [|f IH]; intros lastStatus w; [reflexivity|].
  cbn [poll]. unfold bind at 1, Date_now.
  destruct (now w - startedAt <? timeoutMs)%Z; [|reflexivity].
  destruct (fetchTalkStatus_verdict env auth id w) as (_ & _ & _ & Hcache & _).
  cbv zeta in Hcache. unfold bind at 1.
  destruct (fetchTalkStatus env auth id w) as [[s|e] w1]; cbn [snd] in Hcache;
    [|exact Hcache].
  unfold bind at 1, prop. destruct s; cbn [throw ret]; try exact Hcache.
  all: destruct (_ && _); [exact Hcache|].
  all: destruct (is_string "error" _); [exact Hcache|].
  all: unfold bind, sleep; rewrite IH; exact Hcache.
Qed.

Lemma poll_bound_eq : poll_bound = 26%nat.
Proof. reflexivity. Qed.

(** The last part of POST, by the way the loop is left. *)
Lemma POST_poll_exit auth id w :
  POST_poll env auth id w =
  match poll poll_bound env auth id (now w) (str "") w with
  | (Val None, w') => (Val None, w')
  | (Val (Some (Returned r)), w') => (Val (Some r), w')
  | (Val (Some (Fell resultUrl lastStatus)), w') =>
      (Val (Some (if negb (truthy resultUrl) then timed_out id lastStatus
                  else mkHttp 200 [("id", id); ("videoUrl", resultUrl)])), w')
  | (Exc e, w') => (Exc e, w')
  end.
Proof.
  unfold POST_poll, bind at 1, Date_now, bind.
  destruct (poll _ _ _ _ _ _ w) as [[[[url st|r]|]|e] w']; try reflexivity.
  now destruct (negb (truthy url)).
Qed.

Lemma POST_cache request_json w :
  responseCache (snd (POST env request_json w)) = responseCache w.
Proof.
  unfold POST, POST_try, try_catch, bind at 1.
  destruct (POST_inputs_events request_json w) as (ev1 & Hw1 & _).
  destruct (POST_inputs env request_json w)
    as [[[answer|[[[auth text] sourceUrl] voiceId]]|e] w1]; cbn [snd] in Hw1; subst w1;
    try reflexivity.
  unfold bind at 1, POST_create, bind at 1, console, emit. cbn [now trace responseCache].
  unfold bind at 1. rewrite createTalk_cascade.
  set (w1 := mkWorld _ _ _).
  pose proof (cascade_cache (fallbacks auth text sourceUrl voiceId)
                (tier1 auth text sourceUrl) w1) as Hc.
  destruct (cascade env _ _ w1) as [[created|e] w2]; cbn [snd] in Hc; [|exact Hc].
  unfold bind at 1, destructure. destruct created; cbn [throw ret]; try exact Hc.
  all: unfold bind at 1, ret; cbn [now trace responseCache].
  all: rewrite POST_poll_exit.
  all: match goal with
       | |- context [poll ?f env ?a ?i ?t ?l ?w0] =>
           pose proof (poll_cache a i t f l w0) as Hp;
           destruct (poll f env a i t l w0) as [[[[url st|resp]|]|e] w3];
           cbn [snd responseCache] in *; rewrite Hp; exact Hc
       end.
Qed.

(** POST always answers: the bound on the loop is never hit. *)
Lemma POST_total request_json w : fst (POST env request_json w) <> None.
Proof.
  unfold POST, POST_try, try_catch, bind at 1.
  destruct (POST_inputs env request_json w) as [[[answer|[[[auth text] sourceUrl] voiceId]]|e] w1];
    [discriminate| |discriminate].
  unfold bind.
  destruct (POST_create env auth text sourceUrl voiceId w1) as [[id|e] w2]; [|discriminate].
  rewrite POST_poll_exit, poll_bound_eq.
  pose proof (poll_bounded env auth id (now w2) 25 (str "") w2) as Hbound.
  destruct (poll 26 env auth id (now w2) (str "") w2) as [[[[url st|r]|]|e] w3];
    cbn [fst] in *; try discriminate.
  exfalso. apply Hbound; [|reflexivity]. unfold timeoutMs, intervalMs. lia.
Qed.

(** C4. A poll that the upstream answers successfully with status error is
    the last effect of the invocation: no request, delay or console output
    follows it, and POST answers status 502 with that answer's error member
    as detail and the job id the poll was made for. *)
Theorem error_status_stops_polling request_json w pre sent post took r s :
  let out := POST env request_json w in
  trace (snd out) = (trace w ++ pre ++ EFetch sent :: post)%list ->
  method sent = "GET" ->
  upstream env (length (requests (trace w ++ pre))) sent = Resolved took r ->
  ok r = true ->
  res_json r = Document s ->
  is_string "error" (member "status" s) = true ->
  post = [] /\
  exists prefix auth id,
    sent = statusReq prefix auth id /\
    fst out = Some (mkHttp 502 [("error", str "D-ID processing error");
                                ("detail", member "error" s);
                                ("id", id)]).
Proof.
  intros out Htrace Hget Hsent Hok Hjson Herr.
  assert (Hpoll : is_poll (EFetch sent) = true) by (cbn; now rewrite Hget).
  assert (Hout : out = POST env request_json w) by reflexivity. clearbody out.
  unfold POST, POST_try, try_catch, bind at 1 in Hout.
  destruct (POST_inputs_events request_json w) as (ev1 & Hw1 & Hq1 & _).
  destruct (POST_inputs env request_json w)
    as [[[answer|[[[auth text] sourceUrl] voiceId]]|e] w1]; cbn [snd] in Hw1; subst w1.
  1,3: subst out; cbn [snd trace ret] in Htrace; apply app_inv_head in Htrace;
       rewrite <- (app_nil_r ev1) in Htrace;
       destruct (split_after _ _ _ _ _ _ Htrace Hq1 Hpoll) as (pre' & _ & Hnil);
       now destruct pre'.
  set (w1 := mkWorld _ _ _) in *. unfold bind at 1 in Hout.
  destruct (POST_create_events auth text sourceUrl voiceId w1) as (ev2 & Hw2 & Hq2).
  assert (Hq12 : Forall (fun e => is_poll e = false) (ev1 ++ ev2))
    by (apply Forall_app; split; assumption).
  destruct (POST_create env auth text sourceUrl voiceId w1) as [[id|e] w2]; cbn [snd] in Hw2.
  2:{ subst out. cbn [snd] in Htrace. rewrite Hw2 in Htrace. subst w1. cbn [trace] in Htrace.
      rewrite <- app_assoc in Htrace. apply app_inv_head in Htrace.
      rewrite <- (app_nil_r (ev1 ++ ev2)) in Htrace.
      destruct (split_after _ _ _ _ _ _ Htrace Hq12 Hpoll) as (pre' & _ & Hnil).
      now destruct pre'. }
  rewrite POST_poll_exit in Hout.
  destruct (poll_error_stops env auth id (now w2) poll_bound (str "") w2)
    as (ev3 & Hw3 & Hinv).
  assert (Hw : trace (snd (poll poll_bound env auth id (now w2) (str "") w2)) =
               (trace w ++ pre ++ EFetch sent :: post)%list).
  { rewrite <- Htrace, Hout.
    now destruct (poll _ _ _ _ _ _ w2) as [[[[url st|resp]|]|e] w3]. }
  rewrite Hw3, Hw2 in Hw. subst w1. cbn [trace] in Hw.
  rewrite <- !app_assoc in Hw. apply app_inv_head in Hw. rewrite app_assoc in Hw.
  destruct (split_after _ _ _ _ _ _ Hw Hq12 Hpoll) as (pre' & -> & Hev3).
  destruct (Hinv pre' sent post took r s Hev3) as (Hpost & Hres & prefix & Hurl);
    try assumption.
  { rewrite Hw2. cbn [trace]. rewrite <- !app_assoc in *. exact Hsent. }
  split; [exact Hpost|]. exists prefix, auth, id. split; [exact Hurl|].
  subst out.
  destruct (poll _ _ _ _ _ _ w2) as [[[[url st|resp]|]|e] w3]; cbn [fst] in *;
    try discriminate.
  injection Hres as ->. reflexivity.
Qed.

(** C5. Once a job is submitted, if every status check the loop makes
    comes to a status on which the loop goes on (pending, or any status
    that is neither done with a result URL nor error), the loop ends at the
    deadline: m checks are made, between 1 and 25, each followed by the
    1200 ms delay and each starting where the one before it ended, at
    least timeoutMs have passed since the polling began when POST answers,
    and the answer is status 504 with the job id and the status shown by
    check m, the last one made, which is "pending" when every check showed
    "pending". *)
Theorem pending_until_deadline request_json w auth text sourceUrl voiceId w1 id w2 :
  POST_inputs env request_json w = (Val (inr (auth, text, sourceUrl, voiceId)), w1) ->
  POST_create env auth text sourceUrl voiceId w1 = (Val id, w2) ->
  let n := length (requests (trace w2)) in
  (forall k, goes_on (status_check env auth id (check_start env auth id n k)) = true) ->
  exists m w',
    (1 <= m <= 25)%nat /\
    POST env request_json w =
      (Some (mkHttp 504 [("error", str "Timeout waiting for video");
                         ("id", id);
                         ("status", shown (status_check env auth id
                                             (check_start env auth id n (m - 1))))]),
       w') /\
    length (requests (trace w')) = check_start env auth id n m /\
    (n + m <= length (requests (trace w')))%nat /\
    naps (trace w') = (naps (trace w2) ++ replicate m intervalMs)%list /\
    now w2 + timeoutMs <= now w' /\
    ((forall k, shown (status_check env auth id (check_start env auth id n k)) =
                str "pending") ->
     fst (POST env request_json w) =
       Some (mkHttp 504 [("error", str "Timeout waiting for video");
                         ("id", id);
                         ("status", str "pending")])).
Proof.
  intros Hin Hcreate n Hpending.
  destruct (poll_run env auth id (now w2) 25 (str "") w2)
    as (k & r & w' & Hrun & Hk & _ & Hnap & Hend).
  { unfold timeoutMs, intervalMs. lia. }
  fold n in Hend.
  destruct Hend as [(-> & Hone & Hlen & Hlate)|(Hlast & _)].
  2:{ unfold nth_check in Hlast. rewrite Hpending in Hlast. discriminate. }
  assert (1 <= k)%nat by (apply Hone; unfold timeoutMs; lia).
  destruct k as [|k]; [lia|]. unfold nth_check in Hrun.
  assert (Hanswer : POST env request_json w =
    (Some (timed_out id (shown (status_check env auth id (check_start env auth id n k)))),
     w')).
  { unfold POST, POST_try, try_catch, bind at 1. rewrite Hin. unfold bind at 1.
    rewrite Hcreate, POST_poll_exit, poll_bound_eq, Hrun. reflexivity. }
  exists (S k), w'. replace (S k - 1)%nat with k by lia.
  pose proof (check_start_ge env auth id (S k) n) as Hge. rewrite <- Hlen in Hge.
  repeat split; try assumption; try lia.
  intros Hstatus. rewrite Hanswer, Hstatus. reflexivity.
Qed.

End Invocation.

Lemma submission_cascade_witness :
  fst (createTalk flaky key_auth "Hello" DEFAULT_SOURCE_URL DEFAULT_VOICE_ID boot) =
    Val (job "job4") /\
  requests (trace (snd (createTalk flaky key_auth "Hello" DEFAULT_SOURCE_URL
                          DEFAULT_VOICE_ID boot))) =
    (let h := [("Content-Type", "application/json"); ("x-api-key", "key")] in
     let minimal :=
       JObj [("script", JObj [("type", JStr "text"); ("input", JStr "Hello")]);
             ("source_url", JStr DEFAULT_SOURCE_URL)] in
     let voiced :=
       JObj [("script", JObj [("type", JStr "text"); ("input", JStr "Hello");
                              ("provider", JObj [("type", JStr "microsoft");
                                                 ("voice_id", JStr "en-US-JennyNeural")])]);
             ("source_url", JStr DEFAULT_SOURCE_URL)] in
     [mkRequest (Literal "https://api.d-id.com/v1/talks") "POST" h (Some minimal);
      mkRequest (Literal "https://api.d-id.com/v1/talks") "POST" h (Some voiced);
      mkRequest (Literal "https://api.d-id.com/talks") "POST" h (Some minimal);
      mkRequest (Literal "https://api.d-id.com/talks") "POST" h (Some voiced)]) /\
  fst (POST_create flaky key_auth "Hello" DEFAULT_SOURCE_URL DEFAULT_VOICE_ID boot) =
    Val (str "job4").
Proof.
  assert (Hfail : forall i rq, (i < 3)%nat ->
            tiers key_auth "Hello" DEFAULT_SOURCE_URL DEFAULT_VOICE_ID !! i = Some rq ->
            exists t r, upstream flaky (length (requests (trace boot)) + i) rq = Resolved t r /\
                        ok r = false).
  { intros i rq Hi _. destruct i as [|[|[|i]]]; [| | |lia]; eexists _, _; split; reflexivity. }
  destruct (submission_cascade flaky key_auth "Hello" DEFAULT_SOURCE_URL DEFAULT_VOICE_ID
              boot 3 5%N (mkResponse 200 "" (Document (job "job4")))
              ltac:(lia) Hfail ltac:(intros rq _; reflexivity) eq_refl)
    as (Hts & Hres & Hsent & Hid & _).
  split; [exact Hres|]. split; [rewrite Hsent, Hts; reflexivity|].
  apply (Hid (job "job4")); [reflexivity|discriminate].
Defined.

Lemma basic_auth_precedence_witness :
  buildAuthHeaders both_auth =
  [("Content-Type", "application/json"); ("Authorization", "Basic abc")].
Proof. exact (proj1 (basic_auth_precedence chatty both_auth eq_refl eq_refl)). Defined.

(** C3 as stated fails: with the four tiers refusing, the caller gets
    status 500 and the generic error, not an upstream error with 502. *)
Lemma exhausted_cascade_is_not_502 :
  let answer := fst (POST refusing (Document (saying "Hello")) boot) in
  Forall (fun o => match o with Resolved _ r => ok r = false | Rejected _ _ => False end)
         (map (fun n => upstream refusing n
                 (nth n (tiers key_auth "Hello" DEFAULT_SOURCE_URL DEFAULT_VOICE_ID)
                        (pollReq key_auth undefined)))
              [0; 1; 2; 3]%nat) /\
  answer = Some (mkHttp 500 [("error", str "Request failed");
                             ("detail", str "Error: D-ID create error: e4")]) /\
  code <$> answer <> Some 502.
Proof. repeat split; repeat constructor. discriminate. Qed.

Lemma exhausted_cascade_is_request_failed_witness :
  fst (POST refusing (Document (saying "Hello")) boot) =
  Some (mkHttp 500 [("error", str "Request failed");
                    ("detail", str "Error: D-ID create error: e4")]).
Proof.
  rewrite (exhausted_cascade_is_request_failed refusing (Document (saying "Hello")) boot
             key_auth "Hello" DEFAULT_SOURCE_URL DEFAULT_VOICE_ID (hello_read refusing)
             5%N (mkResponse 500 "e1" (Malformed "Unexpected token"))
             5%N (mkResponse 500 "e2" (Malformed "Unexpected token"))
             5%N (mkResponse 500 "e3" (Malformed "Unexpected token"))
             5%N (mkResponse 500 "e4" (Malformed "Unexpected token"))
             eq_refl eq_refl eq_refl eq_refl eq_refl eq_refl eq_refl eq_refl eq_refl).
  reflexivity.
Defined.

Lemma error_status_stops_polling_witness :
  exists prefix auth id,
    pollReq key_auth (str "job123") = statusReq prefix auth id /\
    fst (POST erring (Document (saying "Hello")) boot) =
      Some (mkHttp 502 [("error", str "D-ID processing error");
                        ("detail", str "boom");
                        ("id", id)]).
Proof.
  exact (proj2 (error_status_stops_polling erring (Document (saying "Hello")) boot
                  erring_before (pollReq key_auth (str "job123")) [] 5%N
                  (mkResponse 200 ""
                     (Document (JObj [("status", JStr "error"); ("error", JStr "boom")])))
                  (JObj [("status", JStr "error"); ("error", JStr "boom")])
                  eq_refl eq_refl eq_refl eq_refl eq_refl eq_refl)).
Defined.

Lemma pending_until_deadline_witness :
  exists w',
    POST progressing (Document (saying "Hello")) boot =
      (Some (mkHttp 504 [("error", str "Timeout waiting for video");
                         ("id", str "job123");
                         ("status", str "started")]),
       w') /\
    length (requests (trace w')) = 27%nat /\
    naps (trace w') = replicate 25 1200.
Proof.
  assert (Hgo : forall k,
            goes_on (status_check progressing key_auth (str "job123")
                       (check_start progressing key_auth (str "job123")
                          (length (requests (trace (hello_submitted progressing)))) k)) = true).
  { intros [|k]; [reflexivity|].
    change (check_start progressing key_auth (str "job123")
              (length (requests (trace (hello_submitted progressing)))) (S k))
      with (check_start progressing key_auth (str "job123") 3 k).
    pose proof (check_start_ge progressing key_auth (str "job123") k 3) as Hge.
    destruct (check_start progressing key_auth (str "job123") 3 k) as [|[|[|[|p]]]];
      [lia|lia|lia|reflexivity|reflexivity]. }
  destruct (pending_until_deadline progressing (Document (saying "Hello")) boot
              key_auth "Hello" DEFAULT_SOURCE_URL DEFAULT_VOICE_ID
              (hello_read progressing) (str "job123") (hello_submitted progressing)
              eq_refl eq_refl Hgo)
    as (m & w' & _ & Hanswer & Hsent & _ & Hnaps & _).
  assert (Hcount : length (naps (trace (snd (POST progressing (Document (saying "Hello"))
                                               boot)))) = 25%nat)
    by (vm_compute; reflexivity).
  rewrite Hanswer in Hcount. cbn [snd] in Hcount.
  rewrite Hnaps, length_app, length_replicate in Hcount.
  change (length (naps (trace (hello_submitted progressing)))) with 0%nat in Hcount.
  cbn [Nat.add] in Hcount. subst m.
  exists w'. split; [exact Hanswer|]. split; [exact Hsent|exact Hnaps].
Defined.

End DidTalkSpec.

(** ** Properties of the cache over the life of the process *)

Module CacheSpec.
Import Gemini Process Fixtures RuntimeFacts GeminiSpec.

Lemma reached_inv env w : reached env w -> cache_inv env w.
Proof.
  induction 1 as [t events|rq w _ IH|rq w _ IH|d w _ IH].
  - apply cache_inv_empty.
  - now apply cache_inv_POST.
  - intros k c. rewrite DidTalkSpec.POST_cache. apply IH.
  - now apply cache_inv_later.
Qed.

(** C1. In every state the process can reach: when the cache holds, under the
    trimmed and lower-cased text of the request, an entry younger than
    CACHE_DURATION, POST answers with the stored reply and leaves the world
    as it is (no fetch, no cache write).  Consequently, when a call has
    answered with a reply after reaching the upstream once, a call with the
    same normalized text within the TTL of that answer gets the same reply
    and sends nothing: one upstream request over the two calls. *)
Theorem cache_hit_idempotent env :
  (forall body s w c,
      reached env w ->
      member "text" body = Some (JStr s) ->
      responseCache w !! toLowerCase (trim s) = Some c ->
      now w - timestamp c < CACHE_DURATION ->
      POST env (Document body) w =
        (mkHttp 200 [("reply", Some (response c))], w))
  /\
  (forall body1 body2 s1 s2 w reply w1 (d : N),
      member "text" body1 = Some (JStr s1) ->
      member "text" body2 = Some (JStr s2) ->
      toLowerCase (trim s2) = toLowerCase (trim s1) ->
      POST env (Document body1) w = (mkHttp 200 [("reply", Some reply)], w1) ->
      length (requests (trace w1)) = S (length (requests (trace w))) ->
      Z.of_N d < CACHE_DURATION ->
      POST env (Document body2) (later d w1) =
        (mkHttp 200 [("reply", Some reply)], later d w1)).
Proof.
  assert (Hhit : forall body s w c,
      present (GOOGLE_GENERATIVE_API_KEY env) = true ->
      nonempty (trim s) = true ->
      member "text" body = Some (JStr s) ->
      responseCache w !! toLowerCase (trim s) = Some c ->
      now w - timestamp c < CACHE_DURATION ->
      POST env (Document body) w = (replying (response c), w)).
  { intros body s w c Hkey Hs Htext Hc Hage. rewrite (POST_lookup env Hkey _ _ _ Htext Hs), Hc.
    apply Z.ltb_lt in Hage. now rewrite Hage. }
  split.
  - intros body s w c Hw%reached_inv Htext Hc Hage. destruct (Hw _ _ Hc) as [Hkey Hs].
    rewrite toLowerCase_nonempty in Hs. exact (Hhit body s w c Hkey Hs Htext Hc Hage).
  - intros body1 body2 s1 s2 w reply w1 d Ht1 Ht2 Hkeys Hfirst Hsent Hd.
    destruct (POST_replied_after_fetch _ _ _ _ _ _ Ht1 Hfirst Hsent) as (Hkey & Hs1 & Hc).
    assert (Hs2 : nonempty (trim s2) = true).
    { rewrite <- toLowerCase_nonempty, Hkeys, toLowerCase_nonempty. exact Hs1. }
    apply (Hhit body2 s2 (later d w1) (mkEntry reply (now w1)) Hkey Hs2 Ht2).
    + rewrite Hkeys. exact Hc.
    + cbn. lia.
Qed.

(** C6. In every state the process can reach, an entry whose age has reached
    CACHE_DURATION is never served: every call answers as it does in the
    world without the entry.  A call whose normalized key is that of the
    entry sends the upstream request, and on an upstream success the entry
    is replaced by the new reply, stamped with the time of the write. *)
Theorem expired_entry_not_served env body s w c :
  reached env w ->
  member "text" body = Some (JStr s) ->
  responseCache w !! toLowerCase (trim s) = Some c ->
  timestamp c + CACHE_DURATION <= now w ->
  let key := toLowerCase (trim s) in
  let sent := generateRequest (configuredKey env) (buildTutorPrompt (trim s)) in
  let here := POST env (Document body) w in
  (forall request_json,
      fst (POST env request_json w) = fst (POST env request_json (forget key w)) /\
      same_but_cache (snd (POST env request_json w))
                     (snd (POST env request_json (forget key w)))) /\
  requests (trace (snd here)) = (requests (trace w) ++ [sent])%list /\
  (forall took res data,
      upstream env (length (requests (trace w))) sent = Resolved took res ->
      ok res = true ->
      res_json res = Document data ->
      here = (replying (candidateText data),
              mkWorld (now w + Z.of_N took)
                      (<[key := mkEntry (candidateText data) (now w + Z.of_N took)]>
                         (responseCache w))
                      (trace w ++ [EFetch sent]))).
Proof.
  intros Hw%reached_inv Htext Hc Hold. cbv zeta. destruct (Hw _ _ Hc) as [Hkey Hs].
  rewrite toLowerCase_nonempty in Hs.
  assert (Hstale : forall c', responseCache w !! toLowerCase (trim s) = Some c' ->
                              CACHE_DURATION <= now w - timestamp c').
  { intros c' Hc'. rewrite Hc in Hc'. injection Hc' as <-. lia. }
  split; [|split].
  - intros request_json. now apply stale_entry_ignored with (c := c).
  - rewrite (POST_miss env Hkey _ _ _ Htext Hs Hstale).
    pose proof (POST_generate_sends env (trim s) (toLowerCase (trim s)) w) as Hsend.
    unfold try_catch. destruct (POST_generate _ _ _ _ w) as [[r|e] w']; exact Hsend.
  - intros took res data Hup Hok Hdata.
    rewrite (POST_miss env Hkey _ _ _ Htext Hs Hstale). unfold try_catch.
    now rewrite (POST_generate_ok env _ _ _ _ _ _ Hup Hok Hdata).
Qed.

Lemma cache_hit_idempotent_witness :
  POST chatty (Document (saying " HELLO ")) warm =
    (mkHttp 200 [("reply", Some (JStr "Hi there!"))], warm) /\
  (let first := POST chatty (Document (saying " Hello ")) boot in
   POST chatty (Document (saying "hELLO")) (later 299999 (snd first)) =
   (mkHttp 200 [("reply", Some (JStr "Hi there!"))], later 299999 (snd first))).
Proof.
  destruct (cache_hit_idempotent chatty) as [Hhit Htwice]. split.
  - apply (Hhit (saying " HELLO ") " HELLO " warm (mkEntry (JStr "Hi there!") 1010));
      [|reflexivity|reflexivity|reflexivity].
    apply reached_later, reached_text, reached_start.
  - cbv zeta.
    apply (Htwice (saying " Hello ") (saying "hELLO") " Hello " "hELLO" boot);
      reflexivity.
Defined.

Lemma expired_entry_not_served_witness :
  POST chatty (Document (saying "Hello")) stale =
  (replying (JStr "Hi there!"),
   mkWorld 301020 {[ "hello" := mkEntry (JStr "Hi there!") 301020 ]}
     [EFetch (generateRequest "k" (buildTutorPrompt "Hello"));
      EFetch (generateRequest "k" (buildTutorPrompt "Hello"))]).
Proof.
  assert (Hstale : reached chatty stale)
    by apply reached_later, reached_text, reached_start.
  rewrite (proj2 (proj2 (expired_entry_not_served chatty (saying "Hello") "Hello"
                           stale (mkEntry (JStr "Hi there!") 1010)
                           Hstale eq_refl eq_refl ltac:(reflexivity)))
                 10%N (mkResponse 200 "" (Document (generated (JStr "Hi there!"))))
                 (generated (JStr "Hi there!")) eq_refl eq_refl eq_refl).
  reflexivity.
Defined.

End CacheSpec.

(** ** Properties that hold of both routes *)

Module RoutesSpec.
Import Fixtures RuntimeFacts.

(** C10. In both routes the credential check comes before the body is read:
    with no credential the answer is status 500 whatever the body is (valid,
    empty text, not JSON at all), nothing is fetched, and the cache is not
    touched; the text route changes nothing at all, the video route only
    writes its two console lines.  In particular a request without
    credentials and with an empty text gets 500, not 400. *)
Theorem credentials_before_validation env request_json w :
  (present (GOOGLE_GENERATIVE_API_KEY env) = false ->
   Gemini.POST env request_json w =
     (mkHttp 500 [("error", str "Missing GOOGLE_GENERATIVE_API_KEY")], w)) /\
  (present (DID_API_KEY env) = false ->
   present (NEXT_PUBLIC_DID_API_KEY env) = false ->
   present (DID_BASIC_AUTH env) = false ->
   DidTalk.POST env request_json w =
     (Some (mkHttp 500 [("error", str "Missing D-ID credentials");
                        ("detail", str "Set DID_API_KEY or DID_BASIC_AUTH")]),
      mkWorld (now w) (responseCache w)
        (trace w ++
         [EConsole Log [str "DID auth present:"; Some (JBool false)];
          EConsole Err [str "Missing DID credentials: set DID_API_KEY (Studio) or DID_BASIC_AUTH (Basic)"]]))).
Proof.
  split.
  - intros Hkey. unfold Gemini.POST, Gemini.POST_try, try_catch. rewrite Hkey.
    destruct w; reflexivity.
  - intros Hkey Hpub Hbasic.
    unfold DidTalk.POST, DidTalk.POST_try, DidTalk.POST_inputs, try_catch, or_else.
    rewrite Hkey, Hpub, Hbasic. cbn [present]. unfold bind, console, emit, ret.
    cbn. now rewrite <- app_assoc.
Qed.

(** C7, as the code has it.  With the credential of the route configured,
    a text that is empty or all white space gets status 400 from both
    routes: nothing is fetched and the cache is neither read nor written
    (the text route leaves the world as it is, the video route only writes
    its console line). *)
Theorem blank_text_is_rejected env body s w :
  member "text" body = Some (JStr s) ->
  whitespace_only s = true ->
  (present (GOOGLE_GENERATIVE_API_KEY env) = true ->
   Gemini.POST env (Document body) w = (mkHttp 400 [("error", str "Missing 'text'")], w)) /\
  (present (DID_API_KEY env) || present (NEXT_PUBLIC_DID_API_KEY env)
   || present (DID_BASIC_AUTH env) = true ->
   DidTalk.POST env (Document body) w =
     (Some (mkHttp 400 [("error", str "Missing 'text'")]),
      mkWorld (now w) (responseCache w)
        (trace w ++ [EConsole Log [str "DID auth present:"; Some (JBool true)]]))).
Proof.
  intros Htext Hblank. apply text_of_body in Htext. apply trim_blank in Hblank. split.
  - intros Hkey. unfold Gemini.POST, Gemini.POST_try, try_catch. rewrite Hkey.
    cbn [negb bind parsed ret]. rewrite Htext. cbn [bind chain_trim ret present].
    rewrite Hblank. reflexivity.
  - intros Hcred.
    unfold DidTalk.POST, DidTalk.POST_try, DidTalk.POST_inputs, try_catch.
    assert (Hauth : present (or_else (or_else (DID_API_KEY env) (NEXT_PUBLIC_DID_API_KEY env)) None)
                    || present (or_else (DID_BASIC_AUTH env) None) = true).
    { unfold or_else.
      destruct (present (DID_API_KEY env)) eqn:H1; cbn [orb] in *; [now rewrite ?H1|].
      destruct (present (NEXT_PUBLIC_DID_API_KEY env)) eqn:H2; cbn [orb] in *;
        [now rewrite ?H2|].
      now rewrite Hcred, Hcred. }
    rewrite Hauth.
    replace (negb _ && negb _) with false
      by (rewrite <- negb_orb, Hauth; reflexivity).
    cbv beta iota delta [bind console emit parsed ret]. rewrite Htext.
    cbv beta iota delta [chain_trim ret present]. rewrite Hblank. reflexivity.
Qed.

(** C7 as stated fails: with no credential configured a blank text gets
    status 500 from both routes, not 400. *)
Lemma blank_text_without_credentials :
  whitespace_only "   " = true /\
  fst (Gemini.POST bare (Document (saying "   ")) boot) =
    mkHttp 500 [("error", str "Missing GOOGLE_GENERATIVE_API_KEY")] /\
  fst (DidTalk.POST bare (Document (saying "   ")) boot) =
    Some (mkHttp 500 [("error", str "Missing D-ID credentials");
                      ("detail", str "Set DID_API_KEY or DID_BASIC_AUTH")]).
Proof. repeat split. Qed.

Lemma credentials_before_validation_witness :
  Gemini.POST bare (Document (saying "")) boot =
    (mkHttp 500 [("error", str "Missing GOOGLE_GENERATIVE_API_KEY")], boot) /\
  fst (DidTalk.POST bare (Document (saying "")) boot) =
    Some (mkHttp 500 [("error", str "Missing D-ID credentials");
                      ("detail", str "Set DID_API_KEY or DID_BASIC_AUTH")]).
Proof.
  destruct (credentials_before_validation bare (Document (saying "")) boot) as [Hg Hd].
  split; [exact (Hg eq_refl)|]. now rewrite (Hd eq_refl eq_refl eq_refl).
Defined.

Lemma blank_text_is_rejected_witness :
  Gemini.POST chatty (Document (saying "   ")) boot =
    (mkHttp 400 [("error", str "Missing 'text'")], boot) /\
  fst (DidTalk.POST chatty (Document (saying "   ")) boot) =
    Some (mkHttp 400 [("error", str "Missing 'text'")]).
Proof.
  destruct (blank_text_is_rejected chatty (saying "   ") "   " boot eq_refl eq_refl)
    as [Hg Hd].
  split; [exact (Hg eq_refl)|]. now rewrite (Hd eq_refl).
Defined.

End RoutesSpec.

(** ** Facts about strings, values and traces *)

Module StringFacts.

Lemma lower_white c : is_white (lower c) = is_white c.
Proof. destruct c as [[] [] [] [] [] [] [] []]; reflexivity. Qed.

Lemma lower_lower c : lower (lower c) = lower c.
Proof. destruct c as [[] [] [] [] [] [] [] []]; reflexivity. Qed.

Lemma toLowerCase_idem s : toLowerCase (toLowerCase s) = toLowerCase s.
Proof. induction s as [|c s IH]; cbn; [reflexivity|]. now rewrite lower_lower, IH. Qed.

Lemma trimStart_toLowerCase s : trimStart (toLowerCase s) = toLowerCase (trimStart s).
Proof.
  induction s as [|c s IH]; cbn; [reflexivity|].
  rewrite lower_white. now destruct (is_white c).
Qed.

Lemma trimEnd_toLowerCase s : trimEnd (toLowerCase s) = toLowerCase (trimEnd s).
Proof.
  induction s as [|c s IH]; cbn; [reflexivity|].
  rewrite IH, lower_white. destruct (trimEnd s); cbn; [now destruct (is_white c)|reflexivity].
Qed.

Lemma trim_toLowerCase s : trim (toLowerCase s) = toLowerCase (trim s).
Proof. unfold trim. now rewrite trimStart_toLowerCase, trimEnd_toLowerCase. Qed.

Lemma trimEnd_idem s : trimEnd (trimEnd s) = trimEnd s.
Proof.
  induction s as [|c s IH]; cbn; [reflexivity|].
  destruct (trimEnd s) as [|d t] eqn:Ht.
  - destruct (is_white c) eqn:Hc; cbn; [reflexivity|now rewrite Hc].
  - cbn [trimEnd] in *. now rewrite IH.
Qed.

Lemma trimStart_head s c t : trimStart s = String c t -> is_white c = false.
Proof.
  induction s as [|a s IH]; cbn; [discriminate|].
  destruct (is_white a) eqn:Ha; [exact IH|]. now intros [= <- _].
Qed.

Lemma trimEnd_head c t : is_white c = false -> exists t', trimEnd (String c t) = String c t'.
Proof. intros Hc. cbn. rewrite Hc. destruct (trimEnd t); eauto. Qed.

Lemma trim_idem s : trim (trim s) = trim s.
Proof.
  unfold trim. destruct (trimStart s) as [|c t] eqn:Hs; [reflexivity|].
  apply trimStart_head in Hs. destruct (trimEnd_head c t Hs) as (t' & Ht).
  rewrite Ht. cbn [trimStart]. rewrite Hs, <- Ht. apply trimEnd_idem.
Qed.

(** The normal form under which the text route files a reply. *)
Lemma cacheKey_idem s : toLowerCase (trim (toLowerCase (trim s))) = toLowerCase (trim s).
Proof. now rewrite trim_toLowerCase, toLowerCase_idem, trim_idem. Qed.

Lemma append_empty_r s : s +:+ "" = s.
Proof.
  induction s as [|c s IH]; [reflexivity|].
  change (String c s +:+ "") with (String c (s +:+ "")). now rewrite IH.
Qed.

Lemma append_assoc s t u : (s +:+ t) +:+ u = s +:+ (t +:+ u).
Proof.
  induction s as [|c s IH]; [reflexivity|].
  change (String c ((s +:+ t) +:+ u) = String c (s +:+ (t +:+ u))). now rewrite IH.
Qed.

Lemma trim_nonempty s : nonempty (trim s) = negb (whitespace_only s).
Proof.
  unfold trim. induction s as [|c s IH]; [reflexivity|].
  cbn [trimStart whitespace_only]. destruct (is_white c) eqn:Hc; [exact IH|].
  destruct (trimEnd_head c s Hc) as (t & ->). reflexivity.
Qed.

End StringFacts.

Module TraceFacts.

Lemma naps_app t u : naps (t ++ u) = (naps t ++ naps u)%list.
Proof. unfold naps. apply flat_map_app. Qed.

Lemma chain_member name body : chain (member name) (Some body) = member name body.
Proof. now destruct body. Qed.

End TraceFacts.

(** ** Edge behaviour of the text-generation route *)

Module GeminiEdges.
Import Gemini Process Fixtures RuntimeFacts StringFacts TraceFacts.

(** The upstream call of a cache miss: one request, and then a failure, an
    error status relayed with a console line, or a reply that is stored. *)
Lemma POST_generate_shape env apiKey userText cacheKey w r w' :
  POST_generate env apiKey userText cacheKey w = (r, w') ->
  exists rq took,
    (exists e, r = Exc e /\
       w' = mkWorld (now w + Z.of_N took) (responseCache w) (trace w ++ [EFetch rq])) \/
    (exists a logged, r = Val a /\ code a = 502 /\
       w' = mkWorld (now w + Z.of_N took) (responseCache w)
                    (trace w ++ [EFetch rq; EConsole Err logged])) \/
    (exists reply, r = Val (replying reply) /\
       w' = mkWorld (now w + Z.of_N took)
                    (<[cacheKey := mkEntry reply (now w + Z.of_N took)]> (responseCache w))
                    (trace w ++ [EFetch rq])).
Proof.
  intros Hgen. unfold POST_generate, bind at 1 in Hgen.
  exists (generateRequest apiKey (buildTutorPrompt userText)).
  destruct (upstream env (length (requests (trace w)))
              (generateRequest apiKey (buildTutorPrompt userText))) as [took m|took res] eqn:Hup.
  { rewrite (fetch_rejected _ _ _ _ _ Hup) in Hgen. injection Hgen as <- <-.
    exists took. left. eauto. }
  rewrite (fetch_resolved _ _ _ _ _ Hup) in Hgen. exists took.
  destruct (ok res); cbn [negb] in Hgen.
  - unfold bind at 1 in Hgen. destruct (res_json res) as [m|data]; cbn [parsed throw ret] in Hgen.
    + injection Hgen as <- <-. left. eauto.
    + unfold bind, Date_now, cache_set, ret in Hgen. cbn [now trace responseCache] in Hgen.
      injection Hgen as <- <-. right. right. eauto.
  - unfold bind, console, emit, ret in Hgen. cbn [now trace responseCache] in Hgen.
    rewrite <- app_assoc in Hgen. injection Hgen as <- <-. right. left.
    eexists _, _. repeat split.
Qed.

(** The four things one call of the text route can do to the world: nothing;
    one request that fails or whose answer does not parse; one request
    answered with an error status, and a console line; one request whose
    reply is stored. *)
Lemma POST_shape env request_json w :
  let out := POST env request_json w in
  (snd out = w /\ In (code (fst out)) [200; 400; 500]) \/
  (exists rq took e,
      snd out = mkWorld (now w + Z.of_N took) (responseCache w) (trace w ++ [EFetch rq]) /\
      fst out = failed e) \/
  (exists rq took logged,
      snd out = mkWorld (now w + Z.of_N took) (responseCache w)
                        (trace w ++ [EFetch rq; EConsole Err logged]) /\
      code (fst out) = 502) \/
  (exists body s rq took reply,
      request_json = Document body /\
      member "text" body = Some (JStr s) /\
      nonempty (trim s) = true /\
      snd out = mkWorld (now w + Z.of_N took)
                        (<[toLowerCase (trim s) := mkEntry reply (now w + Z.of_N took)]>
                           (responseCache w))
                        (trace w ++ [EFetch rq]) /\
      fst out = replying reply).
Proof.
  cbv zeta. unfold POST, POST_try, try_catch.
  destruct (present (GOOGLE_GENERATIVE_API_KEY env)); cbn [negb];
    [|solve [left; cbn; auto]].
  destruct request_json as [m|body]; cbn [parsed bind throw ret]; [solve [left; cbn; auto]|].
  rewrite chain_member.
  destruct (member "text" body) as [[| | |s| |]|] eqn:Htext; cbn [chain_trim bind throw ret];
    try (left; cbn; auto; fail).
  cbn [present narrowed].
  destruct (nonempty (trim s)) eqn:Hs; cbn [negb]; [|solve [left; cbn; auto]].
  cbv beta iota delta [bind cache_get Date_now ret].
  pose proof (POST_generate_shape env (narrowed (GOOGLE_GENERATIVE_API_KEY env)) (trim s)
                (toLowerCase (trim s)) w) as Hgen.
  destruct (responseCache w !! toLowerCase (trim s)) as [c|].
  1: destruct (now w - timestamp c <? CACHE_DURATION)%Z; [solve [left; cbn; auto]|].
  all: right.
  all: destruct (POST_generate _ _ _ _ w) as [r w'].
  all: destruct (Hgen r w' eq_refl)
         as (rq & took & [(e & -> & ->)|[(a & logged & -> & Ha & ->)|(reply & -> & ->)]]).
  all: cbn [fst snd].
  1,4: left; eauto 10.
  1,3: right; left; eauto 10.
  all: right; right; exists body, s; eauto 10.
Qed.

(** The answers of the upstream call of a cache miss. *)
Lemma POST_generate_answers env apiKey userText cacheKey w :
  match fst (Gemini.POST_generate env apiKey userText cacheKey w) with
  | Exc e => True
  | Val a =>
      (exists data_reply, a = Gemini.replying data_reply) \/
      (exists detail status,
          a = mkHttp 502 [("error", str "Gemini API error"); ("detail", str detail);
                          ("status", Some (JNum status))])
  end.
Proof.
  unfold Gemini.POST_generate, bind at 1.
  destruct (upstream env (length (requests (trace w)))
              (Gemini.generateRequest apiKey (Gemini.buildTutorPrompt userText)))
    as [took m|took res] eqn:Hup.
  { now rewrite (fetch_rejected _ _ _ _ _ Hup). }
  rewrite (fetch_resolved _ _ _ _ _ Hup).
  destruct (ok res); cbn [negb].
  - unfold bind at 1. destruct (res_json res) as [m|data]; cbn [parsed throw ret]; [exact I|].
    left. eexists. reflexivity.
  - right. eexists _, _. reflexivity.
Qed.

(** The five answers of the text route. *)
Lemma text_POST_answers env request_json w :
  let a := fst (Gemini.POST env request_json w) in
  (exists data_reply, a = Gemini.replying data_reply) \/
  a = mkHttp 500 [("error", str "Missing GOOGLE_GENERATIVE_API_KEY")] \/
  a = mkHttp 400 [("error", str "Missing 'text'")] \/
  (exists detail status,
      a = mkHttp 502 [("error", str "Gemini API error"); ("detail", str detail);
                      ("status", Some (JNum status))]) \/
  (exists detail, a = mkHttp 500 [("error", str "Request failed"); ("detail", str detail)]).
Proof.
  cbv zeta. unfold Gemini.POST, Gemini.POST_try, try_catch.
  destruct (present (GOOGLE_GENERATIVE_API_KEY env)); cbn [negb]; [|now right; left].
  destruct request_json as [m|body]; cbn [parsed bind throw ret].
  { right. right. right. right. eexists. reflexivity. }
  rewrite TraceFacts.chain_member.
  destruct (member "text" body) as [[| | |s| |]|]; cbn [chain_trim bind throw ret fst];
    try (right; right; left; reflexivity);
    try (right; right; right; right; eexists; reflexivity).
  cbn [present narrowed].
  destruct (nonempty (trim s)); cbn [negb]; [|now right; right; left].
  cbv beta iota delta [bind cache_get Date_now ret].
  pose proof (POST_generate_answers env (narrowed (GOOGLE_GENERATIVE_API_KEY env)) (trim s)
                (toLowerCase (trim s)) w) as Hgen.
  destruct (responseCache w !! toLowerCase (trim s)) as [c|].
  1: destruct (now w - Runtime.timestamp c <? Gemini.CACHE_DURATION)%Z;
       [left; eexists; reflexivity|].
  all: destruct (Gemini.POST_generate _ _ _ _ w) as [[a|e] w']; cbn [fst] in *.
  all: try (right; right; right; right; eexists; reflexivity).
  all: destruct Hgen as [Hgen|Hgen]; [left; exact Hgen|right; right; right; left; exact Hgen].
Qed.

(** A text that is not blank never gets the answer for a missing text. *)
Lemma said_text_is_not_missing env s w :
  nonempty (trim s) = true ->
  fst (Gemini.POST env (Document (JObj [("text", JStr s)])) w) <>
  mkHttp 400 [("error", str "Missing 'text'")].
Proof.
  intros Hs. unfold Gemini.POST, Gemini.POST_try, try_catch.
  destruct (present (GOOGLE_GENERATIVE_API_KEY env)); cbn [negb]; [|discriminate].
  cbn [parsed bind ret chain member assoc_last String.eqb Ascii.eqb Bool.eqb chain_trim fst].
  cbn [present narrowed]. rewrite Hs. cbn [negb].
  cbv beta iota delta [bind cache_get Date_now ret].
  pose proof (POST_generate_answers env (narrowed (GOOGLE_GENERATIVE_API_KEY env)) (trim s)
                (toLowerCase (trim s)) w) as Hgen.
  destruct (responseCache w !! toLowerCase (trim s)) as [c|].
  1: destruct (now w - Runtime.timestamp c <? Gemini.CACHE_DURATION)%Z; [discriminate|].
  all: destruct (Gemini.POST_generate _ _ _ _ w) as [[a|e] w']; cbn [fst] in *;
    [|discriminate].
  all: destruct Hgen as [(r & ->)|(d & st & ->)]; discriminate.
Qed.

Section Miss.

Variable env : Env.
Variables (body : Json) (s : string) (w : World).
Hypothesis Hkey : present (GOOGLE_GENERATIVE_API_KEY env) = true.
Hypothesis Htext : member "text" body = Some (JStr s).
Hypothesis Hs : nonempty (trim s) = true.
Hypothesis Hmiss : forall c, responseCache w !! toLowerCase (trim s) = Some c ->
                             CACHE_DURATION <= now w - timestamp c.

(** X8.  An upstream answer with an error status is relayed, not cached: POST
    answers 502 whatever the upstream status was, with the upstream body as
    detail and the upstream status in the payload; it writes one console
    line and leaves the cache as it was, an expired entry included. *)
Theorem upstream_error_is_relayed took res :
  upstream env (length (requests (trace w))) (asked env s) = Resolved took res ->
  ok res = false ->
  POST env (Document body) w =
    (mkHttp 502 [("error", str "Gemini API error");
                 ("detail", str (res_text res));
                 ("status", Some (JNum (status res # 1)))],
     mkWorld (now w + Z.of_N took) (responseCache w)
       (trace w ++ [EFetch (asked env s);
                    EConsole Err [str "Gemini API error:"; Some (JNum (status res # 1));
                                  str (res_text res)]])).
Proof.
  intros Hup Hok.
  rewrite (GeminiSpec.POST_miss env Hkey _ _ _ Htext Hs Hmiss).
  unfold try_catch, POST_generate, bind at 1. fold (asked env s).
  rewrite (fetch_resolved _ _ _ _ _ Hup), Hok. cbn [negb].
  unfold bind, console, emit, ret. cbn [now trace responseCache].
  now rewrite <- app_assoc.
Qed.

(** X9.  An upstream call that fails outright is answered by the catch block:
    when the fetch rejects, and when a success status comes with a body
    that is not JSON, POST answers 500 "Request failed" with the error as
    detail, after the one request, and the cache is as it was. *)
Theorem upstream_failure_is_request_failed :
  (forall took m,
      upstream env (length (requests (trace w))) (asked env s) = Rejected took m ->
      POST env (Document body) w =
        (mkHttp 500 [("error", str "Request failed"); ("detail", str ("TypeError: " +:+ m))],
         mkWorld (now w + Z.of_N took) (responseCache w) (trace w ++ [EFetch (asked env s)]))) /\
  (forall took res m,
      upstream env (length (requests (trace w))) (asked env s) = Resolved took res ->
      ok res = true ->
      res_json res = Malformed m ->
      POST env (Document body) w =
        (mkHttp 500 [("error", str "Request failed"); ("detail", str ("SyntaxError: " +:+ m))],
         mkWorld (now w + Z.of_N took) (responseCache w) (trace w ++ [EFetch (asked env s)]))).
Proof.
  split.
  - intros took m Hup.
    rewrite (GeminiSpec.POST_miss env Hkey _ _ _ Htext Hs Hmiss).
    unfold try_catch, POST_generate, bind at 1. fold (asked env s).
    now rewrite (fetch_rejected _ _ _ _ _ Hup).
  - intros took res m Hup Hok Hbody.
    rewrite (GeminiSpec.POST_miss env Hkey _ _ _ Htext Hs Hmiss).
    unfold try_catch, POST_generate, bind at 1. fold (asked env s).
    rewrite (fetch_resolved _ _ _ _ _ Hup), Hok. cbn [negb].
    unfold bind at 1. now rewrite Hbody.
Qed.

(** X11.  An empty reply is cached like any other.  When the success document has
    no text at the end of the path, POST answers 200 with the empty string
    as reply and stores the empty string under the normalized text, stamped
    with the time of the answer; for the next five minutes every request
    with the same normalized text gets the empty string again, and the
    upstream is not asked. *)
Theorem empty_reply_is_cached took res data body2 s2 (d : N) :
  upstream env (length (requests (trace w))) (asked env s) = Resolved took res ->
  ok res = true ->
  res_json res = Document data ->
  nullish (descend path (Some data)) = true ->
  member "text" body2 = Some (JStr s2) ->
  toLowerCase (trim s2) = toLowerCase (trim s) ->
  Z.of_N d < CACHE_DURATION ->
  let first := POST env (Document body) w in
  first =
    (mkHttp 200 [("reply", Some (JStr ""))],
     mkWorld (now w + Z.of_N took)
       (<[toLowerCase (trim s) := mkEntry (JStr "") (now w + Z.of_N took)]> (responseCache w))
       (trace w ++ [EFetch (asked env s)])) /\
  responseCache (snd first) !! toLowerCase (trim s) =
    Some (mkEntry (JStr "") (now (snd first))) /\
  length (requests (trace (snd first))) = S (length (requests (trace w))) /\
  POST env (Document body2) (later d (snd first)) =
    (mkHttp 200 [("reply", Some (JStr ""))], later d (snd first)).
Proof.
  intros Hup Hok Hdata Hnone Ht2 Hsame Hd.
  assert (Hempty : candidateText data = JStr "").
  { change (candidateText data) with (coalesce (descend path (Some data)) (JStr "")).
    now destruct (descend path (Some data)) as [[]|]. }
  assert (Hfirst : POST env (Document body) w =
    (replying (JStr ""),
     mkWorld (now w + Z.of_N took)
       (<[toLowerCase (trim s) := mkEntry (JStr "") (now w + Z.of_N took)]> (responseCache w))
       (trace w ++ [EFetch (asked env s)]))).
  { rewrite (GeminiSpec.POST_miss env Hkey _ _ _ Htext Hs Hmiss). unfold try_catch.
    rewrite (GeminiSpec.POST_generate_ok env _ _ _ _ _ _ Hup Hok Hdata).
    now rewrite Hempty. }
  cbv zeta. rewrite Hfirst. cbn [fst snd trace responseCache now].
  split; [reflexivity|]. split.
  { apply lookup_insert_eq. }
  split.
  { rewrite requests_snoc, length_app. cbn. lia. }
  assert (Hs2 : nonempty (trim s2) = true).
  { rewrite <- toLowerCase_nonempty, Hsame, toLowerCase_nonempty. exact Hs. }
  rewrite (GeminiSpec.POST_lookup env Hkey _ _ _ Ht2 Hs2), Hsame. cbn [later responseCache now].
  rewrite lookup_insert_eq. cbn [timestamp response].
  destruct (Z.ltb_spec (now w + Z.of_N took + Z.of_N d - (now w + Z.of_N took)) CACHE_DURATION);
    [reflexivity|lia].
Qed.

End Miss.

(** One call of the text route removes no entry of the cache and writes at
    most one, under the trimmed and lower-cased text of the request. *)
Lemma POST_keeps_entries env request_json w :
  let w' := snd (POST env request_json w) in
  (forall k, is_Some (responseCache w !! k) -> is_Some (responseCache w' !! k)) /\
  (responseCache w' = responseCache w \/
   exists body s reply,
     request_json = Document body /\ member "text" body = Some (JStr s) /\
     nonempty (trim s) = true /\
     responseCache w' = <[toLowerCase (trim s) := mkEntry reply (now w')]> (responseCache w)).
Proof.
  cbv zeta.
  destruct (POST_shape env request_json w)
    as [[-> _]|[(rq & took & e & -> & _)|[(rq & took & logged & -> & _)|
        (body & s & rq & took & reply & -> & Htext & Hs & -> & _)]]];
    cbn [responseCache now].
  1-3: split; [auto|left; reflexivity].
  split; [|right; eauto 10].
  intros k Hk. destruct (decide (toLowerCase (trim s) = k)) as [<-|Hne].
  - rewrite lookup_insert_eq. eauto.
  - now rewrite lookup_insert_ne.
Qed.

Lemma text_POST_clock env request_json w : now w <= now (snd (POST env request_json w)).
Proof.
  destruct (POST_shape env request_json w)
    as [[-> _]|[(rq & took & e & -> & _)|[(rq & took & logged & -> & _)|
        (body & s & rq & took & reply & _ & _ & _ & -> & _)]]]; cbn [now]; lia.
Qed.

(** X10.  What a call of the text route can cost and leave behind: its status is
    200, 400, 500 or 502; it sends at most one upstream request and awaits
    no timer; it changes the cache only when it answers 200, and then after
    exactly one upstream request; when it answers 400 it has changed
    nothing at all. *)
Theorem only_replies_are_cached env request_json w :
  let out := POST env request_json w in
  In (code (fst out)) [200; 400; 500; 502] /\
  (exists sent, requests (trace (snd out)) = (requests (trace w) ++ sent)%list /\
                (length sent <= 1)%nat /\
                (responseCache (snd out) <> responseCache w -> length sent = 1%nat)) /\
  naps (trace (snd out)) = naps (trace w) /\
  (code (fst out) <> 200 -> responseCache (snd out) = responseCache w) /\
  (code (fst out) = 400 -> snd out = w).
Proof.
  cbv zeta.
  destruct (POST_shape env request_json w)
    as [[Hw Hcode]|[(rq & took & e & Hw & Ha)|[(rq & took & logged & Hw & Ha)|
        (body & s & rq & took & reply & _ & _ & _ & Hw & Ha)]]];
    rewrite Hw, ?Ha; cbn [code failed replying trace responseCache].
  - split; [cbn in *; tauto|].
    split; [exists []; rewrite app_nil_r; repeat split; [cbn; lia|congruence]|].
    repeat split; auto.
  - split; [cbn; tauto|].
    split; [exists [rq]; rewrite requests_snoc; repeat split; cbn; lia|].
    rewrite naps_app. cbn. rewrite app_nil_r. repeat split; auto. discriminate.
  - split; [cbn; tauto|].
    split; [exists [rq]; rewrite requests_app; repeat split; cbn; lia|].
    rewrite naps_app. cbn. rewrite app_nil_r. repeat split; auto. discriminate.
  - split; [cbn; tauto|].
    split; [exists [rq]; rewrite requests_snoc; repeat split; cbn; lia|].
    rewrite naps_app. cbn. rewrite app_nil_r. repeat split; auto; [congruence|discriminate].
Qed.

Lemma boot_is_cold k c : responseCache boot !! k = Some c -> CACHE_DURATION <= now boot - timestamp c.
Proof. cbn. rewrite lookup_empty. discriminate. Qed.

Lemma upstream_error_is_relayed_witness :
  POST throttled (Document (saying "Hello")) boot =
    (mkHttp 502 [("error", str "Gemini API error");
                 ("detail", str "quota exceeded");
                 ("status", Some (JNum (429 # 1)))],
     mkWorld 1010 ∅
       [EFetch (asked throttled "Hello");
        EConsole Err [str "Gemini API error:"; Some (JNum (429 # 1)); str "quota exceeded"]]).
Proof.
  exact (upstream_error_is_relayed throttled (saying "Hello") "Hello" boot
           eq_refl eq_refl eq_refl (boot_is_cold _)
           10%N (mkResponse 429 "quota exceeded" (Malformed "Unexpected token q"))
           eq_refl eq_refl).
Defined.

Lemma upstream_failure_is_request_failed_witness :
  POST offline (Document (saying "Hello")) boot =
    (mkHttp 500 [("error", str "Request failed"); ("detail", str "TypeError: fetch failed")],
     mkWorld 1007 ∅ [EFetch (asked offline "Hello")]).
Proof.
  exact (proj1 (upstream_failure_is_request_failed offline (saying "Hello") "Hello" boot
                  eq_refl eq_refl eq_refl (boot_is_cold _))
               7%N "fetch failed" eq_refl).
Defined.

Lemma empty_reply_is_cached_witness :
  let first := POST (sending (JObj [("candidates", JArr [])])) (Document (saying "Hello")) boot in
  first =
    (mkHttp 200 [("reply", Some (JStr ""))],
     mkWorld 1010 (<["hello" := mkEntry (JStr "") 1010]> ∅)
       [EFetch (asked (sending (JObj [("candidates", JArr [])])) "Hello")]) /\
  responseCache (snd first) !! "hello" = Some (mkEntry (JStr "") (now (snd first))) /\
  length (requests (trace (snd first))) = 1%nat /\
  POST (sending (JObj [("candidates", JArr [])])) (Document (saying " HELLO "))
       (later 1000 (snd first)) =
    (mkHttp 200 [("reply", Some (JStr ""))], later 1000 (snd first)).
Proof.
  exact (empty_reply_is_cached (sending (JObj [("candidates", JArr [])]))
           (saying "Hello") "Hello" boot eq_refl eq_refl eq_refl (boot_is_cold _)
           10%N (mkResponse 200 "" (Document (JObj [("candidates", JArr [])])))
           (JObj [("candidates", JArr [])]) (saying " HELLO ") " HELLO " 1000%N
           eq_refl eq_refl eq_refl eq_refl eq_refl eq_refl eq_refl).
Defined.

End GeminiEdges.

(** ** Edge behaviour of the avatar-video route *)

Module DidTalkEdges.
Import DidTalk Fixtures RuntimeFacts TraceFacts DidTalkSpec.

Section Loop.

Variable env : Env.
Variable auth : Auth.
Variable id : Value.
Variable startedAt : Z.

(** Where a request that is the last one of a status check can sit in the
    events of a check followed by [tail]: it is the request the check ends
    on, or it lies in [tail]. *)
Lemma locate_last w before last tail pre sent post :
  (before = [] \/
   exists t r' warned, before = [EFetch (pollReq auth id); EConsole Warn warned] /\
     upstream env (length (requests (trace w))) (pollReq auth id) = Resolved t r' /\
     ok r' = false) ->
  (before ++ EFetch last :: tail = pre ++ EFetch sent :: post)%list ->
  (forall t r, upstream env (length (requests (trace w ++ pre))) sent = Resolved t r ->
               ok r = false -> sent <> pollReq auth id) ->
  (pre = before /\ sent = last /\ post = tail) \/
  (exists pre', pre = (before ++ EFetch last :: pre')%list /\
                tail = (pre' ++ EFetch sent :: post)%list).
Proof.
  intros [->|(t & r' & warned & -> & Hup & Hno)] Hsplit Hlast.
  - cbn [app] in Hsplit.
    destruct (cons_split _ _ _ _ _ Hsplit) as [(-> & [= ->] & ->)|(pre' & -> & ->)]; eauto.
  - cbn [app] in Hsplit.
    destruct (cons_split _ _ _ _ _ Hsplit) as [(-> & [= <-] & _)|(p1 & -> & Hsplit1)].
    { rewrite app_nil_r in Hlast. now destruct (Hlast _ _ Hup Hno). }
    destruct (cons_split _ _ _ _ _ Hsplit1) as [(_ & [=] & _)|(p2 & -> & Hsplit2)].
    destruct (cons_split _ _ _ _ _ Hsplit2) as [(-> & [= ->] & ->)|(p3 & -> & ->)]; eauto.
Qed.

(** A request on whose answer a status check ends with something that does
    not let the loop go on is the last event of the loop, and the loop is
    left as that answer has it. *)
Lemma poll_ends f : forall lastStatus w,
  exists events,
    trace (snd (poll f env auth id startedAt lastStatus w)) = (trace w ++ events)%list /\
    forall pre sent post,
      events = (pre ++ EFetch sent :: post)%list ->
      goes_on (verdict (upstream env (length (requests (trace w ++ pre))) sent)) = false ->
      (forall t r, upstream env (length (requests (trace w ++ pre))) sent = Resolved t r ->
                   ok r = false -> sent <> pollReq auth id) ->
      post = [] /\
      fst (poll f env auth id startedAt lastStatus w) =
        leaves id (verdict (upstream env (length (requests (trace w ++ pre))) sent)) /\
      exists prefix, sent = statusReq prefix auth id.
Proof.
  induction f as [|f IH]; intros lastStatus w.
  { exists []. cbn. split; [now rewrite app_nil_r|]. intros [|] ? ? [=]. }
  rewrite poll_unfold.
  destruct (now w - startedAt <? timeoutMs)%Z.
  2:{ exists []. cbn. split; [now rewrite app_nil_r|]. intros [|] ? ? [=]. }
  destruct (fetchTalkStatus_verdict env auth id w)
    as (before & last & Htrace & _ & Hbefore & Hlast & Hres).
  cbv zeta in Htrace, Hres.
  assert (Hstop : forall r w1,
    fetchTalkStatus env auth id w = (r, w1) ->
    forall pre sent post,
      (before ++ [EFetch last] = pre ++ EFetch sent :: post)%list ->
      (forall t r, upstream env (length (requests (trace w ++ pre))) sent = Resolved t r ->
                   ok r = false -> sent <> pollReq auth id) ->
      post = [] /\
      r = verdict (upstream env (length (requests (trace w ++ pre))) sent) /\
      exists prefix, sent = statusReq prefix auth id).
  { intros r w1 Hcheck pre sent post Hsplit Hfinal. rewrite Hcheck in Hres. cbn [fst] in Hres.
    destruct (locate_last w before last [] pre sent post Hbefore Hsplit Hfinal)
      as [(-> & -> & ->)|(pre' & _ & Hnil)]; [|now destruct pre'].
    auto. }
  destruct (fetchTalkStatus env auth id w) as [[s1|e] w1] eqn:Hcheck;
    cbn [fst snd] in Htrace, Hres.
  2:{ exists (before ++ [EFetch last])%list. cbn [fst snd]. split; [exact Htrace|].
      intros pre sent post Hsplit _ Hfinal.
      destruct (Hstop _ _ eq_refl pre sent post Hsplit Hfinal) as (-> & <- & Hurl). auto. }
  destruct (goes_on (Val s1)) eqn:Hgo.
  2:{ exists (before ++ [EFetch last])%list. cbn [fst snd]. split; [exact Htrace|].
      intros pre sent post Hsplit _ Hfinal.
      destruct (Hstop _ _ eq_refl pre sent post Hsplit Hfinal) as (-> & <- & Hurl). auto. }
  destruct (IH (member "status" s1) (slept env w1)) as (events & Hevents & Hinv).
  exists (before ++ EFetch last :: ESleep intervalMs :: events)%list.
  split.
  { rewrite Hevents. cbn [slept trace]. rewrite Htrace, <- !app_assoc. reflexivity. }
  intros pre sent post Hsplit Hdecisive Hfinal.
  destruct (locate_last w before last _ pre sent post Hbefore Hsplit Hfinal)
    as [(-> & -> & _)|(pre' & -> & Htail)].
  { rewrite <- Hres in Hdecisive. congruence. }
  destruct (cons_split _ _ _ _ _ Htail) as [(_ & [=] & _)|(pre'' & -> & ->)].
  assert (Hsame : (trace (slept env w1) ++ pre'' =
                   trace w ++ before ++ EFetch last :: ESleep intervalMs :: pre'')%list).
  { cbn [slept trace]. rewrite Htrace, <- !app_assoc. reflexivity. }
  rewrite <- Hsame in *. now apply Hinv.
Qed.

(** What a status check adds to the trace: one request or two, to the
    status endpoints and for this job, and no delay. *)
Lemma check_events w :
  exists events,
    trace (snd (fetchTalkStatus env auth id w)) = (trace w ++ events)%list /\
    naps events = [] /\
    (1 <= length (requests events) <= 2)%nat /\
    Forall (fun rq => exists prefix, rq = statusReq prefix auth id) (requests events).
Proof.
  destruct (fetchTalkStatus_verdict env auth id w)
    as (before & last & Htrace & _ & Hbefore & (prefix & ->) & _).
  cbv zeta in Htrace. exists (before ++ [EFetch (statusReq prefix auth id)])%list.
  split; [exact Htrace|].
  destruct Hbefore as [->|(t & r & warned & -> & _)]; cbn.
  - repeat split; [lia|lia|]. repeat constructor. eauto.
  - repeat split; [lia|lia|]. repeat constructor; eauto.
Qed.

(** Whatever the loop is left on, POST has an answer for it. *)
Lemma leaves_answer r :
  exists a, answer_of id (leaves id r) = Some a /\ In (code a) [200; 500; 502; 504].
Proof.
  destruct r as [s|e]; [|eexists; split; [reflexivity|cbn; tauto]].
  destruct s; cbn [leaves]; try (eexists; split; [reflexivity|cbn; tauto]).
  all: destruct (is_string "done" _ && truthy _) eqn:Hdone;
    [|eexists; split; [reflexivity|cbn; tauto]].
  all: cbn [answer_of]; destruct (negb _); eexists; split; try reflexivity; cbn; tauto.
Qed.

(** The work of the loop is bounded by the time it has left: with at most
    [f] intervals to the deadline it makes at most [f] status checks, of
    one or two requests each, and sleeps one interval after each check but
    possibly the last. *)
Lemma poll_work f : forall lastStatus w,
  startedAt + timeoutMs - now w <= intervalMs * Z.of_nat f ->
  exists events (j : nat),
    trace (snd (poll (S f) env auth id startedAt lastStatus w)) = (trace w ++ events)%list /\
    (j <= f)%nat /\
    naps events = replicate j intervalMs /\
    (length (requests events) <= 2 * f)%nat /\
    Forall (fun rq => exists prefix, rq = statusReq prefix auth id) (requests events) /\
    now w <= now (snd (poll (S f) env auth id startedAt lastStatus w)) /\
    exists a, answer_of id (fst (poll (S f) env auth id startedAt lastStatus w)) = Some a /\
              In (code a) [200; 500; 502; 504].
Proof.
  induction f as [|f IH]; intros lastStatus w Hleft; rewrite poll_unfold.
  - destruct (Z.ltb_spec (now w - startedAt) timeoutMs) as [Hlt|Hge];
      [unfold intervalMs in Hleft; lia|].
    exists [], 0%nat. cbn [fst snd]. rewrite app_nil_r.
    repeat split; try (cbn; lia); try constructor.
    eexists. split; [reflexivity|]. cbn. tauto.
  - destruct (Z.ltb_spec (now w - startedAt) timeoutMs) as [Hlt|Hge].
    2:{ exists [], 0%nat. cbn [fst snd]. rewrite app_nil_r.
        repeat split; try (cbn; lia); try constructor.
        eexists. split; [reflexivity|]. cbn. tauto. }
    destruct (check_events w) as (evs & Htrace & Hnaps & Hlen & Hreqs).
    pose proof (fetchTalkStatus_clock env auth id w) as Hclock.
    destruct (fetchTalkStatus env auth id w) as [[s1|e] w1]; cbn [snd] in Htrace, Hclock.
    2:{ exists evs, 0%nat. cbn [fst snd]. repeat split; try (assumption || lia).
        eexists. split; [reflexivity|]. cbn. tauto. }
    destruct (goes_on (Val s1)) eqn:Hgo.
    2:{ exists evs, 0%nat. cbn [fst snd]. repeat split; try (assumption || lia).
        apply leaves_answer. }
    destruct (IH (member "status" s1) (slept env w1))
      as (events & j & Hw & Hj & Hn & Hl & Hr & Hc & Ha).
    { cbn [slept now]. unfold intervalMs in *. lia. }
    exists (evs ++ ESleep intervalMs :: events)%list, (S j).
    split; [rewrite Hw; cbn [slept trace]; rewrite Htrace, <- !app_assoc; reflexivity|].
    split; [lia|].
    split; [rewrite naps_app, Hnaps;
            change (naps (ESleep intervalMs :: events)) with (intervalMs :: naps events);
            now rewrite Hn|].
    split; [rewrite requests_app, length_app;
            change (requests (ESleep intervalMs :: events)) with (requests events); lia|].
    split; [rewrite requests_app; apply Forall_app; split; [exact Hreqs|exact Hr]|].
    split; [|exact Ha].
    cbn [slept now] in Hc. unfold intervalMs in Hc. lia.
Qed.

(** Why the loop is left the way it is. *)
Lemma poll_exits f : forall lastStatus w,
  match fst (poll f env auth id startedAt lastStatus w) with
  | Val (Some (Fell resultUrl status)) =>
      (truthy resultUrl = true /\ is_string "done" status = true) \/
      (resultUrl = undefined /\
       startedAt + timeoutMs <= now (snd (poll f env auth id startedAt lastStatus w)))
  | Val (Some (Returned a)) => exists detail, a = processing_error detail id
  | _ => True
  end.
Proof.
  induction f as [|f IH]; intros lastStatus w; [exact I|].
  rewrite poll_unfold.
  destruct (Z.ltb_spec (now w - startedAt) timeoutMs) as [Hlt|Hge].
  2:{ right. cbn. split; [reflexivity|lia]. }
  destruct (fetchTalkStatus env auth id w) as [[s|e] w1]; [|exact I].
  destruct (goes_on (Val s)); [apply IH|].
  destruct s; cbn [leaves fst]; try exact I.
  all: destruct (is_string "done" _ && truthy _) eqn:Hdone; [|eexists; reflexivity].
  all: apply andb_true_iff in Hdone as [Hdone Hurl]; left; split; assumption.
Qed.

End Loop.

Section Call.

Variable env : Env.

(** What the cascade adds to the trace: the first [m] tiers, a console
    line between two of them, and no delay. *)
Lemma cascade_work fallbacks : forall tier w,
  exists events (m : nat),
    trace (snd (cascade env tier fallbacks w)) = (trace w ++ events)%list /\
    (1 <= m)%nat /\
    requests events = take m (tier :: map snd fallbacks) /\
    naps events = [] /\
    now w <= now (snd (cascade env tier fallbacks w)).
Proof.
  induction fallbacks as [|[label next] rest IH]; intros tier w.
  - exists [EFetch tier], 1%nat. cbn [cascade]. unfold bind, fetch.
    destruct (upstream env _ tier) as [t m|t r]; cbn [snd trace now];
      [repeat split; lia|].
    destruct (ok r); [|cbn; repeat split; lia].
    unfold parsed. destruct (res_json r); cbn; repeat split; lia.
  - destruct (upstream env (length (requests (trace w))) tier) as [t m|t r] eqn:Hup.
    + exists [EFetch tier], 1%nat. cbn [cascade]. unfold bind.
      rewrite (fetch_rejected _ _ _ _ _ Hup). cbn. repeat split; lia.
    + destruct (ok r) eqn:Hok.
      * exists [EFetch tier], 1%nat. cbn [cascade]. unfold bind.
        rewrite (fetch_resolved _ _ _ _ _ Hup), Hok.
        unfold parsed. destruct (res_json r); cbn; repeat split; lia.
      * rewrite (cascade_fail_step _ _ _ _ _ _ _ _ Hup Hok).
        destruct (IH next (mkWorld (now w + Z.of_N t) (responseCache w)
          (trace w ++ [EFetch tier; EConsole Warn [str label; str (res_text r)]])))
          as (events & m & Htrace & Hm & Hreq & Hnap & Hclock).
        exists (EFetch tier :: EConsole Warn [str label; str (res_text r)] :: events), (S m).
        split; [rewrite Htrace; cbn [trace]; now rewrite <- app_assoc|].
        split; [lia|].
        split; [change (requests (EFetch tier :: EConsole Warn [str label; str (res_text r)] :: events))
                  with (tier :: requests events); now rewrite Hreq|].
        split; [exact Hnap|]. cbn [now] in Hclock. lia.
Qed.

(** Before the submission nothing is sent or awaited, and the clock stands. *)
Lemma POST_inputs_quiet request_json w r w1 :
  POST_inputs env request_json w = (r, w1) ->
  exists events,
    w1 = mkWorld (now w) (responseCache w) (trace w ++ events) /\
    requests events = [] /\ naps events = [] /\
    forall a, r = Val (inl a) -> In (code a) [400; 500].
Proof.
  intros Hin.
  unfold POST_inputs, bind at 1, console, emit in Hin. cbn [now trace responseCache] in Hin.
  destruct (negb _ && negb _).
  { unfold bind, ret in Hin. cbn [now trace responseCache] in Hin. injection Hin as <- <-.
    eexists [_; _]. rewrite <- app_assoc. repeat split. intros a [= <-]. cbn. tauto. }
  unfold bind at 1 in Hin.
  destruct request_json as [m|body]; cbn [parsed throw ret] in Hin.
  { injection Hin as <- <-. eexists [_]. repeat split. discriminate. }
  unfold bind at 1 in Hin.
  destruct (chain (member "text") (Some body)) as [[]|]; cbn [chain_trim throw ret] in Hin.
  all: try (injection Hin as <- <-; eexists [_]; repeat split; try discriminate;
            intros a [= <-]; cbn; tauto).
  all: destruct (negb _);
    [injection Hin as <- <-; eexists [_]; repeat split; intros a [= <-]; cbn; tauto|].
  all: unfold bind at 1 in Hin.
  all: destruct (chain (member "source_url") (Some body)) as [[]|];
    cbn [chain_trim throw ret] in Hin.
  all: try (injection Hin as <- <-; eexists [_]; repeat split; discriminate).
  all: unfold bind at 1 in Hin.
  all: destruct (chain (member "voice_id") (Some body)) as [[]|];
    cbn [chain_trim throw ret] in Hin.
  all: injection Hin as <- <-; eexists [_]; repeat split; discriminate.
Qed.

(** What the submission adds to the trace. *)
Lemma POST_create_work auth text sourceUrl voiceId w r w' :
  POST_create env auth text sourceUrl voiceId w = (r, w') ->
  exists events (m : nat),
    trace w' = (trace w ++ events)%list /\
    (1 <= m)%nat /\
    requests events = take m (tiers auth text sourceUrl voiceId) /\
    naps events = [] /\
    now w <= now w'.
Proof.
  intros Hcreate.
  unfold POST_create, bind at 1, console, emit in Hcreate.
  cbn [now trace responseCache] in Hcreate.
  set (w0 := mkWorld _ _ _) in Hcreate. unfold bind at 1 in Hcreate.
  rewrite createTalk_cascade in Hcreate.
  destruct (cascade_work (fallbacks auth text sourceUrl voiceId) (tier1 auth text sourceUrl) w0)
    as (events & m & Htrace & Hm & Hreq & Hnap & Hclock).
  change (tier1 auth text sourceUrl :: map snd (fallbacks auth text sourceUrl voiceId))
    with (tiers auth text sourceUrl voiceId) in Hreq.
  destruct (cascade env _ _ w0) as [[created|e] w1]; cbn [snd] in Htrace, Hclock.
  - unfold bind at 1, destructure in Hcreate. destruct created; cbn [throw ret] in Hcreate.
    1: exists (EConsole Log [str "Creating D-ID talk with text:";
                             str (substring0 50 text +:+ "...")] :: events), m.
    2-6: eexists (EConsole Log [str "Creating D-ID talk with text:";
                                str (substring0 50 text +:+ "...")] :: events ++ [_])%list, m.
    all: unfold bind, ret, console, emit in Hcreate; cbn [trace now responseCache] in Hcreate;
      injection Hcreate as <- <-; cbn [trace now]; rewrite ?Htrace; subst w0;
      cbn [trace now] in *; rewrite <- ?app_assoc; (split; [reflexivity|]).
    all: split; [exact Hm|].
    all: rewrite ?app_comm_cons, ?requests_console, ?naps_app.
    all: repeat split; [exact Hreq|try exact Hnap|lia].
    all: change (naps events ++ [] = [])%list; now rewrite Hnap.
  - injection Hcreate as <- <-.
    exists (EConsole Log [str "Creating D-ID talk with text:";
                          str (substring0 50 text +:+ "...")] :: events), m.
    rewrite Htrace. subst w0. cbn [trace now] in *. rewrite <- app_assoc.
    repeat split; auto.
Qed.

(** The cascade stops at the first tier whose fetch is rejected, and throws
    what the fetch threw. *)
Lemma cascade_rejects fallbacks : forall tier w (k : nat) took m,
  (k <= length fallbacks)%nat ->
  (forall i rq, (i < k)%nat -> (tier :: map snd fallbacks) !! i = Some rq ->
     exists t r, upstream env (length (requests (trace w)) + i) rq = Resolved t r /\
                 ok r = false) ->
  (forall rq, (tier :: map snd fallbacks) !! k = Some rq ->
     upstream env (length (requests (trace w)) + k) rq = Rejected took m) ->
  fst (cascade env tier fallbacks w) = Exc (TypeError m) /\
  requests (trace (snd (cascade env tier fallbacks w))) =
  (requests (trace w) ++ take (S k) (tier :: map snd fallbacks))%list.
Proof.
  induction fallbacks as [|[label next] rest IH]; intros tier w k took m Hk Hfail Hrej.
  - assert (k = 0)%nat as -> by (cbn in Hk; lia).
    specialize (Hrej tier eq_refl). rewrite Nat.add_0_r in Hrej.
    cbn [cascade]. unfold bind. rewrite (fetch_rejected _ _ _ _ _ Hrej).
    cbn. now rewrite requests_snoc.
  - destruct k as [|k].
    + specialize (Hrej tier eq_refl). rewrite Nat.add_0_r in Hrej.
      cbn [cascade]. unfold bind. rewrite (fetch_rejected _ _ _ _ _ Hrej).
      cbn. now rewrite requests_snoc.
    + destruct (Hfail 0%nat tier ltac:(lia) eq_refl) as (t & r & Hup & Hno).
      rewrite Nat.add_0_r in Hup.
      rewrite (cascade_fail_step _ _ _ _ _ _ _ _ Hup Hno).
      set (w1 := mkWorld _ _ _).
      assert (Hn : length (requests (trace w1)) = S (length (requests (trace w)))).
      { subst w1. cbn [trace]. rewrite requests_app, length_app. cbn. lia. }
      destruct (IH next w1 k took m) as [Hres Hsent].
      * cbn in Hk. lia.
      * intros i rq Hi Hrq. rewrite Hn.
        destruct (Hfail (S i) rq ltac:(lia) Hrq) as (t' & r' & Hup' & Hno').
        exists t', r'. split; [|exact Hno'].
        now replace (S (length (requests (trace w))) + i)%nat
          with (length (requests (trace w)) + S i)%nat by lia.
      * intros rq Hrq. rewrite Hn.
        replace (S (length (requests (trace w))) + k)%nat
          with (length (requests (trace w)) + S k)%nat by lia.
        now apply Hrej.
      * split; [exact Hres|]. rewrite Hsent. subst w1. cbn [trace].
        rewrite requests_app, <- app_assoc. reflexivity.
Qed.

(** POST, by its three parts. *)
Lemma POST_by_parts request_json w :
  POST env request_json w =
  match POST_inputs env request_json w with
  | (Exc e, w1) => (failed e, w1)
  | (Val (inl answer), w1) => (Some answer, w1)
  | (Val (inr (auth, text, sourceUrl, voiceId)), w1) =>
      match POST_create env auth text sourceUrl voiceId w1 with
      | (Exc e, w2) => (failed e, w2)
      | (Val id, w2) =>
          (answer_of id (fst (poll poll_bound env auth id (now w2) (str "") w2)),
           snd (poll poll_bound env auth id (now w2) (str "") w2))
      end
  end.
Proof.
  unfold POST, POST_try, try_catch, bind at 1.
  destruct (POST_inputs env request_json w)
    as [[[answer|[[[auth text] sourceUrl] voiceId]]|e] w1]; try reflexivity.
  unfold bind at 1.
  destruct (POST_create env auth text sourceUrl voiceId w1) as [[id|e] w2]; [|reflexivity].
  rewrite POST_poll_exit.
  destruct (poll _ _ _ _ _ _ w2) as [[[[url st|a]|]|e] w3]; reflexivity.
Qed.

(** Where POST gets once the job is submitted. *)
Lemma POST_after_create request_json w auth text sourceUrl voiceId w1 id w2 :
  POST_inputs env request_json w = (Val (inr (auth, text, sourceUrl, voiceId)), w1) ->
  POST_create env auth text sourceUrl voiceId w1 = (Val id, w2) ->
  POST env request_json w =
    (answer_of id (fst (poll poll_bound env auth id (now w2) (str "") w2)),
     snd (poll poll_bound env auth id (now w2) (str "") w2)).
Proof. intros Hin Hcreate. now rewrite POST_by_parts, Hin, Hcreate. Qed.

(** The anatomy of an invocation: console lines while the inputs are read,
    then the first [m] tiers of the submission, then the status checks. *)
Lemma POST_work request_json w :
  let out := POST env request_json w in
  exists events,
    trace (snd out) = (trace w ++ events)%list /\
    now w <= now (snd out) /\
    (exists a, fst out = Some a /\ In (code a) [200; 400; 500; 502; 504]) /\
    (exists j : nat, (j <= 25)%nat /\ naps events = replicate j intervalMs) /\
    match fst (POST_inputs env request_json w) with
    | Val (inr (auth, text, sourceUrl, voiceId)) =>
        exists (m : nat) polls id,
          (1 <= m)%nat /\
          requests events = (take m (tiers auth text sourceUrl voiceId) ++ polls)%list /\
          (length polls <= 50)%nat /\
          Forall (fun rq => exists prefix, rq = statusReq prefix auth id) polls
    | _ => requests events = []
    end.
Proof.
  cbv zeta.
  destruct (POST_inputs env request_json w) as [r w1] eqn:Hin.
  destruct (POST_inputs_quiet _ _ _ _ Hin) as (ev1 & Hw1 & Hr1 & Hn1 & Hcode).
  destruct r as [[answer|[[[auth text] sourceUrl] voiceId]]|e].
  1,3: rewrite POST_by_parts, Hin; cbn [fst snd];
       exists ev1; rewrite Hw1; cbn [trace now];
       (split; [reflexivity|]); (split; [lia|]);
       (split; [eexists; split; [reflexivity|]; try (cbn; tauto);
                specialize (Hcode _ eq_refl); cbn in *; tauto|]);
       (split; [exists 0%nat; split; [lia|exact Hn1]|exact Hr1]).
  assert (Hnow1 : now w1 = now w) by now rewrite Hw1.
  assert (Htr1 : trace w1 = (trace w ++ ev1)%list) by now rewrite Hw1.
  clear Hw1. cbn [fst].
  destruct (POST_create env auth text sourceUrl voiceId w1) as [r w2] eqn:Hcreate.
  destruct (POST_create_work _ _ _ _ _ _ _ Hcreate) as (ev2 & m & Hw2 & Hm & Hr2 & Hn2 & Hc2).
  destruct r as [id|e].
  2:{ rewrite POST_by_parts, Hin, Hcreate. cbn [fst snd]. exists (ev1 ++ ev2)%list.
      rewrite Hw2, Htr1, <- app_assoc.
      split; [reflexivity|]. split; [lia|].
      split; [eexists; split; [reflexivity|cbn; tauto]|].
      split; [exists 0%nat; split; [lia|now rewrite naps_app, Hn1, Hn2]|].
      exists m, [], undefined.
      rewrite requests_app, Hr1, Hr2, app_nil_r. repeat split; auto. cbn. lia. }
  rewrite (POST_after_create _ _ _ _ _ _ _ _ _ Hin Hcreate). cbn [fst snd].
  rewrite poll_bound_eq.
  destruct (poll_work env auth id (now w2) 25 (str "") w2)
    as (ev3 & j & Hw3 & Hj & Hn3 & Hl3 & Hr3 & Hc3 & a & Ha & Hcode3).
  { unfold timeoutMs, intervalMs. lia. }
  exists (ev1 ++ ev2 ++ ev3)%list.
  rewrite Hw3, Hw2, Htr1, <- !app_assoc.
  split; [reflexivity|]. split; [lia|].
  split; [exists a; split; [exact Ha|cbn in *; tauto]|].
  split; [exists j; split; [exact Hj|now rewrite !naps_app, Hn1, Hn2]|].
  exists m, (requests ev3), id.
  rewrite !requests_app, Hr1, Hr2. repeat split; auto.
Qed.

(** A status request on whose answer a check ends without letting the loop
    go on is the last effect of the invocation, and the answer of POST is
    made from it. *)
Lemma POST_ends request_json w pre sent post :
  let out := POST env request_json w in
  trace (snd out) = (trace w ++ pre ++ EFetch sent :: post)%list ->
  method sent = "GET" ->
  goes_on (verdict (upstream env (length (requests (trace w ++ pre))) sent)) = false ->
  (forall t r, upstream env (length (requests (trace w ++ pre))) sent = Resolved t r ->
               ok r = false -> forall v, url sent <> Template "https://api.d-id.com/v1/talks/" v) ->
  post = [] /\
  exists prefix auth id,
    sent = statusReq prefix auth id /\
    fst out = answer_of id
                (leaves id (verdict (upstream env (length (requests (trace w ++ pre))) sent))).
Proof.
  intros out Htrace Hget Hdecisive Hfinal.
  assert (Hpoll : is_poll (EFetch sent) = true) by (cbn; now rewrite Hget).
  assert (Hout : out = POST env request_json w) by reflexivity. clearbody out.
  destruct (POST_inputs_events env request_json w) as (ev1 & Hw1 & Hq1 & _).
  destruct (POST_inputs env request_json w)
    as [[[answer|[[[auth text] sourceUrl] voiceId]]|e] w1] eqn:Hin; cbn [snd] in Hw1.
  1,3: unfold POST, POST_try, try_catch, bind at 1 in Hout; rewrite Hin in Hout;
       subst out w1; cbn [snd trace ret] in Htrace; apply app_inv_head in Htrace;
       rewrite <- (app_nil_r ev1) in Htrace;
       destruct (split_after _ _ _ _ _ _ Htrace Hq1 Hpoll) as (pre' & _ & Hnil);
       now destruct pre'.
  destruct (POST_create_events env auth text sourceUrl voiceId w1) as (ev2 & Hw2 & Hq2).
  assert (Hq12 : Forall (fun e => is_poll e = false) (ev1 ++ ev2))
    by (apply Forall_app; split; assumption).
  destruct (POST_create env auth text sourceUrl voiceId w1) as [[id|e] w2] eqn:Hcreate;
    cbn [snd] in Hw2.
  2:{ unfold POST, POST_try, try_catch, bind at 1 in Hout. rewrite Hin in Hout.
      unfold bind at 1 in Hout. rewrite Hcreate in Hout.
      subst out. cbn [snd] in Htrace. rewrite Hw2, Hw1 in Htrace. cbn [trace] in Htrace.
      rewrite <- app_assoc in Htrace. apply app_inv_head in Htrace.
      rewrite <- (app_nil_r (ev1 ++ ev2)) in Htrace.
      destruct (split_after _ _ _ _ _ _ Htrace Hq12 Hpoll) as (pre' & _ & Hnil).
      now destruct pre'. }
  rewrite (POST_after_create _ _ _ _ _ _ _ _ _ Hin Hcreate) in Hout.
  destruct (poll_ends env auth id (now w2) poll_bound (str "") w2) as (ev3 & Hw3 & Hinv).
  subst out. cbn [fst snd] in *.
  rewrite Hw3, Hw2, Hw1 in Htrace. cbn [trace] in Htrace.
  rewrite <- !app_assoc in Htrace. apply app_inv_head in Htrace. rewrite app_assoc in Htrace.
  destruct (split_after _ _ _ _ _ _ Htrace Hq12 Hpoll) as (pre' & -> & Hev3).
  assert (Hsame : (trace w2 ++ pre' = trace w ++ (ev1 ++ ev2) ++ pre')%list).
  { rewrite Hw2, Hw1. cbn [trace]. now rewrite <- !app_assoc. }
  rewrite <- Hsame in *.
  destruct (Hinv pre' sent post Hev3 Hdecisive) as (Hpost & Hres & prefix & Hurl).
  { intros t r Hup Hno ->. now apply (Hfinal t r Hup Hno id). }
  split; [exact Hpost|]. exists prefix, auth, id. split; [exact Hurl|]. now rewrite Hres.
Qed.

(** X1.  A status check answered with status done and a result URL is the last
    effect of the invocation: nothing is requested, awaited or logged after
    it, and POST answers 200 with the job id the check was made for and
    that URL as videoUrl.  The check may have ended on either path. *)
Theorem done_status_returns_video request_json w pre sent post took r s :
  let out := POST env request_json w in
  trace (snd out) = (trace w ++ pre ++ EFetch sent :: post)%list ->
  method sent = "GET" ->
  upstream env (length (requests (trace w ++ pre))) sent = Resolved took r ->
  ok r = true ->
  res_json r = Document s ->
  is_string "done" (member "status" s) = true ->
  truthy (member "result_url" s) = true ->
  post = [] /\
  exists prefix auth id,
    sent = statusReq prefix auth id /\
    fst out = Some (mkHttp 200 [("id", id); ("videoUrl", member "result_url" s)]).
Proof.
  intros out Htrace Hget Hup Hok Hjson Hdone Hurl.
  assert (Hverdict : verdict (upstream env (length (requests (trace w ++ pre))) sent) = Val s).
  { rewrite Hup. cbn. rewrite Hok. unfold body_of. now rewrite Hjson. }
  destruct (POST_ends request_json w pre sent post Htrace Hget)
    as (Hpost & prefix & auth & id & Hsent & Hanswer).
  { rewrite Hverdict. cbn. unfold keeps_polling. rewrite Hdone, Hurl. now destruct s. }
  { intros t r' Hup' Hno. congruence. }
  split; [exact Hpost|]. exists prefix, auth, id. split; [exact Hsent|].
  fold out in Hanswer. rewrite Hanswer, Hverdict. cbn [leaves].
  destruct s; try discriminate. rewrite Hdone, Hurl. cbn [andb answer_of]. now rewrite Hurl.
Qed.

(** X2.  A status check that fails is not retried: it is the last effect of the
    invocation, and POST answers 500 "Request failed".  This is so when a
    status request is rejected (a network failure, on either path), when
    the request on the legacy path is answered with an error status (the
    detail carries that answer's body, the body of the primary path's
    failure having gone to the console), and when a success status comes
    with a body that is not JSON. *)
Theorem failed_status_check_aborts request_json w pre sent post :
  let out := POST env request_json w in
  let answered := upstream env (length (requests (trace w ++ pre))) sent in
  trace (snd out) = (trace w ++ pre ++ EFetch sent :: post)%list ->
  method sent = "GET" ->
  (forall took m,
      answered = Rejected took m ->
      post = [] /\
      fst out = Some (mkHttp 500 [("error", str "Request failed");
                                  ("detail", str ("TypeError: " +:+ m))])) /\
  (forall took r v,
      answered = Resolved took r ->
      ok r = false ->
      url sent = Template "https://api.d-id.com/talks/" v ->
      post = [] /\
      fst out = Some (mkHttp 500 [("error", str "Request failed");
                                  ("detail", str ("Error: D-ID status error: " +:+ res_text r))])) /\
  (forall took r m,
      answered = Resolved took r ->
      ok r = true ->
      res_json r = Malformed m ->
      post = [] /\
      fst out = Some (mkHttp 500 [("error", str "Request failed");
                                  ("detail", str ("SyntaxError: " +:+ m))])).
Proof.
  intros out answered Htrace Hget.
  pose proof (POST_ends request_json w pre sent post Htrace Hget) as Hends.
  fold out answered in Hends.
  split; [|split].
  - intros took m Hup. rewrite Hup in Hends.
    destruct Hends as (Hpost & _ & _ & id & _ & Hanswer); [reflexivity|discriminate|].
    split; [exact Hpost|]. now rewrite Hanswer.
  - intros took r v Hup Hno Hurl. rewrite Hup in Hends. cbn [verdict] in Hends.
    rewrite Hno in Hends.
    destruct Hends as (Hpost & _ & _ & id & _ & Hanswer); [reflexivity|congruence|].
    split; [exact Hpost|]. now rewrite Hanswer.
  - intros took r m Hup Hok Hbody. rewrite Hup in Hends. cbn [verdict] in Hends.
    rewrite Hok in Hends. unfold body_of in Hends. rewrite Hbody in Hends.
    destruct Hends as (Hpost & _ & _ & id & _ & Hanswer); [reflexivity|congruence|].
    split; [exact Hpost|]. now rewrite Hanswer.
Qed.

(** X3.  Whatever the request and whatever the upstream does, an invocation
    ends with an answer, of status 200, 400, 500, 502 or 504, after at most
    54 upstream requests (4 for the submission, 2 for each of at most 25
    status checks) and at most 25 delays, of intervalMs each; the clock
    never runs backwards over it. *)
Theorem invocation_is_bounded request_json w :
  let out := POST env request_json w in
  exists events (j : nat) a,
    trace (snd out) = (trace w ++ events)%list /\
    (length (requests events) <= 54)%nat /\
    (j <= 25)%nat /\
    naps events = replicate j intervalMs /\
    fst out = Some a /\
    In (code a) [200; 400; 500; 502; 504] /\
    now w <= now (snd out).
Proof.
  cbv zeta.
  destruct (POST_work request_json w) as (events & Htrace & Hclock & (a & Ha & Hcode) &
                                          (j & Hj & Hnaps) & Hsent).
  exists events, j, a. repeat split; try assumption.
  destruct (fst (POST_inputs env request_json w))
    as [[answer|[[[auth text] sourceUrl] voiceId]]|e]; try (rewrite Hsent; cbn; lia).
  destruct Hsent as (m & polls & id & _ & -> & Hpolls & _).
  rewrite length_app, length_take. cbn [tiers fallbacks map length]. lia.
Qed.

(** X5.  Once the inputs are read, every request of the invocation carries
    the headers built from the same credential: first the tiers of the
    submission, in their order, then status requests (GET, no body), all
    for one job id. *)
Theorem requests_carry_the_credential request_json w auth text sourceUrl voiceId w1 :
  POST_inputs env request_json w = (Val (inr (auth, text, sourceUrl, voiceId)), w1) ->
  exists (m : nat) polls id,
    requests (trace (snd (POST env request_json w))) =
      (requests (trace w) ++ take m (tiers auth text sourceUrl voiceId) ++ polls)%list /\
    (1 <= m)%nat /\
    Forall (fun rq => exists prefix, rq = statusReq prefix auth id) polls /\
    Forall (fun rq => method rq = "GET" /\ body rq = None) polls /\
    Forall (fun rq => headers rq = buildAuthHeaders auth)
           (take m (tiers auth text sourceUrl voiceId) ++ polls).
Proof.
  intros Hin.
  destruct (POST_work request_json w) as (events & Htrace & _ & _ & _ & Hsent).
  rewrite Hin in Hsent. cbn [fst] in Hsent.
  destruct Hsent as (m & polls & id & Hm & Hreq & _ & Hpolls).
  exists m, polls, id. rewrite Htrace, requests_app, Hreq.
  split; [reflexivity|]. split; [exact Hm|]. split; [exact Hpolls|]. split.
  - eapply Forall_impl; [exact Hpolls|]. now intros rq (prefix & ->).
  - apply Forall_app. split.
    + apply Forall_take, tiers_headers.
    + eapply Forall_impl; [exact Hpolls|]. now intros rq (prefix & ->).
Qed.

(** X4.  The submission falls back on an error status only.  When the fetch of
    a tier is rejected (a network failure), after any number of tiers that
    were refused, no further tier is tried: POST answers 500 "Request
    failed" with the rejection as detail, having sent the tiers up to that
    one and nothing else. *)
Theorem rejected_submission_is_not_retried
    request_json w auth text sourceUrl voiceId w1 (k : nat) took m :
  POST_inputs env request_json w = (Val (inr (auth, text, sourceUrl, voiceId)), w1) ->
  let n := length (requests (trace w)) in
  let ts := tiers auth text sourceUrl voiceId in
  (k < 4)%nat ->
  (forall i rq, (i < k)%nat -> ts !! i = Some rq ->
     exists t r, upstream env (n + i) rq = Resolved t r /\ ok r = false) ->
  (forall rq, ts !! k = Some rq -> upstream env (n + k) rq = Rejected took m) ->
  fst (POST env request_json w) =
    Some (mkHttp 500 [("error", str "Request failed");
                      ("detail", str ("TypeError: " +:+ m))]) /\
  requests (trace (snd (POST env request_json w))) = (requests (trace w) ++ take (S k) ts)%list.
Proof.
  intros Hin n ts Hk Hfail Hrej.
  destruct (POST_inputs_quiet _ _ _ _ Hin) as (ev1 & Hw1 & Hr1 & _).
  assert (Hreq1 : requests (trace w1) = requests (trace w)).
  { rewrite Hw1. cbn [trace]. now rewrite requests_app, Hr1, app_nil_r. }
  rewrite POST_by_parts, Hin.
  destruct (POST_create env auth text sourceUrl voiceId w1) as [r w2] eqn:Hcreate.
  unfold POST_create, bind at 1, console, emit in Hcreate.
  cbn [now trace responseCache] in Hcreate.
  set (w0 := mkWorld _ _ _) in Hcreate.
  assert (Hreq0 : requests (trace w0) = requests (trace w)).
  { subst w0. cbn [trace]. now rewrite requests_console. }
  unfold bind at 1 in Hcreate. rewrite createTalk_cascade in Hcreate.
  destruct (cascade_rejects (fallbacks auth text sourceUrl voiceId)
              (tier1 auth text sourceUrl) w0 k took m) as [Hres Hsent].
  - cbn. lia.
  - rewrite Hreq0. exact Hfail.
  - rewrite Hreq0. exact Hrej.
  - destruct (cascade env _ _ w0) as [[created|e] w3]; cbn [fst snd] in Hres, Hsent;
      [discriminate|].
    injection Hres as ->. injection Hcreate as <- <-. cbn [fst snd failed String_].
    split; [reflexivity|]. now rewrite Hsent, Hreq0.
Qed.

(** What POST_inputs makes of the environment and of a body it accepts. *)
Lemma POST_inputs_accepts request_json w auth text sourceUrl voiceId w1 :
  POST_inputs env request_json w = (Val (inr (auth, text, sourceUrl, voiceId)), w1) ->
  auth = mkAuth (or_else (chosen_key env) None) (or_else (DID_BASIC_AUTH env) None) /\
  present (chosen_key env) || present (DID_BASIC_AUTH env) = true /\
  exists body t,
    request_json = Document body /\
    chain_trim "body?.text" (member "text" body) w1 = (Val (Some t), w1) /\
    nonempty t = true /\ text = t /\
    exists u v,
      chain_trim "body?.source_url" (member "source_url" body) w1 = (Val u, w1) /\
      chain_trim "body?.voice_id" (member "voice_id" body) w1 = (Val v, w1) /\
      sourceUrl = narrowed (or_else u (Some DEFAULT_SOURCE_URL)) /\
      voiceId = narrowed (or_else v (Some DEFAULT_VOICE_ID)).
Proof.
  intros Hin.
  assert (Hkey : or_else (or_else (DID_API_KEY env) (NEXT_PUBLIC_DID_API_KEY env)) None =
                 or_else (chosen_key env) None) by reflexivity.
  assert (Hpresent : forall o, present (or_else o None) = present o).
  { intros o. unfold or_else. now destruct (present o) eqn:Ho. }
  unfold POST_inputs, bind at 1, console, emit in Hin. cbn [now trace responseCache] in Hin.
  rewrite Hkey, !Hpresent in Hin.
  destruct (present (chosen_key env) || present (DID_BASIC_AUTH env)) eqn:Hcred.
  2:{ apply orb_false_iff in Hcred as [H1 H2]. rewrite H1, H2 in Hin. cbn in Hin.
      discriminate. }
  replace (negb (present (chosen_key env)) && negb (present (DID_BASIC_AUTH env)))
    with false in Hin by (now rewrite <- negb_orb, Hcred).
  split; [|split; [reflexivity|]].
  2:{ unfold bind at 1 in Hin.
      destruct request_json as [m|body]; cbn [parsed throw ret] in Hin; [discriminate|].
      exists body. rewrite chain_member in Hin. unfold bind at 1 in Hin.
      destruct (member "text" body) as [[| | |s| |]|]; cbn [chain_trim throw ret] in Hin;
        try discriminate.
      cbn [present narrowed] in Hin.
      destruct (nonempty (trim s)) eqn:Hs; cbn [negb] in Hin; [|discriminate].
      rewrite !chain_member in Hin. unfold bind at 1 in Hin.
      destruct (member "source_url" body) as [[| | |u| |]|]; cbn [chain_trim throw ret] in Hin;
        try discriminate.
      all: unfold bind at 1 in Hin.
      all: destruct (member "voice_id" body) as [[| | |v| |]|]; cbn [chain_trim throw ret] in Hin;
        try discriminate.
      all: injection Hin as <- <- <- <- <-.
      all: exists (trim s); cbn [chain_trim ret]; repeat split; try assumption.
      all: eexists _, _; repeat split. }
  unfold bind at 1 in Hin.
  destruct request_json as [m|body]; cbn [parsed throw ret] in Hin; [discriminate|].
  unfold bind at 1 in Hin.
  destruct (chain_trim "body?.text" _ _) as [[t|e] w0]; [|discriminate].
  destruct (negb (present t)); [discriminate|].
  unfold bind at 1 in Hin.
  destruct (chain_trim "body?.source_url" _ _) as [[u|e] w2]; [|discriminate].
  unfold bind at 1 in Hin.
  destruct (chain_trim "body?.voice_id" _ _) as [[v|e] w3]; [|discriminate].
  unfold ret in Hin. now injection Hin as <- _ _ _ _.
Qed.

(** X6.  Which credential the requests carry.  A Basic-auth credential that is
    not blank goes first; otherwise the API key does, which is DID_API_KEY
    whenever that variable is set and not empty, NEXT_PUBLIC_DID_API_KEY
    only in its place.  A variable that holds white space only counts as
    configured when the route checks its credentials but yields no header; so with
    DID_API_KEY blank the requests go out with the Content-Type header
    alone, whatever NEXT_PUBLIC_DID_API_KEY holds. *)
Theorem credential_choice request_json w auth text sourceUrl voiceId w1 :
  POST_inputs env request_json w = (Val (inr (auth, text, sourceUrl, voiceId)), w1) ->
  let basic := DID_BASIC_AUTH env in
  let key := chosen_key env in
  (nonblank basic = true ->
   buildAuthHeaders auth =
     [("Content-Type", "application/json");
      ("Authorization",
       if startsWith (trim (narrowed basic)) "Basic " then trim (narrowed basic)
       else "Basic " +:+ trim (narrowed basic))]) /\
  (nonblank basic = false -> nonblank key = true ->
   buildAuthHeaders auth =
     [("Content-Type", "application/json"); ("x-api-key", trim (narrowed key))]) /\
  (nonblank basic = false -> nonblank key = false ->
   buildAuthHeaders auth = [("Content-Type", "application/json")]) /\
  (present (DID_API_KEY env) = true -> key = DID_API_KEY env).
Proof.
  intros Hin basic key.
  destruct (POST_inputs_accepts _ _ _ _ _ _ _ Hin) as (-> & _ & _).
  fold basic key.
  assert (Hblank : forall o, nonblank (or_else o None) = nonblank o).
  { intros [[|c t]|]; reflexivity. }
  assert (Hsame : forall o, nonblank o = true -> or_else o None = o).
  { intros [[|c t]|]; (reflexivity || discriminate). }
  unfold buildAuthHeaders. cbn [basicAuth studioApiKey]. rewrite !Hblank.
  split; [|split; [|split]].
  - intros Hb. now rewrite Hb, (Hsame _ Hb).
  - intros Hb Hk. now rewrite Hb, Hk, (Hsame _ Hk).
  - intros Hb Hk. now rewrite Hb, Hk.
  - intros Hp. subst key. unfold chosen_key. now rewrite Hp.
Qed.

(** X7.  The optional fields of the body.  In every submission the text is the
    trimmed text of the body and is not empty; the source URL and the voice
    are those of the body, trimmed, when given, and the defaults when not
    given (absent, null, or blank); so neither is ever empty. *)
Theorem defaults_fill_missing_fields body w auth text sourceUrl voiceId w1 :
  POST_inputs env (Document body) w = (Val (inr (auth, text, sourceUrl, voiceId)), w1) ->
  (exists s, member "text" body = Some (JStr s) /\ text = trim s) /\
  nonempty text = true /\ nonempty sourceUrl = true /\ nonempty voiceId = true /\
  (not_given (member "source_url" body) = true -> sourceUrl = DEFAULT_SOURCE_URL) /\
  (forall u, member "source_url" body = Some (JStr u) -> nonempty (trim u) = true ->
             sourceUrl = trim u) /\
  (not_given (member "voice_id" body) = true -> voiceId = DEFAULT_VOICE_ID) /\
  (forall v, member "voice_id" body = Some (JStr v) -> nonempty (trim v) = true ->
             voiceId = trim v).
Proof.
  intros Hin.
  destruct (POST_inputs_accepts _ _ _ _ _ _ _ Hin)
    as (_ & _ & body' & t & [= <-] & Ht & Hne & -> & u & v & Hu & Hv & -> & ->).
  assert (Hfield : forall what name d o,
    chain_trim what (member name body) w1 = (Val o, w1) ->
    nonempty d = true ->
    nonempty (narrowed (or_else o (Some d))) = true /\
    (not_given (member name body) = true -> narrowed (or_else o (Some d)) = d) /\
    (forall x, member name body = Some (JStr x) -> nonempty (trim x) = true ->
               narrowed (or_else o (Some d)) = trim x)).
  { intros what name d o Ho Hd.
    destruct (member name body) as [[| | |x| |]|]; cbn [chain_trim throw ret] in Ho;
      try discriminate; injection Ho as <-; unfold or_else; cbn [present narrowed not_given].
    1,3: repeat split; auto; discriminate.
    destruct (nonempty (trim x)) eqn:Hx; cbn [narrowed negb].
    - repeat split; try assumption; [discriminate|]. now intros ? [= <-].
    - repeat split; auto. intros ? [= <-] Hx'. rewrite Hx in Hx'. discriminate. }
  destruct (Hfield _ _ DEFAULT_SOURCE_URL _ Hu eq_refl) as (Hu1 & Hu2 & Hu3).
  destruct (Hfield _ _ DEFAULT_VOICE_ID _ Hv eq_refl) as (Hv1 & Hv2 & Hv3).
  split; [|repeat split; assumption].
  destruct (member "text" body) as [[| | |s| |]|]; cbn [chain_trim throw ret] in Ht;
    try discriminate.
  exists s. split; [reflexivity|]. unfold ret in Ht. now injection Ht as <-.
Qed.

(** The two answers POST can give before the submission. *)
Lemma POST_inputs_refusal request_json w a w1 :
  POST_inputs env request_json w = (Val (inl a), w1) ->
  a = mkHttp 500 [("error", str "Missing D-ID credentials");
                  ("detail", str "Set DID_API_KEY or DID_BASIC_AUTH")] \/
  a = mkHttp 400 [("error", str "Missing 'text'")].
Proof.
  intros Hin.
  unfold POST_inputs, bind at 1, console, emit in Hin. cbn [now trace responseCache] in Hin.
  destruct (negb _ && negb _).
  { unfold bind, ret in Hin. injection Hin as <- _. now left. }
  unfold bind at 1 in Hin.
  destruct request_json as [m|body]; cbn [parsed throw ret] in Hin; [discriminate|].
  unfold bind at 1 in Hin.
  destruct (chain (member "text") (Some body)) as [[]|]; cbn [chain_trim throw ret] in Hin;
    try discriminate.
  all: destruct (negb _); [injection Hin as <- _; now right|].
  all: unfold bind at 1 in Hin.
  all: destruct (chain (member "source_url") (Some body)) as [[]|];
    cbn [chain_trim throw ret] in Hin; try discriminate.
  all: unfold bind at 1 in Hin.
  all: destruct (chain (member "voice_id") (Some body)) as [[]|];
    cbn [chain_trim throw ret] in Hin; discriminate.
Qed.

(** The job id is the id member of the document the submission returned. *)
Lemma POST_create_id auth text sourceUrl voiceId w id w' :
  POST_create env auth text sourceUrl voiceId w = (Val id, w') ->
  exists created,
    fst (createTalk env auth text sourceUrl voiceId
           (mkWorld (now w) (responseCache w)
              (trace w ++ [EConsole Log [str "Creating D-ID talk with text:";
                                         str (substring0 50 text +:+ "...")]]))) =
      Val created /\
    id = member "id" created.
Proof.
  unfold POST_create, bind at 1, console, emit. cbn [now trace responseCache].
  unfold bind at 1.
  destruct (createTalk env auth text sourceUrl voiceId _) as [[created|e] w1];
    [|discriminate].
  unfold bind at 1, destructure. intros Hid. exists created. split; [reflexivity|].
  destruct created; cbn [throw ret] in Hid; try discriminate;
    unfold bind, console, emit, ret in Hid; now injection Hid as <- _.
Qed.

(** X21.  What each status of the video route tells its caller.  A 200, a 502
    and a 504 are given only once a job is submitted, and carry as id the id
    member of the document the submission returned (undefined when that
    document has none); each is decided by the last status check made,
    every check before it having let the loop go on, and the checks are
    all the requests made after the submission.  A 200 carries as videoUrl
    the result URL of that check, which showed done and a URL that is not
    empty.  A 502 carries as detail the error member of that check, which
    showed error.  A 504 carries the status that check showed; it let the
    loop go on too, a delay followed every check, and the answer is never
    given before timeoutMs have passed since the call began.  A 400 is the
    missing text, and then nothing was sent upstream.  A 500 is the missing
    credentials, also with nothing sent, or the answer of the catch
    block. *)
Theorem status_codes_are_sound request_json w a :
  fst (POST env request_json w) = Some a ->
  let w' := snd (POST env request_json w) in
  (In (code a) [200; 502; 504] ->
   exists auth text sourceUrl voiceId w1 created id w2 (k : nat),
     POST_inputs env request_json w = (Val (inr (auth, text, sourceUrl, voiceId)), w1) /\
     POST_create env auth text sourceUrl voiceId w1 = (Val id, w2) /\
     fst (createTalk env auth text sourceUrl voiceId
            (mkWorld (now w1) (responseCache w1)
               (trace w1 ++ [EConsole Log [str "Creating D-ID talk with text:";
                                           str (substring0 50 text +:+ "...")]]))) =
       Val created /\
     id = member "id" created /\
     let check i :=
       status_check env auth id
         (check_start env auth id (length (requests (trace w2))) i) in
     (forall i, (i < k)%nat -> goes_on (check i) = true) /\
     length (requests (trace w')) =
       check_start env auth id (length (requests (trace w2))) (S k) /\
     (code a = 200 ->
      exists s,
        check k = Val s /\
        is_string "done" (member "status" s) = true /\
        truthy (member "result_url" s) = true /\
        a = mkHttp 200 [("id", id); ("videoUrl", member "result_url" s)] /\
        naps (trace w') = (naps (trace w) ++ replicate k intervalMs)%list) /\
     (code a = 502 ->
      exists s,
        check k = Val s /\
        is_string "error" (member "status" s) = true /\
        a = mkHttp 502 [("error", str "D-ID processing error");
                        ("detail", member "error" s); ("id", id)] /\
        naps (trace w') = (naps (trace w) ++ replicate k intervalMs)%list) /\
     (code a = 504 ->
      goes_on (check k) = true /\
      a = mkHttp 504 [("error", str "Timeout waiting for video"); ("id", id);
                      ("status", shown (check k))] /\
      naps (trace w') = (naps (trace w) ++ replicate (S k) intervalMs)%list /\
      now w + timeoutMs <= now w')) /\
  (code a = 400 ->
   a = mkHttp 400 [("error", str "Missing 'text'")] /\
   requests (trace w') = requests (trace w)) /\
  (code a = 500 ->
   (a = mkHttp 500 [("error", str "Missing D-ID credentials");
                    ("detail", str "Set DID_API_KEY or DID_BASIC_AUTH")] /\
    requests (trace w') = requests (trace w)) \/
   exists detail, a = mkHttp 500 [("error", str "Request failed"); ("detail", str detail)]).
Proof.
  cbv zeta. rewrite POST_by_parts.
  destruct (POST_inputs env request_json w) as [r w1] eqn:Hin.
  destruct (POST_inputs_quiet _ _ _ _ Hin) as (ev1 & Hw1 & Hr1 & Hn1 & _).
  assert (Hreq1 : requests (trace w1) = requests (trace w)).
  { rewrite Hw1. cbn [trace]. now rewrite requests_app, Hr1, app_nil_r. }
  assert (Hnap1 : naps (trace w1) = naps (trace w)).
  { rewrite Hw1. cbn [trace]. now rewrite naps_app, Hn1, app_nil_r. }
  assert (Hnow1 : now w1 = now w) by now rewrite Hw1.
  clear Hw1.
  destruct r as [[answer|[[[auth text] sourceUrl] voiceId]]|e]; cbn [fst snd].
  - intros [= <-].
    destruct (POST_inputs_refusal _ _ _ _ Hin) as [-> | ->]; cbn [code];
      (split; [intros [H|[H|[H|[]]]]; discriminate|]);
      repeat split; try discriminate; auto.
  - destruct (POST_create env auth text sourceUrl voiceId w1) as [r w2] eqn:Hcreate.
    destruct (POST_create_work _ _ _ _ _ _ _ Hcreate) as (ev2 & m & Htr2 & _ & _ & Hn2 & Hclock).
    assert (Hnap2 : naps (trace w2) = naps (trace w)).
    { now rewrite Htr2, naps_app, Hn2, app_nil_r. }
    destruct r as [id|e]; cbn [fst snd].
    2:{ intros [= <-]. cbn [code]. split; [intros [H|[H|[H|[]]]]; discriminate|].
        repeat split; try discriminate. intros _. right. eauto. }
    destruct (POST_create_id _ _ _ _ _ _ _ Hcreate) as (created & Hcreated & Hid).
    rewrite poll_bound_eq.
    destruct (poll_run env auth id (now w2) 25 (str "") w2)
      as (k & r & w3 & Hrun & Hk & Hprev & Hnap & Hend).
    { unfold timeoutMs, intervalMs. lia. }
    rewrite Hrun, Hnap2 in *. cbn [fst snd]. unfold nth_check in *.
    destruct Hend as [(-> & Hone & Hlen & Hlate)|(Hlast & -> & Hlen)].
    + cbn [answer_of truthy negb]. intros [= <-]. cbn [code timed_out].
      destruct k as [|k]; [exfalso; assert (1 <= 0)%nat by (apply Hone; unfold timeoutMs; lia); lia|].
      split; [|repeat split; discriminate].
      intros _. exists auth, text, sourceUrl, voiceId, w1, created, id, w2, k.
      repeat split; try assumption; try discriminate.
      * intros i Hi. apply Hprev. lia.
      * apply Hprev. lia.
      * lia.
    + destruct (status_check env auth id _) as [s|e] eqn:Hcheck.
      2:{ cbn [leaves answer_of]. intros [= <-]. cbn [code]. split; [intros [H|[H|[H|[]]]]; discriminate|].
          repeat split; try discriminate. intros _. right. eauto. }
      cbn [goes_on] in Hlast. unfold keeps_polling in Hlast.
      assert (Hexit :
        s = JNull \/
        (s <> JNull /\ is_string "done" (member "status" s) = true /\
         truthy (member "result_url" s) = true) \/
        (s <> JNull /\
         is_string "done" (member "status" s) && truthy (member "result_url" s) = false /\
         is_string "error" (member "status" s) = true)).
      { destruct s; [now left|..]; right;
          (destruct (is_string "done" _ && truthy _) eqn:Hdone;
           [left; apply andb_true_iff in Hdone as [? ?]; repeat split; (discriminate || assumption)
           |right; cbn [negb andb] in Hlast; apply negb_false_iff in Hlast;
            repeat split; (discriminate || assumption)]). }
      destruct Hexit as [->|[(Hs & Hdone & Hurl)|(Hs & Hnot & Herr)]].
      * cbn [leaves answer_of]. intros [= <-]. cbn [code].
        split; [intros [H|[H|[H|[]]]]; discriminate|].
        repeat split; try discriminate. intros _. right. eauto.
      * assert (Hleave : leaves id (Val s) =
                  Val (Some (Fell (member "result_url" s) (member "status" s)))).
        { destruct s; try contradiction; cbn [leaves]; now rewrite Hdone, Hurl. }
        rewrite Hleave. cbn [answer_of]. rewrite Hurl. cbn [negb]. intros [= <-]. cbn [code].
        split; [|repeat split; discriminate].
        intros _. exists auth, text, sourceUrl, voiceId, w1, created, id, w2, k.
        repeat split; try assumption; try discriminate. intros _. exists s. now repeat split.
      * assert (Hleave : leaves id (Val s) =
                  Val (Some (Returned (processing_error (member "error" s) id)))).
        { destruct s; try contradiction; cbn [leaves]; now rewrite Hnot. }
        rewrite Hleave. cbn [answer_of processing_error]. intros [= <-]. cbn [code].
        split; [|repeat split; discriminate].
        intros _. exists auth, text, sourceUrl, voiceId, w1, created, id, w2, k.
        repeat split; try assumption; try discriminate. intros _. exists s. now repeat split.
  - intros [= <-]. cbn [code]. split; [intros [H|[H|[H|[]]]]; discriminate|].
    repeat split; try discriminate. intros _. right. eauto.
Qed.

End Call.

Lemma done_status_returns_video_witness :
  exists prefix auth id,
    pollReq key_auth (str "job4") = statusReq prefix auth id /\
    fst (POST flaky (Document (saying "Hello")) boot) =
      Some (mkHttp 200 [("id", id); ("videoUrl", str "https://x/y.mp4")]).
Proof.
  exact (proj2 (done_status_returns_video flaky (Document (saying "Hello")) boot
                  (before_last flaky) (pollReq key_auth (str "job4")) [] 5%N
                  (mkResponse 200 ""
                     (Document (JObj [("status", JStr "done");
                                      ("result_url", JStr "https://x/y.mp4")])))
                  (JObj [("status", JStr "done"); ("result_url", JStr "https://x/y.mp4")])
                  eq_refl eq_refl eq_refl eq_refl eq_refl eq_refl eq_refl)).
Defined.

Lemma failed_status_check_aborts_witness :
  fst (POST vanishing (Document (saying "Hello")) boot) =
    Some (mkHttp 500 [("error", str "Request failed");
                      ("detail", str "Error: D-ID status error: gone too")]).
Proof.
  exact (proj2 (proj1 (proj2 (failed_status_check_aborts vanishing (Document (saying "Hello"))
                                boot (before_last vanishing)
                                (statusReq "https://api.d-id.com/talks/" key_auth (str "job123"))
                                [] eq_refl eq_refl))
                      5%N (mkResponse 500 "gone too" (Malformed "Unexpected token"))
                      (str "job123") eq_refl eq_refl eq_refl)).
Defined.

Lemma requests_carry_the_credential_witness :
  exists (m : nat) polls id,
    requests (trace (snd (POST flaky (Document (saying "Hello")) boot))) =
      (requests (trace boot) ++
       take m (tiers key_auth "Hello" DEFAULT_SOURCE_URL DEFAULT_VOICE_ID) ++ polls)%list /\
    (1 <= m)%nat /\
    Forall (fun rq => exists prefix, rq = statusReq prefix key_auth id) polls /\
    Forall (fun rq => method rq = "GET" /\ body rq = None) polls /\
    Forall (fun rq => headers rq = buildAuthHeaders key_auth)
           (take m (tiers key_auth "Hello" DEFAULT_SOURCE_URL DEFAULT_VOICE_ID) ++ polls).
Proof.
  exact (requests_carry_the_credential flaky (Document (saying "Hello")) boot key_auth
           "Hello" DEFAULT_SOURCE_URL DEFAULT_VOICE_ID (hello_read flaky) eq_refl).
Defined.

Lemma rejected_submission_is_not_retried_witness :
  fst (POST dropping (Document (saying "Hello")) boot) =
    Some (mkHttp 500 [("error", str "Request failed");
                      ("detail", str "TypeError: socket hang up")]) /\
  requests (trace (snd (POST dropping (Document (saying "Hello")) boot))) =
    take 2 (tiers key_auth "Hello" DEFAULT_SOURCE_URL DEFAULT_VOICE_ID).
Proof.
  refine (rejected_submission_is_not_retried dropping (Document (saying "Hello")) boot
            key_auth "Hello" DEFAULT_SOURCE_URL DEFAULT_VOICE_ID (hello_read dropping)
            1 3%N "socket hang up" eq_refl _ _ _).
  - lia.
  - intros i rq Hi _. destruct i; [|lia]. eexists _, _. split; reflexivity.
  - intros rq _. reflexivity.
Defined.

Lemma credential_choice_witness :
  POST_inputs blank_keyed (Document (saying "Hello")) boot =
    (Val (inr (blank_auth, "Hello", DEFAULT_SOURCE_URL, DEFAULT_VOICE_ID)),
     hello_read blank_keyed) /\
  buildAuthHeaders blank_auth = [("Content-Type", "application/json")].
Proof.
  split; [reflexivity|].
  exact (proj1 (proj2 (proj2 (credential_choice blank_keyed (Document (saying "Hello")) boot
                                blank_auth "Hello" DEFAULT_SOURCE_URL DEFAULT_VOICE_ID
                                (hello_read blank_keyed) eq_refl)))
               eq_refl eq_refl).
Defined.

Lemma defaults_fill_missing_fields_witness :
  POST_inputs chatty (Document voiced) boot =
    (Val (inr (key_auth, "Hi", DEFAULT_SOURCE_URL, "en-GB-SoniaNeural")),
     snd (POST_inputs chatty (Document voiced) boot)) /\
  nonempty "Hi" = true /\ nonempty DEFAULT_SOURCE_URL = true /\
  nonempty "en-GB-SoniaNeural" = true.
Proof.
  split; [reflexivity|].
  destruct (defaults_fill_missing_fields chatty voiced boot key_auth "Hi" DEFAULT_SOURCE_URL
              "en-GB-SoniaNeural" (snd (POST_inputs chatty (Document voiced) boot)) eq_refl)
    as (_ & Htext & Hsource & Hvoice & _).
  exact (conj Htext (conj Hsource Hvoice)).
Defined.

Lemma status_codes_are_sound_witness :
  fst (POST erring (Document (saying "Hello")) boot) =
    Some (mkHttp 502 [("error", str "D-ID processing error");
                      ("detail", str "boom"); ("id", str "job123")]) /\
  exists (k : nat) s,
    (forall i, (i < k)%nat ->
       goes_on (status_check erring key_auth (str "job123")
                  (check_start erring key_auth (str "job123") 1 i)) = true) /\
    status_check erring key_auth (str "job123")
      (check_start erring key_auth (str "job123") 1 k) = Val s /\
    is_string "error" (member "status" s) = true /\
    mkHttp 502 [("error", str "D-ID processing error");
                ("detail", str "boom"); ("id", str "job123")] =
    mkHttp 502 [("error", str "D-ID processing error");
                ("detail", member "error" s); ("id", str "job123")] /\
    length (requests (trace (snd (POST erring (Document (saying "Hello")) boot)))) =
      check_start erring key_auth (str "job123") 1 (S k).
Proof.
  split; [reflexivity|].
  destruct (proj1 (status_codes_are_sound erring (Document (saying "Hello")) boot
                     (mkHttp 502 [("error", str "D-ID processing error");
                                  ("detail", str "boom"); ("id", str "job123")])
                     eq_refl) (or_intror (or_introl eq_refl)))
    as (auth & text & sourceUrl & voiceId & w1 & created & id & w2 & k &
        Hin & Hcreate & _ & _ & Hprev & Hlen & _ & Herror & _).
  change (POST_inputs erring (Document (saying "Hello")) boot)
    with (Val (inr (A := HttpResponse) (key_auth, "Hello", DEFAULT_SOURCE_URL, DEFAULT_VOICE_ID)),
          hello_read erring) in Hin.
  injection Hin as <- <- <- <- <-.
  change (POST_create erring key_auth "Hello" DEFAULT_SOURCE_URL DEFAULT_VOICE_ID
            (hello_read erring))
    with (Val (str "job123"), hello_submitted erring) in Hcreate.
  injection Hcreate as <- <-.
  destruct (Herror eq_refl) as (s & Hs & Hstatus & Ha & _).
  exists k, s. repeat split; assumption.
Defined.

End DidTalkEdges.

(** ** Request bodies the routes cannot use, and the cache over time *)

Module RoutesEdges.
Import Fixtures RuntimeFacts TraceFacts.

Section Configured.

Variable env : Env.
Hypothesis Htext_key : present (GOOGLE_GENERATIVE_API_KEY env) = true.
Hypothesis Hvideo_key :
  present (DID_API_KEY env) || present (NEXT_PUBLIC_DID_API_KEY env)
  || present (DID_BASIC_AUTH env) = true.

(** With a credential the video route gets to the body, after its console
    line. *)
Lemma video_reads_body request_json w :
  DidTalk.POST_inputs env request_json w =
  (let! body := parsed request_json in
   let! text := chain_trim "body?.text" (chain (member "text") (Some body)) in
   if negb (present text) then
     ret (inl (mkHttp 400 [("error", str "Missing 'text'")]))
   else
     let text := narrowed text in
     let! source_url := chain_trim "body?.source_url" (chain (member "source_url") (Some body)) in
     let sourceUrl := narrowed (or_else source_url (Some DidTalk.DEFAULT_SOURCE_URL)) in
     let! voice_id := chain_trim "body?.voice_id" (chain (member "voice_id") (Some body)) in
     let voiceId := narrowed (or_else voice_id (Some DidTalk.DEFAULT_VOICE_ID)) in
     ret (inr (DidTalk.mkAuth
                 (or_else (or_else (DID_API_KEY env) (NEXT_PUBLIC_DID_API_KEY env)) None)
                 (or_else (DID_BASIC_AUTH env) None),
               text, sourceUrl, voiceId)))
    (mkWorld (now w) (responseCache w)
       (trace w ++ [EConsole Log [str "DID auth present:"; Some (JBool true)]])).
Proof.
  unfold DidTalk.POST_inputs.
  assert (Hauth : present (or_else (or_else (DID_API_KEY env) (NEXT_PUBLIC_DID_API_KEY env)) None)
                  || present (or_else (DID_BASIC_AUTH env) None) = true).
  { unfold or_else.
    destruct (present (DID_API_KEY env)) eqn:H1; cbn [orb] in *; [now rewrite ?H1|].
    destruct (present (NEXT_PUBLIC_DID_API_KEY env)) eqn:H2; cbn [orb] in *;
      [now rewrite ?H2|].
    now rewrite Hvideo_key, Hvideo_key. }
  rewrite Hauth.
  replace (negb _ && negb _) with false by (rewrite <- negb_orb, Hauth; reflexivity).
  reflexivity.
Qed.

(** X15.  A body without a text gets status 400 from both routes: when the body
    is not an object (null, a number, a string, an array), when it has no
    text member, and when its text is null.  Nothing is fetched. *)
Theorem absent_text_is_missing_text body w :
  nullish (member "text" body) = true ->
  Gemini.POST env (Document body) w = (mkHttp 400 [("error", str "Missing 'text'")], w) /\
  DidTalk.POST env (Document body) w =
    (Some (mkHttp 400 [("error", str "Missing 'text'")]),
     mkWorld (now w) (responseCache w)
       (trace w ++ [EConsole Log [str "DID auth present:"; Some (JBool true)]])).
Proof.
  intros Hnone. split.
  - unfold Gemini.POST, Gemini.POST_try, try_catch. rewrite Htext_key.
    cbn [negb parsed bind ret]. rewrite chain_member.
    destruct (member "text" body) as [[]|]; try discriminate; destruct w; reflexivity.
  - rewrite DidTalkEdges.POST_by_parts, video_reads_body.
    cbn [parsed bind ret]. rewrite chain_member.
    destruct (member "text" body) as [[]|]; try discriminate; reflexivity.
Qed.

(** X16.  A body that cannot be read is answered by the catch block, with status
    500 and not 400: when the request body is not JSON, and when the text
    is there but is not a string (a number, a boolean, an array, an
    object), since only a string has a trim method.  For the video route
    the same holds of a source_url or a voice_id that is not a string,
    optional as these fields are.  Nothing is fetched and the cache is as
    it was. *)
Theorem unreadable_body_is_request_failed w :
  (forall m,
      Gemini.POST env (Malformed m) w =
        (mkHttp 500 [("error", str "Request failed"); ("detail", str ("SyntaxError: " +:+ m))],
         w) /\
      DidTalk.POST env (Malformed m) w =
        (Some (mkHttp 500 [("error", str "Request failed");
                           ("detail", str ("SyntaxError: " +:+ m))]),
         mkWorld (now w) (responseCache w)
           (trace w ++ [EConsole Log [str "DID auth present:"; Some (JBool true)]]))) /\
  (forall body j,
      member "text" body = Some j ->
      nullish (Some j) = false ->
      is_text (Some j) = false ->
      exists detail,
        Gemini.POST env (Document body) w =
          (mkHttp 500 [("error", str "Request failed"); ("detail", str detail)], w) /\
        DidTalk.POST env (Document body) w =
          (Some (mkHttp 500 [("error", str "Request failed"); ("detail", str detail)]),
           mkWorld (now w) (responseCache w)
             (trace w ++ [EConsole Log [str "DID auth present:"; Some (JBool true)]]))) /\
  (forall body s name j,
      member "text" body = Some (JStr s) ->
      nonempty (trim s) = true ->
      name = "source_url" \/ name = "voice_id" ->
      member name body = Some j ->
      nullish (Some j) = false ->
      is_text (Some j) = false ->
      exists detail,
        DidTalk.POST env (Document body) w =
          (Some (mkHttp 500 [("error", str "Request failed"); ("detail", str detail)]),
           mkWorld (now w) (responseCache w)
             (trace w ++ [EConsole Log [str "DID auth present:"; Some (JBool true)]]))).
Proof.
  split; [|split].
  - intros m. split.
    + unfold Gemini.POST, Gemini.POST_try, try_catch. rewrite Htext_key.
      destruct w; reflexivity.
    + now rewrite DidTalkEdges.POST_by_parts, video_reads_body.
  - intros body j Hj Hnull Htext.
    exists ("TypeError: body?.text?.trim is not a function"). split.
    + unfold Gemini.POST, Gemini.POST_try, try_catch. rewrite Htext_key.
      cbn [negb parsed bind ret]. rewrite chain_member, Hj.
      destruct j; try discriminate; destruct w; reflexivity.
    + rewrite DidTalkEdges.POST_by_parts, video_reads_body.
      cbn [parsed bind ret]. rewrite chain_member, Hj.
      destruct j; try discriminate; reflexivity.
  - intros body s name j Hs Hne Hname Hj Hnull Htext.
    rewrite DidTalkEdges.POST_by_parts, video_reads_body.
    cbn [parsed bind ret]. rewrite !chain_member, Hs. cbn [chain_trim bind ret present].
    rewrite Hne. cbn [negb].
    destruct Hname as [-> | ->]; rewrite Hj.
    + destruct j; try discriminate; eexists; reflexivity.
    + destruct (member "source_url" body) as [[]|]; destruct j; try discriminate;
        eexists; reflexivity.
Qed.

End Configured.

Lemma absent_text_is_missing_text_witness :
  Gemini.POST chatty (Document (JObj [])) boot =
    (mkHttp 400 [("error", str "Missing 'text'")], boot) /\
  fst (DidTalk.POST chatty (Document JNull) boot) =
    Some (mkHttp 400 [("error", str "Missing 'text'")]).
Proof.
  split.
  - exact (proj1 (absent_text_is_missing_text chatty eq_refl eq_refl (JObj []) boot eq_refl)).
  - exact (f_equal fst (proj2 (absent_text_is_missing_text chatty eq_refl eq_refl JNull boot
                                 eq_refl))).
Defined.

Lemma unreadable_body_is_request_failed_witness :
  DidTalk.POST chatty (Malformed "Unexpected end of JSON input") boot =
    (Some (mkHttp 500 [("error", str "Request failed");
                       ("detail", str "SyntaxError: Unexpected end of JSON input")]),
     mkWorld 1000 ∅ [EConsole Log [str "DID auth present:"; Some (JBool true)]]) /\
  exists detail,
    Gemini.POST chatty (Document (JObj [("text", JNum (5 # 1))])) boot =
      (mkHttp 500 [("error", str "Request failed"); ("detail", str detail)], boot) /\
    DidTalk.POST chatty (Document (JObj [("text", JNum (5 # 1))])) boot =
      (Some (mkHttp 500 [("error", str "Request failed"); ("detail", str detail)]),
       mkWorld (now boot) (responseCache boot)
         (trace boot ++ [EConsole Log [str "DID auth present:"; Some (JBool true)]])).
Proof.
  split.
  - exact (proj2 (proj1 (unreadable_body_is_request_failed chatty eq_refl eq_refl boot)
                    "Unexpected end of JSON input")).
  - exact (proj1 (proj2 (unreadable_body_is_request_failed chatty eq_refl eq_refl boot))
                 (JObj [("text", JNum (5 # 1))]) (JNum (5 # 1)) eq_refl eq_refl eq_refl).
Defined.

End RoutesEdges.

Module ProcessEdges.
Import Gemini Process Fixtures RuntimeFacts StringFacts GeminiEdges.

Lemma video_POST_clock env request_json w :
  now w <= now (snd (DidTalk.POST env request_json w)).
Proof. destruct (DidTalkEdges.POST_work env request_json w) as (_ & _ & H & _). exact H. Qed.

Lemma evolves_reached env w w' : reached env w -> evolves env w w' -> reached env w'.
Proof. intros Hw. induction 1; [assumption|now constructor ..]. Qed.

Lemma reached_timestamps env w :
  reached env w -> forall k c, responseCache w !! k = Some c -> timestamp c <= now w.
Proof.
  induction 1 as [t events|rq w _ IH|rq w _ IH|d w _ IH]; intros k c.
  - cbn. now rewrite lookup_empty.
  - pose proof (text_POST_clock env rq w) as Hclock.
    destruct (POST_keeps_entries env rq w) as [_ [->|(body & s & reply & _ & _ & _ & ->)]].
    + intros Hc. specialize (IH _ _ Hc). lia.
    + destruct (decide (toLowerCase (trim s) = k)) as [<-|Hne].
      * rewrite lookup_insert_eq. intros [= <-]. cbn. lia.
      * rewrite lookup_insert_ne by exact Hne. intros Hc. specialize (IH _ _ Hc). lia.
  - rewrite DidTalkSpec.POST_cache. intros Hc. specialize (IH _ _ Hc).
    pose proof (video_POST_clock env rq w). lia.
  - cbn. intros Hc. specialize (IH _ _ Hc). lia.
Qed.

Lemma reached_keys env w :
  reached env w -> forall k c, responseCache w !! k = Some c -> toLowerCase (trim k) = k.
Proof.
  induction 1 as [t events|rq w _ IH|rq w _ IH|d w _ IH]; intros k c.
  - cbn. now rewrite lookup_empty.
  - destruct (POST_keeps_entries env rq w) as [_ [->|(body & s & reply & _ & _ & _ & ->)]];
      [apply IH|].
    destruct (decide (toLowerCase (trim s) = k)) as [<-|Hne].
    + intros _. apply cacheKey_idem.
    + rewrite lookup_insert_ne by exact Hne. apply IH.
  - rewrite DidTalkSpec.POST_cache. apply IH.
  - apply IH.
Qed.

(** X13.  In every state the process can reach, no entry of the cache bears a
    time stamp later than the clock: the age that POST computes for an
    entry is never negative. *)
Theorem timestamps_are_in_the_past env w k c :
  reached env w ->
  responseCache w !! k = Some c ->
  0 <= now w - timestamp c.
Proof. intros Hw Hc. pose proof (reached_timestamps env w Hw k c Hc). lia. Qed.

(** X14.  In every state the process can reach, every key of the cache is a
    normal form of the normalization POST applies to a text: it is not
    empty, and trimming and lower-casing it gives it back.  So a request
    whose text is a key of the cache looks up that very entry. *)
Theorem keys_are_normalized env w k c :
  reached env w ->
  responseCache w !! k = Some c ->
  nonempty k = true /\ trim k = k /\ toLowerCase k = k.
Proof.
  intros Hw Hc. pose proof (reached_keys env w Hw k c Hc) as Hk.
  split; [exact (proj2 (CacheSpec.reached_inv env w Hw k c Hc))|].
  assert (Htrim : trim k = k).
  { rewrite <- Hk at 1. rewrite <- trim_toLowerCase, trim_idem, trim_toLowerCase. exact Hk. }
  split; [exact Htrim|]. now rewrite Htrim in Hk.
Qed.

(** X12.  The cache never forgets.  From any state the process can reach, an
    entry that is in the cache stays under its key whatever calls and
    delays follow, expired or not; it changes only by being overwritten,
    and then its time stamp does not decrease.  The clock does not run
    backwards either. *)
Theorem entries_are_never_evicted env w w' k c :
  reached env w ->
  evolves env w w' ->
  responseCache w !! k = Some c ->
  now w <= now w' /\
  exists c', responseCache w' !! k = Some c' /\ timestamp c <= timestamp c'.
Proof.
  intros Hw Hstep Hc.
  induction Hstep as [|rq w' Hstep IH|rq w' Hstep IH|d w' Hstep IH].
  - split; [lia|]. exists c. split; [exact Hc|lia].
  - destruct IH as [Hclock (c' & Hc' & Hstamp)].
    pose proof (text_POST_clock env rq w') as Hnow.
    split; [lia|].
    pose proof (reached_timestamps env w' (evolves_reached env w w' Hw Hstep) k c' Hc') as Hpast.
    destruct (POST_keeps_entries env rq w') as [_ [->|(body & s & reply & _ & _ & _ & ->)]].
    + eauto.
    + destruct (decide (toLowerCase (trim s) = k)) as [<-|Hne].
      * rewrite lookup_insert_eq. eexists. split; [reflexivity|]. cbn. lia.
      * rewrite lookup_insert_ne by exact Hne. eauto.
  - destruct IH as [Hclock (c' & Hc' & Hstamp)].
    pose proof (video_POST_clock env rq w'). split; [lia|].
    rewrite DidTalkSpec.POST_cache. eauto.
  - destruct IH as [Hclock (c' & Hc' & Hstamp)]. cbn. split; [lia|]. eauto.
Qed.

Lemma warm_is_reached : reached chatty warm.
Proof. apply reached_later, reached_text, reached_start. Qed.

Lemma timestamps_are_in_the_past_witness :
  0 <= now warm - timestamp (mkEntry (JStr "Hi there!") 1010).
Proof.
  exact (timestamps_are_in_the_past chatty warm "hello" (mkEntry (JStr "Hi there!") 1010)
           warm_is_reached eq_refl).
Defined.

Lemma keys_are_normalized_witness :
  nonempty "hello" = true /\ trim "hello" = "hello" /\ toLowerCase "hello" = "hello".
Proof.
  exact (keys_are_normalized chatty warm "hello" (mkEntry (JStr "Hi there!") 1010)
           warm_is_reached eq_refl).
Defined.

Lemma entries_are_never_evicted_witness :
  let refreshed := snd (POST chatty (Document (saying "Hello")) (later 300000 greeted)) in
  now greeted <= now refreshed /\
  exists c', responseCache refreshed !! "hello" = Some c' /\ 1010 <= timestamp c'.
Proof.
  refine (entries_are_never_evicted chatty greeted _ "hello" (mkEntry (JStr "Hi there!") 1010)
            _ _ eq_refl).
  - apply reached_text, reached_start.
  - apply evolves_text, evolves_later, evolves_refl.
Defined.

End ProcessEdges.

(** ** Properties of the chat page *)

Module HomeSpec.
Import Home Fixtures RuntimeFacts StringFacts.

(** The loop of onresult, result by result. *)
Lemma onresult_loop l : forall finalTranscript interim,
  fold_left
    (fun '(finalTranscript, interim) result =>
       if isFinal result then (finalTranscript +:+ transcript result, interim)
       else (finalTranscript, interim +:+ transcript result))
    l (finalTranscript, interim) =
  (finalTranscript +:+ joined (map transcript (filter (fun r => isFinal r) l)),
   interim +:+ joined (map transcript (filter (fun r => negb (isFinal r)) l))).
Proof.
  induction l as [|r l IH]; intros f i; cbn [fold_left filter map joined fold_right].
  - now rewrite !append_empty_r.
  - destruct (isFinal r) eqn:Hr; rewrite IH; cbn; rewrite ?Hr; cbn;
      now rewrite ?append_assoc.
Qed.

Lemma onresult_spec event finalTranscript st :
  onresult event finalTranscript st =
  (finalTranscript +:+ joined (finals event),
   setInputText (if nonempty (finalTranscript +:+ joined (finals event))
                 then finalTranscript +:+ joined (finals event)
                 else joined (interims event)) st).
Proof. unfold onresult. now rewrite onresult_loop. Qed.

Lemma joined_app l1 l2 : joined (l1 ++ l2) = joined l1 +:+ joined l2.
Proof.
  induction l1 as [|x l1 IH]; [reflexivity|].
  change (x +:+ joined (l1 ++ l2) = (x +:+ joined l1) +:+ joined l2).
  now rewrite IH, append_assoc.
Qed.

Lemma setInputText_twice a b st : setInputText a (setInputText b st) = setInputText a st.
Proof. reflexivity. Qed.

(** The result events of a session, one after the other. *)
Lemma session_loop events : forall finalTranscript st,
  exists shown,
    fold_left (fun '(finalTranscript, st) event => onresult event finalTranscript st)
              events (finalTranscript, st) =
    (finalTranscript +:+ joined (flat_map finals events), setInputText shown st) /\
    (events = [] -> shown = inputText st).
Proof.
  induction events as [|event events IH]; intros f st.
  - exists (inputText st). cbn. rewrite append_empty_r. split; [|reflexivity].
    now destruct st.
  - cbn [fold_left flat_map]. rewrite onresult_spec.
    destruct (IH (f +:+ joined (finals event))
                 (setInputText (if nonempty (f +:+ joined (finals event))
                                then f +:+ joined (finals event)
                                else joined (interims event)) st)) as (shown & Hfold & _).
    exists shown. rewrite Hfold, setInputText_twice, joined_app, append_assoc.
    split; [reflexivity|discriminate].
Qed.

Lemma onend_spec finalTranscript st :
  onend finalTranscript st =
  if nonempty (trim finalTranscript)
  then setInputText finalTranscript (setIsListening false st)
  else setIsListening false st.
Proof. now destruct finalTranscript. Qed.

(** X19.  What a listening session leaves in the input box.  The final
    transcript of the session is made of the transcripts of the final
    results of its events, in order, each event counted from its
    resultIndex; an event only ever adds to it.  As soon as it is not
    empty the box shows it, interim text being shown only before.  When the
    session ends the page is no longer listening, and the box holds the
    final transcript if that is more than white space; the session changes
    nothing else of the state. *)
Theorem recognized_text_reaches_the_input events st :
  let said := joined (flat_map finals events) in
  let st' := session events st in
  isListening st' = false /\
  setInputText (inputText st') (setIsListening false st) = st' /\
  (nonempty (trim said) = true -> inputText st' = said) /\
  (events = [] -> inputText st' = inputText st) /\
  (forall event finalTranscript st0,
      let after := onresult event finalTranscript st0 in
      fst after = finalTranscript +:+ joined (finals event) /\
      (nonempty (fst after) = true -> inputText (snd after) = fst after) /\
      (nonempty (fst after) = false -> inputText (snd after) = joined (interims event))).
Proof.
  cbv zeta. unfold session.
  destruct (session_loop events "" st) as (shown & -> & Hnone).
  change ("" +:+ joined (flat_map finals events)) with (joined (flat_map finals events)).
  rewrite onend_spec.
  split; [now destruct (nonempty (trim _))|].
  split; [now destruct (nonempty (trim _))|].
  split; [now intros ->|].
  split.
  - intros ->. specialize (Hnone eq_refl). subst shown. reflexivity.
  - intros event f st0. rewrite onresult_spec. cbn [fst snd].
    split; [reflexivity|]. split; now intros ->.
Qed.

(** X20.  The default voice.  loadVoices records the voices it is given.  A voice
    that is already selected is kept, whether it is among them or not.
    When none is selected and there are voices, the selected voice becomes
    the name of one of them: of the first whose name contains Female,
    Samantha, Karen, Zira or Google, and of the first voice when there is
    no such voice.  Loading the same voices again changes nothing. *)
Theorem default_voice_is_an_available_voice voices st :
  let st' := loadVoices voices st in
  availableVoices st' = voices /\
  (nonempty (selectedVoice st) = true -> selectedVoice st' = selectedVoice st) /\
  (voices = [] -> selectedVoice st' = selectedVoice st) /\
  (nonempty (selectedVoice st) = false -> voices <> [] ->
   In (selectedVoice st') (map name voices) /\
   ((exists before voice after,
       voices = (before ++ voice :: after)%list /\
       Forall (fun v => femaleVoice_test v = false) before /\
       femaleVoice_test voice = true /\
       selectedVoice st' = name voice) \/
    (Forall (fun v => femaleVoice_test v = false) voices /\
     Some (selectedVoice st') = name <$> head voices))) /\
  loadVoices voices st' = st'.
Proof.
  cbv zeta.
  assert (Hfind : forall l : list SpeechSynthesisVoice,
    match List.find femaleVoice_test l with
    | Some voice =>
        exists before after, l = (before ++ voice :: after)%list /\
          Forall (fun v => femaleVoice_test v = false) before /\
          femaleVoice_test voice = true
    | None => Forall (fun v => femaleVoice_test v = false) l
    end).
  { induction l as [|v l IH]; cbn [List.find]; [constructor|].
    destruct (femaleVoice_test v) eqn:Hv.
    - exists [], l. repeat split; [constructor|exact Hv].
    - destruct (List.find femaleVoice_test l) as [voice|].
      + destruct IH as (before & after & -> & Hbefore & Hvoice).
        exists (v :: before), after. repeat split; [constructor; assumption|exact Hvoice].
      + constructor; assumption. }
  unfold loadVoices. destruct voices as [|first rest].
  { repeat split; try reflexivity; try (now destruct st). }
  destruct (nonempty (selectedVoice st)) eqn:Hsel; cbn [negb].
  { cbn [setAvailableVoices selectedVoice availableVoices]. rewrite Hsel. cbn [negb].
    repeat split; try reflexivity; discriminate. }
  specialize (Hfind (first :: rest)).
  destruct (List.find femaleVoice_test (first :: rest)) as [voice|] eqn:Hfound.
  - destruct Hfind as (before & after & Hvoices & Hbefore & Hvoice).
    cbn [setSelectedVoice setAvailableVoices selectedVoice availableVoices].
    split; [reflexivity|]. split; [discriminate|]. split; [discriminate|]. split.
    + intros _ _. split.
      * rewrite Hvoices, map_app, in_app_iff. right. now left.
      * left. exists before, voice, after. auto.
    + now destruct (nonempty (name voice)).
  - cbn [setSelectedVoice setAvailableVoices selectedVoice availableVoices].
    split; [reflexivity|]. split; [discriminate|]. split; [discriminate|]. split.
    + intros _ _. split; [now left|]. right. split; [exact Hfind|reflexivity].
    + now destruct (nonempty (name first)).
Qed.

(** X17.  The page and the text route, end to end.  processUserInput sends one
    request, carrying the trimmed text.  Whatever the route answers, when
    the call ends the input box is empty, the two busy flags are off, the
    message count has gone up by one and the user's message is in the
    history.  On a 200 the reply follows it there as a message of the other
    side, no error is shown, and a callback to speak the reply is scheduled
    when autoSpeak is set, and only then.  On any other answer nothing
    follows the user's message, and the error shown is the error member of
    the answer, one of four fixed strings: the upstream detail and status
    never reach the page. *)
Theorem page_shows_the_route_answer env w raw took text autoSpeak t0 st :
  let answer := fst (Gemini.POST env (Document (JObj [("text", JStr (trim text))])) w) in
  let out := processUserInput text autoSpeak t0 (served env w raw took) st in
  let said := mkMessage (toString t0) user (str (trim text)) t0 in
  sent out = [askRequest text] /\
  inputText (page out) = "" /\
  loading (page out) = false /\
  typingIndicator (page out) = false /\
  messageCount (page out) = messageCount st + 1 /\
  ((exists data_reply,
      answer = Gemini.replying data_reply /\
      messages (page out) =
        (messages st ++
         [said; mkMessage (toString (t0 + Z.of_N took + 1)) ai (Some data_reply)
                          (t0 + Z.of_N took)])%list /\
      error (page out) = Plain "" /\
      timers out = if autoSpeak then [mkTimer 200 (Some data_reply)] else []) \/
   (exists shown,
      In shown ["Missing GOOGLE_GENERATIVE_API_KEY"; "Missing 'text'";
                "Gemini API error"; "Request failed"] /\
      code answer <> 200 /\
      assoc_last "error" (payload answer) = Some (str shown) /\
      messages (page out) = (messages st ++ [said])%list /\
      error (page out) = Plain shown /\
      timers out = [])).
Proof.
  cbv zeta. unfold processUserInput, served. cbn [body askRequest elapsed].
  destruct (GeminiEdges.text_POST_answers env (Document (JObj [("text", JStr (trim text))])) w)
    as [(data_reply & ->)|[->|[->|[(detail & status & ->)|(detail & ->)]]]].
  - cbn -[toString Z.add]. repeat split. left. exists data_reply. rewrite <- app_assoc.
    repeat split.
  - cbn -[toString Z.add]. repeat split. right. exists "Missing GOOGLE_GENERATIVE_API_KEY".
    repeat split; [tauto|discriminate].
  - cbn -[toString Z.add]. repeat split. right. exists "Missing 'text'".
    repeat split; [tauto|discriminate].
  - cbn -[toString Z.add]. repeat split. right. exists "Gemini API error".
    repeat split; [tauto|discriminate].
  - cbn -[toString Z.add]. repeat split. right. exists "Request failed".
    repeat split; [tauto|discriminate].
Qed.

(** X18.  The guard of handleSubmit.  With an input that is empty or all white
    space it does nothing: no request, no message, no change of the state.
    Otherwise it hands the input to processUserInput, without autoSpeak: one
    request goes out, and the text it carries is never blank, so the route
    never answers it with the status 400 of a missing text. *)
Theorem submit_guards_the_text env w raw took t0 st :
  let out := handleSubmit t0 (served env w raw took) st in
  let answer :=
    fst (Gemini.POST env (Document (JObj [("text", JStr (trim (inputText st)))])) w) in
  (whitespace_only (inputText st) = true -> out = mkEffects st [] []) /\
  (whitespace_only (inputText st) = false ->
   sent out = [askRequest (inputText st)] /\
   timers out = [] /\
   nonempty (trim (inputText st)) = true /\
   answer <> mkHttp 400 [("error", str "Missing 'text'")] /\
   error (page out) <> Plain "Missing 'text'").
Proof.
  cbv zeta. unfold handleSubmit. rewrite trim_nonempty. split; intros Hblank; rewrite Hblank.
  { reflexivity. }
  cbn [negb].
  assert (Hs : nonempty (trim (trim (inputText st))) = true)
    by (now rewrite trim_idem, trim_nonempty, Hblank).
  pose proof (GeminiEdges.said_text_is_not_missing env (trim (inputText st)) w Hs) as Hanswer.
  unfold processUserInput, served. cbn [body askRequest elapsed].
  destruct (GeminiEdges.text_POST_answers env
              (Document (JObj [("text", JStr (trim (inputText st)))])) w)
    as [(data_reply & Ha)|[Ha|[Ha|[(detail & status & Ha)|(detail & Ha)]]]];
    rewrite Ha in Hanswer |- *; try (now destruct Hanswer);
    cbn -[toString Z.add]; repeat split; discriminate.
Qed.

Lemma onresult_interactive_spec event finalTranscript :
  onresult_interactive event finalTranscript = finalTranscript +:+ joined (finals event).
Proof.
  unfold onresult_interactive, finals.
  generalize (drop (resultIndex event) (results event)) as l. intros l.
  revert finalTranscript.
  induction l as [|r l IH]; intros f.
  - cbn. now rewrite append_empty_r.
  - cbn [fold_left]. destruct (isFinal r) eqn:Hr; rewrite IH; cbn; rewrite ?Hr; cbn;
      now rewrite ?append_assoc.
Qed.

Lemma interactive_loop events : forall finalTranscript,
  fold_left (fun finalTranscript event => onresult_interactive event finalTranscript)
            events finalTranscript =
  finalTranscript +:+ joined (flat_map finals events).
Proof.
  induction events as [|event events IH]; intros f; cbn [fold_left flat_map].
  - now rewrite append_empty_r.
  - now rewrite IH, onresult_interactive_spec, joined_app, append_assoc.
Qed.

(** X22.  A session of the interactive mode.  What is said is the concatenation
    of the final transcripts of the session.  When that is empty or all
    white space the session only turns listening off: nothing is sent.
    Otherwise it is submitted once, trimmed, with autoSpeak: the text route
    never answers 400, the callback that speaks the reply is scheduled
    exactly when the route answers 200, and then with that reply. *)
Theorem spoken_text_is_asked_once env w raw took events t0 st :
  let said := joined (flat_map finals events) in
  let out := interactive_session events t0 (served env w raw took) st in
  let answer := fst (Gemini.POST env (Document (JObj [("text", JStr (trim said))])) w) in
  isListening (page out) = false /\
  (whitespace_only said = true -> out = mkEffects (setIsListening false st) [] []) /\
  (whitespace_only said = false ->
   sent out = [askRequest said] /\
   answer <> mkHttp 400 [("error", str "Missing 'text'")] /\
   (forall data_reply, answer = Gemini.replying data_reply ->
                       timers out = [mkTimer 200 (Some data_reply)]) /\
   (code answer <> 200 -> timers out = [])).
Proof.
  cbv zeta. unfold interactive_session. rewrite interactive_loop.
  change ("" +:+ joined (flat_map finals events)) with (joined (flat_map finals events)).
  set (said := joined (flat_map finals events)).
  unfold onend_interactive.
  assert (Hor : narrowed (or_else (Some said) (Some "")) = said) by now destruct said.
  rewrite Hor, trim_nonempty.
  destruct (whitespace_only said) eqn:Hblank; cbn [negb].
  { repeat split; discriminate. }
  assert (Hs : nonempty (trim (trim said)) = true)
    by (now rewrite trim_idem, trim_nonempty, Hblank).
  pose proof (GeminiEdges.said_text_is_not_missing env (trim said) w Hs) as Hanswer.
  unfold processUserInput, served. cbn [body askRequest elapsed].
  destruct (GeminiEdges.text_POST_answers env (Document (JObj [("text", JStr (trim said))])) w)
    as [(data_reply & Ha)|[Ha|[Ha|[(detail & status & Ha)|(detail & Ha)]]]];
    rewrite Ha in Hanswer |- *; try (now destruct Hanswer);
    cbn -[toString Z.add]; repeat split; try discriminate; try congruence.
  now intros ? [= ->].
Qed.

End HomeSpec.
